(** * nocena-devs: the task/developer reconciler and its persistence gateway

    A shallow embedding of
    - [src/lib/types.ts]                 (the data model),
    - [src/lib/utils.ts]                 ([validateCompletionForm],
                                          [calculateDeveloperStats]),
    - [src/lib/hooks/useTaskStorage.ts]  (the state reconciler, the periodic
                                          sweep and the save paths),
    - [src/lib/apiStorage.ts]            (the HTTP persistence gateway),
    - [src/lib/storage.ts]               (the localStorage gateway),
    - [src/app/api/data/route.ts]        (the route handlers behind the
                                          HTTP gateway),
    - [src/components]                   (the drop handling of the board,
                                          the developer dialog and the
                                          leaderboard),
    followed by the properties of the specification that were checked
    against them and by further properties of the same code.

    Modelling conventions.
    - A JavaScript [number] is a rational ([Q]): every finite double is
      one.  Comparisons are read exactly; an addition is the exact sum
      rounded to the nearest double, ties to even ([Js.double_add]), as
      IEEE 754 has it.  [NaN] and the infinities are not represented:
      the form code coerces [NaN] away ([parseFloat(..) || 0]) before it
      reaches the functions embedded here, and a sum that leaves the
      range of the doubles, which the platform turns into an infinity,
      is carried as the rounded value.
    - A JavaScript [string] is a sequence of 16-bit code units.  It is
      held in a Rocq [string] that writes each code unit, in turn, as
      the one, two or three bytes UTF-8 has for that number (so a text
      of the Basic Multilingual Plane is held as its UTF-8, and a
      character outside it as its two surrogates).  Concatenation and
      equality of strings are those of the byte strings; [length],
      [trim], [charAt] and [slice] work on the code units ([Js.units]).
    - The case mappings [toLowerCase] and [toUpperCase] are the
      platform's: they follow the tables of the Unicode standard, which
      are not embedded.  The code is embedded over any pair of such
      functions ([Js.CaseMapping]); the one property of the platform's
      mapping a proof needs is stated where it is used
      ([lower_case_keeps_counters]).
    - An optional property ([assignedTo?: string]) is an [option]: a key
      that is absent and a key holding [undefined] are not told apart.
    - React state is threaded explicitly: an updater passed to [setState]
      is a function from the previous state to the next one.  Where an
      updater writes into objects of the previous state in place, the
      state it returns is what is embedded. *)

From Stdlib Require Import List String Ascii Bool Arith ZArith QArith Lia.
From Stdlib Require Import DecimalString DecimalNat DecimalZ FinFun.
From Stdlib Require Import Permutation Sorted.
Import ListNotations.

Set Warnings "-register-all".

Close Scope Q_scope.
Local Open Scope string_scope.
Local Open Scope list_scope.

(* ================================================================== *)
(** * The JavaScript fragment the code relies on *)
(* ================================================================== *)

Module Js.

Definition number : Type := Q.

(** [x || 0] on a number: 0 is the only falsy number represented. *)
Definition number_or_0 (x : number) : number :=
  if Qeq_bool x 0 then 0%Q else x.

(** [x <= 0] on numbers. *)
Definition number_le_0 (x : number) : bool := Qle_bool x 0.

(** The quotient [a / b] of two integers, [b] positive, rounded to the
    nearest integer, a tie going to the even one. *)
Definition round_half_even (a b : Z) : Z :=
  let q := (a / b)%Z in
  let r := (a mod b)%Z in
  match (2 * r ?= b)%Z with
  | Lt => q
  | Gt => (q + 1)%Z
  | Eq => if Z.even q then q else (q + 1)%Z
  end.

(** The double nearest to a rational, ties to even (IEEE 754 binary64:
    53 bits of precision, the last bit of a subnormal worth 2^-1074).
    With [k] the exponent of the leading bit of [|x|], the result is a
    multiple [m * 2^e] of the unit in the last place [2^e],
    [e = max (k - 52) (-1074)]. *)
Definition round_double (x0 : number) : number :=
  let x := Qred x0 in
  let n := Z.abs (Qnum x) in
  let d := Z.pos (Qden x) in
  if (n =? 0)%Z then 0%Q
  else
    let k0 := (Z.log2 n - Z.log2 d)%Z in
    let below :=
      if (0 <=? k0)%Z then (n <? d * 2 ^ k0)%Z
      else (n * 2 ^ (- k0) <? d)%Z in
    let k := if below then (k0 - 1)%Z else k0 in
    let e := Z.max (k - 52) (-1074) in
    let m :=
      if (0 <=? e)%Z then round_half_even n (d * 2 ^ e)
      else round_half_even (n * 2 ^ (- e)) d in
    let signed := (Z.sgn (Qnum x) * m)%Z in
    if (0 <=? e)%Z then inject_Z (signed * 2 ^ e)
    else Qred (Qmake signed (Z.to_pos (2 ^ (- e)))).

(** [x + y] on numbers. *)
Definition double_add (x y : number) : number := round_double (x + y)%Q.

(** A string is truthy when it is not empty. *)
Definition truthy_string (s : string) : bool :=
  match s with
  | EmptyString => false
  | String _ _ => true
  end.

Definition code (c : ascii) : nat := nat_of_ascii c.

Definition between (lo hi : nat) (c : ascii) : bool :=
  (lo <=? code c)%nat && (code c <=? hi)%nat.

(** A byte that continues a code unit ([10xxxxxx]). *)
Definition is_continuation (c : ascii) : bool := between 128 191 c.

Definition starts_with_continuation (u : string) : bool :=
  match u with
  | EmptyString => false
  | String c _ => is_continuation c
  end.

(** The code units of a string, each with the bytes that write it: a
    byte opens a code unit unless it is a continuation byte. *)
Fixpoint units (s : string) : list string :=
  match s with
  | EmptyString => []
  | String c r =>
      match units r with
      | u :: us =>
          if starts_with_continuation u then String c u :: us
          else String c EmptyString :: u :: us
      | [] => [String c EmptyString]
      end
  end.

(** [s.length] *)
Definition length (s : string) : nat := List.length (units s).

(** The bytes that write code unit [u]. *)
Definition unit_bytes (u : N) : string :=
  if (u <? 128)%N then String (ascii_of_N u) EmptyString
  else if (u <? 2048)%N then
    String (ascii_of_N (192 + u / 64))
      (String (ascii_of_N (128 + u mod 64)) EmptyString)
  else
    String (ascii_of_N (224 + u / 4096))
      (String (ascii_of_N (128 + (u / 64) mod 64))
         (String (ascii_of_N (128 + u mod 64)) EmptyString)).

(** The white space and the line terminators of ECMAScript: TAB, LF, VT,
    FF, CR, SPACE, NO-BREAK SPACE (U+00A0), OGHAM SPACE MARK (U+1680),
    EN QUAD to HAIR SPACE (U+2000 to U+200A), LINE SEPARATOR (U+2028),
    PARAGRAPH SEPARATOR (U+2029), NARROW NO-BREAK SPACE (U+202F), MEDIUM
    MATHEMATICAL SPACE (U+205F), IDEOGRAPHIC SPACE (U+3000) and the byte
    order mark (U+FEFF). *)
Definition white_space : list N :=
  [ 9; 10; 11; 12; 13; 32; 160; 5760;
    8192; 8193; 8194; 8195; 8196; 8197; 8198; 8199; 8200; 8201; 8202;
    8232; 8233; 8239; 8287; 12288; 65279 ]%N.

Definition is_white_space (u : string) : bool :=
  existsb (fun w => String.eqb u (unit_bytes w)) white_space.

Fixpoint dropWhile {A} (p : A -> bool) (l : list A) : list A :=
  match l with
  | [] => []
  | x :: r => if p x then dropWhile p r else l
  end.

(** [String.prototype.trim]: the code units without the white space at
    the start and at the end. *)
Definition trim_units (us : list string) : list string :=
  rev (dropWhile is_white_space (rev (dropWhile is_white_space us))).

Definition trim (s : string) : string :=
  String.concat EmptyString (trim_units (units s)).

(** [s.charAt(0)]: the first code unit as a string, or the empty string. *)
Definition charAt0 (s : string) : string :=
  match units s with
  | u :: _ => u
  | [] => EmptyString
  end.

(** [s.slice(1)] *)
Definition slice1 (s : string) : string :=
  String.concat EmptyString (tl (units s)).

(** [s.split('-')[0]]: what stands before the first hyphen. *)
Fixpoint split_hyphen_0 (s : string) : string :=
  match s with
  | EmptyString => EmptyString
  | String c r => if (code c =? 45)%nat then EmptyString
                  else String c (split_hyphen_0 r)
  end.

(** A counter interpolated into a template literal: its decimal digits. *)
Definition string_of_counter (n : nat) : string :=
  NilEmpty.string_of_uint (Nat.to_uint n).

(** [String.prototype.toLowerCase] and [String.prototype.toUpperCase]:
    the case mappings of the platform. *)
Class CaseMapping : Type := {
  toLowerCase : string -> string;
  toUpperCase : string -> string
}.

(** [new Set(array)], kept as the list of its elements in insertion
    order; [Set.prototype.forEach] visits them in that order. *)
Definition Set_has (s : list string) (x : string) : bool :=
  existsb (String.eqb x) s.

Definition Set_add (s : list string) (x : string) : list string :=
  if Set_has s x then s else s ++ [x].

Definition Set_from (l : list string) : list string :=
  fold_left Set_add l [].

(** [array.findIndex(p)], [None] standing for -1. *)
Fixpoint findIndex {A} (p : A -> bool) (l : list A) : option nat :=
  match l with
  | [] => None
  | x :: r => if p x then Some 0%nat
              else option_map S (findIndex p r)
  end.

(** [array[i] = v] for an index inside the array. *)
Fixpoint assign_index {A} (l : list A) (i : nat) (v : A) : list A :=
  match l, i with
  | [], _ => []
  | _ :: r, O => v :: r
  | x :: r, S j => x :: assign_index r j v
  end.

End Js.

(* ================================================================== *)
(** * [types.ts]: the data model *)
(* ================================================================== *)

Inductive TaskStatus : Type := backlog | assigned | completed.

Definition TaskStatus_eqb (a b : TaskStatus) : bool :=
  match a, b with
  | backlog, backlog | assigned, assigned | completed, completed => true
  | _, _ => false
  end.

(** A [Date] object: its time value in milliseconds since the epoch, or
    the invalid date. *)
Inductive Date : Type :=
| ValidDate (ms : Z)
| InvalidDate.

Module TaskCompletionDetails.
Record t : Type := mk {
  hoursSpent : Js.number;
  gitCommit : string;
  comments : string
}.
End TaskCompletionDetails.

Module Task.
Record t : Type := mk {
  id : string;
  name : string;
  description : string;
  points : Js.number;
  status : TaskStatus;
  assignedTo : option string;
  createdAt : Date;
  completedAt : option Date;
  completionDetails : option TaskCompletionDetails.t
}.
End Task.

Module Developer.
Record t : Type := mk {
  id : string;
  name : string;
  totalPoints : Js.number;
  completedTasks : Js.number;
  totalHours : Js.number
}.
End Developer.

Record AppState : Type := mkAppState {
  tasks : list Task.t;
  developers : list Developer.t
}.

Module CompletionFormData.
Record t : Type := mk {
  hoursSpent : Js.number;
  gitCommit : string;
  comments : string
}.
End CompletionFormData.

Record ValidationError : Type := mkValidationError {
  field : string;
  message : string
}.

Record FormValidationResult : Type := mkFormValidationResult {
  isValid : bool;
  errors : list ValidationError
}.

(** [Partial<Task>]: the keys a patch carries.  For an optional property
    the patch may carry the key with the value [undefined], which the
    spread then writes over the task's value. *)
Module PartialTask.
Record t : Type := mk {
  id : option string;
  name : option string;
  description : option string;
  points : option Js.number;
  status : option TaskStatus;
  assignedTo : option (option string);
  createdAt : option Date;
  completedAt : option (option Date);
  completionDetails : option (option TaskCompletionDetails.t)
}.

(** The empty patch [{}]. *)
Definition empty : t :=
  mk None None None None None None None None None.
End PartialTask.

(** [{ ...task, ...updates }] *)
Definition spread {A} (old : A) (new : option A) : A :=
  match new with
  | Some v => v
  | None => old
  end.

Definition spread_task (task : Task.t) (updates : PartialTask.t) : Task.t :=
  Task.mk
    (spread (Task.id task) (PartialTask.id updates))
    (spread (Task.name task) (PartialTask.name updates))
    (spread (Task.description task) (PartialTask.description updates))
    (spread (Task.points task) (PartialTask.points updates))
    (spread (Task.status task) (PartialTask.status updates))
    (spread (Task.assignedTo task) (PartialTask.assignedTo updates))
    (spread (Task.createdAt task) (PartialTask.createdAt updates))
    (spread (Task.completedAt task) (PartialTask.completedAt updates))
    (spread (Task.completionDetails task)
            (PartialTask.completionDetails updates)).

(** [task.assignedTo === developerId] *)
Definition assignedTo_is (task : Task.t) (developerId : string) : bool :=
  match Task.assignedTo task with
  | Some a => String.eqb a developerId
  | None => false
  end.

(** The truthiness test [task.assignedTo]: the property is present and
    is not the empty string. *)
Definition assignedTo_truthy (task : Task.t) : bool :=
  match Task.assignedTo task with
  | Some a => Js.truthy_string a
  | None => false
  end.

(* ================================================================== *)
(** * [utils.ts] *)
(* ================================================================== *)

(** The regular expression [/^[a-f0-9]{6,40}$/i]: between 6 and 40
    characters, each a decimal digit or a letter a-f in either case.
    Without the [u] flag no character outside ASCII matches an ASCII
    letter when case is ignored, so the characters that pass are single
    bytes here, and a text of such characters has as many bytes as it
    has code units. *)
Definition is_hex_digit (c : ascii) : bool :=
  Js.between 48 57 c || Js.between 97 102 c || Js.between 65 70 c.

Fixpoint all_chars (p : ascii -> bool) (s : string) : bool :=
  match s with
  | EmptyString => true
  | String c r => p c && all_chars p r
  end.

Definition commit_hash_test (s : string) : bool :=
  (6 <=? String.length s)%nat && (String.length s <=? 40)%nat
  && all_chars is_hex_digit s.

(** [errors.push(e)] *)
Definition push {A} (l : list A) (x : A) : list A := l ++ [x].

Definition validateCompletionForm (data : CompletionFormData.t)
  : FormValidationResult :=
  let errors : list ValidationError := [] in
  let errors :=
    if Js.number_le_0 (CompletionFormData.hoursSpent data)
    then push errors (mkValidationError "hoursSpent"
                        "Hours spent must be greater than 0")
    else errors in
  let errors :=
    if negb (Js.truthy_string (Js.trim (CompletionFormData.gitCommit data)))
    then push errors (mkValidationError "gitCommit"
                        "Git commit reference is required")
    else if negb (commit_hash_test
                    (Js.trim (CompletionFormData.gitCommit data)))
    then push errors (mkValidationError "gitCommit"
                        "Git commit must be a valid hash (6-40 characters)")
    else errors in
  let errors :=
    if negb (Js.truthy_string (Js.trim (CompletionFormData.comments data)))
    then push errors (mkValidationError "comments"
                        "Completion comments are required")
    else errors in
  mkFormValidationResult (Nat.eqb (List.length errors) 0) errors.

(** The object [calculateDeveloperStats] returns. *)
Module Stats.
Record t : Type := mk {
  totalPoints : Js.number;
  completedTasks : Js.number;
  totalHours : Js.number
}.
End Stats.

(** [task.completionDetails?.hoursSpent || 0] *)
Definition hoursSpent_or_0 (task : Task.t) : Js.number :=
  match Task.completionDetails task with
  | Some d => Js.number_or_0 (TaskCompletionDetails.hoursSpent d)
  | None => 0%Q
  end.

(** [array.length] as a number. *)
Definition length_number {A} (l : list A) : Js.number :=
  inject_Z (Z.of_nat (List.length l)).

Definition calculateDeveloperStats (tasks : list Task.t)
           (developerId : string) : Stats.t :=
  let developerTasks :=
    filter (fun task =>
              assignedTo_is task developerId
              && TaskStatus_eqb (Task.status task) completed) tasks in
  Stats.mk
    (fold_left (fun sum task => Js.double_add sum (Task.points task))
               developerTasks 0%Q)
    (length_number developerTasks)
    (fold_left (fun sum task => Js.double_add sum (hoursSpent_or_0 task))
               developerTasks 0%Q).

(* ================================================================== *)
(** * [hooks/useTaskStorage.ts]: the state reconciler *)
(* ================================================================== *)

Section Reconciler.

Context {casing : Js.CaseMapping}.

(** [existingNames.some(name => name.toLowerCase() === candidate.toLowerCase())] *)
Definition name_taken (existingNames : list string) (candidate : string)
  : bool :=
  existsb (fun name =>
             String.eqb (Js.toLowerCase name) (Js.toLowerCase candidate))
          existingNames.

(** The template literal [`${baseName2} ${counter}`]. *)
Definition numbered (baseName2 : string) (counter : nat) : string :=
  (baseName2 ++ " " ++ Js.string_of_counter counter)%string.

(** The loop [while (taken(counter)) counter++], unrolled at most [fuel]
    times.  It returns the counter it stops at.  [counter_loop_exits]
    below shows that with one unit of fuel per existing name the loop
    always stops because its condition is false, given that the case
    mapping leaves the counter of a numbered name in place. *)
Fixpoint counter_loop (existingNames : list string) (baseName2 : string)
         (fuel counter : nat) : nat :=
  match fuel with
  | O => counter
  | S fuel' =>
      if name_taken existingNames (numbered baseName2 counter)
      then counter_loop existingNames baseName2 fuel' (S counter)
      else counter
  end.

Definition namePatterns (baseName : string) : list string :=
  [ ("Developer " ++ baseName)%string;
    ("Dev " ++ baseName)%string;
    (Js.toUpperCase (Js.charAt0 baseName) ++ Js.slice1 baseName
       ++ " Developer")%string;
    ("Team Member " ++ baseName)%string ].

Definition generateDefaultDeveloperName (developerId : string)
           (existingNames : list string) : string :=
  let idParts0 := Js.split_hyphen_0 developerId in
  let baseName := if Js.truthy_string idParts0 then idParts0 else "dev" in
  match find (fun pattern => negb (name_taken existingNames pattern))
             (namePatterns baseName) with
  | Some pattern => pattern
  | None =>
      let baseName2 := ("Developer " ++ baseName)%string in
      numbered baseName2
        (counter_loop existingNames baseName2
                      (List.length existingNames) 1)
  end.

(** [dev.totalPoints = ...; dev.completedTasks = ...; dev.totalHours = ...] *)
Definition set_stats (dev : Developer.t) (stats : Stats.t) : Developer.t :=
  Developer.mk (Developer.id dev) (Developer.name dev)
               (Stats.totalPoints stats) (Stats.completedTasks stats)
               (Stats.totalHours stats).

(** [updatedDevelopers.find(dev => dev.id === devId)], as the truth value
    the code tests. *)
Definition has_developer (devs : list Developer.t) (devId : string) : bool :=
  existsb (fun dev => String.eqb (Developer.id dev) devId) devs.

(** [task.assignedTo!] on a task that passed the filter. *)
Definition assignedTo_nonnull (task : Task.t) : string :=
  match Task.assignedTo task with
  | Some a => a
  | None => ""
  end.

(** One round of [assignedDeveloperIds.forEach]. *)
Definition provision (tasks : list Task.t)
           (updatedDevelopers : list Developer.t) (devId : string)
  : list Developer.t :=
  if negb (has_developer updatedDevelopers devId) then
    let stats := calculateDeveloperStats tasks devId in
    let existingNames := map Developer.name updatedDevelopers in
    let defaultName := generateDefaultDeveloperName devId existingNames in
    push updatedDevelopers
         (Developer.mk devId defaultName
                       (Stats.totalPoints stats)
                       (Stats.completedTasks stats)
                       (Stats.totalHours stats))
  else updatedDevelopers.

(** The first loop writes the three aggregates into the developer
    objects of the previous state, in place; the array returned holds
    those objects, so it is the previous array with each record
    refreshed.  The second loop pushes a record for every assignee that
    has none, in the insertion order of the set. *)
Definition updateDeveloperStats (tasks : list Task.t)
           (developers : list Developer.t) : list Developer.t :=
  let updatedDevelopers :=
    map (fun dev =>
           set_stats dev (calculateDeveloperStats tasks (Developer.id dev)))
        developers in
  let assignedDeveloperIds :=
    Js.Set_from (map assignedTo_nonnull (filter assignedTo_truthy tasks)) in
  fold_left (provision tasks) assignedDeveloperIds updatedDevelopers.

Definition addTask (task : Task.t) (prevState : AppState) : AppState :=
  let newTasks := tasks prevState ++ [task] in
  let updatedDevelopers :=
    updateDeveloperStats newTasks (developers prevState) in
  mkAppState newTasks updatedDevelopers.

Definition updateTask (taskId : string) (updates : PartialTask.t)
           (prevState : AppState) : AppState :=
  let newTasks :=
    map (fun task =>
           if String.eqb (Task.id task) taskId
           then spread_task task updates else task)
        (tasks prevState) in
  let updatedDevelopers :=
    updateDeveloperStats newTasks (developers prevState) in
  mkAppState newTasks updatedDevelopers.

Definition deleteTask (taskId : string) (prevState : AppState) : AppState :=
  let newTasks :=
    filter (fun task => negb (String.eqb (Task.id task) taskId))
           (tasks prevState) in
  let updatedDevelopers :=
    updateDeveloperStats newTasks (developers prevState) in
  mkAppState newTasks updatedDevelopers.

Definition updateDeveloper (developer : Developer.t) (prevState : AppState)
  : AppState :=
  let existingIndex :=
    Js.findIndex (fun dev =>
                    String.eqb (Developer.id dev) (Developer.id developer))
                 (developers prevState) in
  let newDevelopers :=
    match existingIndex with
    | Some i => Js.assign_index (developers prevState) i developer
    | None => developers prevState ++ [developer]
    end in
  mkAppState (tasks prevState) newDevelopers.

Definition addDeveloper (developer : Developer.t) (prevState : AppState)
  : AppState :=
  if has_developer (developers prevState) (Developer.id developer)
  then prevState
  else mkAppState (tasks prevState) (developers prevState ++ [developer]).

(** [{ ...task, status: 'backlog', assignedTo: undefined }] *)
Definition to_backlog (task : Task.t) : Task.t :=
  Task.mk (Task.id task) (Task.name task) (Task.description task)
          (Task.points task) backlog None (Task.createdAt task)
          (Task.completedAt task) (Task.completionDetails task).

(** The count [deleteDeveloper] only writes to the console is left out. *)
Definition deleteDeveloper (developerId : string) (prevState : AppState)
  : AppState :=
  let updatedTasks :=
    map (fun task =>
           if assignedTo_is task developerId
              && negb (TaskStatus_eqb (Task.status task) completed)
           then to_backlog task
           else task)
        (tasks prevState) in
  let newDevelopers :=
    filter (fun dev => negb (String.eqb (Developer.id dev) developerId))
           (developers prevState) in
  mkAppState updatedTasks newDevelopers.

(** The test of the periodic sweep:
    [task.assignedTo && !validDeveloperIds.has(task.assignedTo)]. *)
Definition orphaned (validDeveloperIds : list string) (task : Task.t) : bool :=
  assignedTo_truthy task
  && negb (Js.Set_has validDeveloperIds (assignedTo_nonnull task)).

(** The updater [validateAndCleanup] hands to [setState], run every 30
    seconds.  The loop assigns [task.assignedTo = undefined] and
    [task.status = 'backlog'] on each orphaned task and records in
    [hasChanges] whether it did so at all. *)
Definition validateAndCleanup (prevState : AppState) : AppState :=
  let cleanedDevelopers := developers prevState in
  let validDeveloperIds := Js.Set_from (map Developer.id cleanedDevelopers) in
  let visited :=
    map (fun task =>
           if orphaned validDeveloperIds task
           then (to_backlog task, true)
           else (task, false))
        (tasks prevState) in
  let cleanedTasks := map fst visited in
  let hasChanges := existsb snd visited in
  if hasChanges then mkAppState cleanedTasks cleanedDevelopers
  else prevState.

(** The public mutations of the reconciler. *)
Inductive Mutation : Type :=
| AddTask (task : Task.t)
| UpdateTask (taskId : string) (updates : PartialTask.t)
| DeleteTask (taskId : string)
| AddDeveloper (developer : Developer.t)
| UpdateDeveloper (developer : Developer.t)
| DeleteDeveloper (developerId : string).

Definition apply_mutation (m : Mutation) (s : AppState) : AppState :=
  match m with
  | AddTask task => addTask task s
  | UpdateTask taskId updates => updateTask taskId updates s
  | DeleteTask taskId => deleteTask taskId s
  | AddDeveloper developer => addDeveloper developer s
  | UpdateDeveloper developer => updateDeveloper developer s
  | DeleteDeveloper developerId => deleteDeveloper developerId s
  end.

(** [useState<AppState>({ tasks: [], developers: [] })] *)
Definition initialState : AppState := mkAppState [] [].

(** The states the public mutations reach from the initial one. *)
Inductive reachable : AppState -> Prop :=
| reachable_initial : reachable initialState
| reachable_step m s : reachable s -> reachable (apply_mutation m s).

(** [n] runs of the periodic sweep. *)
Fixpoint sweeps (n : nat) (s : AppState) : AppState :=
  match n with
  | O => s
  | S k => sweeps k (validateAndCleanup s)
  end.

End Reconciler.

(* ================================================================== *)
(** * Untyped values, JSON texts and exceptions *)
(* ================================================================== *)

(** The persistence code handles data it has not checked ([unknown]),
    so it is embedded over untyped values. *)
Inductive value : Type :=
| VUndefined
| VNull
| VBoolean (b : bool)
| VNumber (n : Js.number)
| VString (s : string)
| VDate (d : Date)
| VArray (items : list value)
| VObject (props : list (string * value)).

(** The document a JSON text denotes. *)
Inductive json : Type :=
| JNull
| JBoolean (b : bool)
| JNumber (n : Js.number)
| JString (s : string)
| JArray (items : list json)
| JObject (props : list (string * json)).

(** A text handed to [JSON.parse], told by what the parser makes of it:
    the document it denotes, or a text the parser rejects with a
    [SyntaxError] (the empty text is one of those).  The parser and the
    printer belong to the platform and are not embedded; a text that
    [JSON.stringify] wrote denotes the document that was written. *)
Inductive text : Type :=
| Document (doc : json)
| Malformed (raw : string).

(** A computation that returns or throws. *)
Inductive result (A : Type) : Type :=
| Ok (a : A)
| Throw (error : string).
Arguments Ok {A} a.
Arguments Throw {A} error.

Definition bind {A B} (c : result A) (k : A -> result B) : result B :=
  match c with
  | Ok a => k a
  | Throw e => Throw e
  end.

(** [try { c } catch (error) { handler }] *)
Definition try_catch {A} (c : result A) (handler : string -> result A)
  : result A :=
  match c with
  | Ok a => Ok a
  | Throw e => handler e
  end.

Declare Scope js_scope.
Delimit Scope js_scope with js.
Notation "x <- c ;; k" := (bind c (fun x => k))
  (at level 61, c at next level, right associativity) : js_scope.
Notation "c ;;; k" := (bind c (fun _ => k))
  (at level 61, right associativity) : js_scope.

(** Truthiness. *)
Definition truthy (v : value) : bool :=
  match v with
  | VUndefined | VNull => false
  | VBoolean b => b
  | VNumber n => negb (Qeq_bool n 0)
  | VString s => Js.truthy_string s
  | VDate _ | VArray _ | VObject _ => true
  end.

(** [typeof v === 'object'] *)
Definition typeof_object (v : value) : bool :=
  match v with
  | VNull | VDate _ | VArray _ | VObject _ => true
  | _ => false
  end.

Definition typeof_string (v : value) : bool :=
  match v with VString _ => true | _ => false end.

Definition typeof_number (v : value) : bool :=
  match v with VNumber _ => true | _ => false end.

Definition isArray (v : value) : bool :=
  match v with VArray _ => true | _ => false end.

Definition instanceof_Date (v : value) : bool :=
  match v with VDate _ => true | _ => false end.

(** Own-property lookup in a property list. *)
Fixpoint lookup {A} (props : list (string * A)) (key : string) : option A :=
  match props with
  | [] => None
  | (k, x) :: r => if String.eqb k key then Some x else lookup r key
  end.

(** [v.key] on a value that is not [null] or [undefined]; the only
    inherited property the code reads is [length]. *)
Definition get (v : value) (key : string) : value :=
  match v with
  | VObject props =>
      match lookup props key with
      | Some x => x
      | None => VUndefined
      end
  | VArray items =>
      if String.eqb key "length" then VNumber (length_number items)
      else VUndefined
  | VString s =>
      if String.eqb key "length"
      then VNumber (inject_Z (Z.of_nat (Js.length s)))
      else VUndefined
  | _ => VUndefined
  end.

(** [v.key] in general: reading a property of [null] or [undefined]
    throws a [TypeError]. *)
Definition member (v : value) (key : string) : result value :=
  match v with
  | VUndefined | VNull => Throw "TypeError"
  | _ => Ok (get v key)
  end.

(** [a || []] *)
Definition or_empty_array (a : value) : value :=
  if truthy a then a else VArray [].

(** [JSON.parse] on the document a text denotes. *)
Fixpoint value_of_json (j : json) : value :=
  match j with
  | JNull => VNull
  | JBoolean b => VBoolean b
  | JNumber n => VNumber n
  | JString s => VString s
  | JArray items => VArray (map value_of_json items)
  | JObject props =>
      VObject ((fix each (ps : list (string * json)) :=
                  match ps with
                  | [] => []
                  | (k, x) :: r => (k, value_of_json x) :: each r
                  end) props)
  end.

Definition JSON_parse (t : text) : result value :=
  match t with
  | Document doc => Ok (value_of_json doc)
  | Malformed _ => Throw "SyntaxError"
  end.

(** The empty state literal [{ tasks: [], developers: [] }]. *)
Definition empty_state : value :=
  VObject [("tasks", VArray []); ("developers", VArray [])].

Definition status_text (s : TaskStatus) : string :=
  match s with
  | backlog => "backlog"
  | assigned => "assigned"
  | completed => "completed"
  end.

(** An optional property: absent when the option is. *)
Definition optional {A} (key : string) (f : A -> value) (o : option A)
  : list (string * value) :=
  match o with
  | Some a => [(key, f a)]
  | None => []
  end.

(** The typed records as the objects they are at run time. *)
Definition value_of_details (d : TaskCompletionDetails.t) : value :=
  VObject [ ("hoursSpent", VNumber (TaskCompletionDetails.hoursSpent d));
            ("gitCommit", VString (TaskCompletionDetails.gitCommit d));
            ("comments", VString (TaskCompletionDetails.comments d)) ].

Definition value_of_task (t : Task.t) : value :=
  VObject ([ ("id", VString (Task.id t));
             ("name", VString (Task.name t));
             ("description", VString (Task.description t));
             ("points", VNumber (Task.points t));
             ("status", VString (status_text (Task.status t))) ]
           ++ optional "assignedTo" VString (Task.assignedTo t)
           ++ [ ("createdAt", VDate (Task.createdAt t)) ]
           ++ optional "completedAt" VDate (Task.completedAt t)
           ++ optional "completionDetails" value_of_details
                       (Task.completionDetails t)).

Definition value_of_developer (d : Developer.t) : value :=
  VObject [ ("id", VString (Developer.id d));
            ("name", VString (Developer.name d));
            ("totalPoints", VNumber (Developer.totalPoints d));
            ("completedTasks", VNumber (Developer.completedTasks d));
            ("totalHours", VNumber (Developer.totalHours d)) ].

Definition value_of_state (s : AppState) : value :=
  VObject [ ("tasks", VArray (map value_of_task (tasks s)));
            ("developers", VArray (map value_of_developer (developers s))) ].

Section Platform.

(** What the platform's [Date] does with text: [Date.prototype.toISOString]
    on the time value of a valid date, and [new Date(text)]. *)
Variable toISOString : Z -> string.
Variable Date_of_string : string -> Date.

(** The document [JSON.stringify] writes for a value that stands inside
    an object or an array.  A date is written through [toJSON] (its ISO
    text, or [null] when it is invalid), an [undefined] array element as
    [null], and a property that holds [undefined] is left out. *)
Definition is_undefined (v : value) : bool :=
  match v with VUndefined => true | _ => false end.

Fixpoint json_of_value (v : value) : json :=
  match v with
  | VUndefined => JNull
  | VNull => JNull
  | VBoolean b => JBoolean b
  | VNumber n => JNumber n
  | VString s => JString s
  | VDate (ValidDate ms) => JString (toISOString ms)
  | VDate InvalidDate => JNull
  | VArray items => JArray (map json_of_value items)
  | VObject props =>
      JObject ((fix each (ps : list (string * value)) :=
                  match ps with
                  | [] => []
                  | (k, x) :: r =>
                      if is_undefined x then each r
                      else (k, json_of_value x) :: each r
                  end) props)
  end.

(** [JSON.stringify(object, null, 2)] on an object literal. *)
Definition JSON_stringify (props : list (string * value)) : text :=
  Document (json_of_value (VObject props)).

(** [deserializeDates] (the same function in [apiStorage.ts] and in
    [storage.ts]).  On a plain object the source first replaces the
    properties [createdAt] and [completedAt] when they hold a non-empty
    string, then walks over all properties and descends into those that
    hold an object other than a [Date].  Property names are unique, so
    the two loops are read here property by property: a non-empty string
    under one of the two names becomes a date (which the walk then
    skips), an array or a plain object is descended into, and anything
    else is kept.  The test [data.constructor === Object] fails on an
    object with a property of its own called [constructor]; such an
    object is returned as it is. *)
Definition date_key (k : string) : bool :=
  String.eqb k "createdAt" || String.eqb k "completedAt".

Fixpoint deserializeDates (data : value) : value :=
  match data with
  | VArray items => VArray (map deserializeDates items)
  | VObject props =>
      match lookup props "constructor" with
      | Some _ => data
      | None =>
          VObject ((fix each (ps : list (string * value)) :=
                      match ps with
                      | [] => []
                      | (k, x) :: r =>
                          (k, match x with
                              | VString s =>
                                  if date_key k && Js.truthy_string s
                                  then VDate (Date_of_string s)
                                  else x
                              | VArray _ | VObject _ => deserializeDates x
                              | _ => x
                              end) :: each r
                      end) props)
      end
  | _ => data
  end.

End Platform.

(* ================================================================== *)
(** * [apiStorage.ts]: the HTTP gateway *)
(* ================================================================== *)

Module ApiStorage.

(** What [fetch('/api/data')] comes back with: a rejected promise, or a
    response with its [ok] flag, its status and its body. *)
Inductive fetch_outcome : Type :=
| NetworkError
| Response (ok : bool) (status : Z) (body : text).

Section Platform.

Variable toISOString : Z -> string.
Variable Date_of_string : string -> Date.

Definition validateStorageData (data : value) : bool :=
  if negb (truthy data) || negb (typeof_object data) then false
  else if negb (isArray (get data "tasks"))
          || negb (isArray (get data "developers")) then false
  else true.

Definition loadData (outcome : fetch_outcome) : result value :=
  try_catch
    (match outcome with
     | NetworkError => Throw "TypeError: Failed to fetch"
     | Response ok status body =>
         if negb ok then Throw "HTTP error!"
         else
           (data <- JSON_parse body ;;
            let deserializedData := deserializeDates Date_of_string data in
            (* the console.log reads both lengths *)
            tasks <- member deserializedData "tasks" ;;
            member tasks "length" ;;;
            developers <- member deserializedData "developers" ;;
            member developers "length" ;;;
            Ok deserializedData)%js
     end)
    (fun _ => Ok empty_state).

Definition exportData (state : AppState) : result text :=
  try_catch
    (Ok (JSON_stringify toISOString
           [ ("tasks", get (value_of_state state) "tasks");
             ("developers", get (value_of_state state) "developers");
             ("version", VString "1.0") ]))
    (fun _ => Throw "Failed to export data").

Definition importData (jsonString : text) : result value :=
  try_catch
    (parsed <- JSON_parse jsonString ;;
     if negb (validateStorageData parsed) then Throw "Invalid data format"
     else
       let deserializedData := deserializeDates Date_of_string parsed in
       Ok (VObject
             [ ("tasks", or_empty_array (get deserializedData "tasks"));
               ("developers",
                or_empty_array (get deserializedData "developers")) ]))%js
    (fun _ => Throw "Failed to import data: Invalid JSON format").

End Platform.

(** The body [saveData] posts: [JSON.stringify(state)]. *)
Definition save_request (toISOString : Z -> string) (state : AppState)
  : text :=
  JSON_stringify toISOString
    [ ("tasks", get (value_of_state state) "tasks");
      ("developers", get (value_of_state state) "developers") ].

(** What the functions do with a response whose body is
    [{success, error}].  The message thrown on failure is only written
    to the console by the caller's [catch]; an [error] that is not a
    string is not spelled out. *)
Definition confirmed (outcome : fetch_outcome) (otherwise : string)
  : result bool :=
  match outcome with
  | NetworkError => Throw "TypeError: Failed to fetch"
  | Response ok status body =>
      if negb ok then Throw "HTTP error!"
      else
        (result <- JSON_parse body ;;
         success <- member result "success" ;;
         if truthy success then Ok true
         else
           error <- member result "error" ;;
           match error with
           | VString e => if Js.truthy_string e then Throw e
                          else Throw otherwise
           | _ => Throw otherwise
           end)%js
  end.

(** [saveData(state)], for the outcome of the POST of [save_request]. *)
Definition saveData (outcome : fetch_outcome) : result bool :=
  try_catch (confirmed outcome "Save failed") (fun _ => Ok false).

(** [clearData()], for the outcome of the DELETE. *)
Definition clearData (outcome : fetch_outcome) : result bool :=
  try_catch (confirmed outcome "Clear failed") (fun _ => Ok false).

(** [isStorageAvailable()] *)
Definition isStorageAvailable : bool := true.

End ApiStorage.

(* ================================================================== *)
(** * The route handlers behind [/api/data] *)
(* ================================================================== *)

Module Route.

(** The key-value store, as far as the key [nocena-devs-data] goes: the
    document stored under it, and whether the store can be reached
    (every call fails when it cannot).  The client of the store writes a
    value as its JSON document and reads it back parsed. *)
Record KV : Type := mkKV {
  stored : option json;
  unreachable : bool
}.

Record response : Type := mkResponse {
  status : Z;
  body : text
}.

(** [response.ok]: the status is in the range 200-299. *)
Definition ok (r : response) : bool :=
  (200 <=? status r)%Z && (status r <=? 299)%Z.

(** The response as [fetch] hands it to the caller. *)
Definition deliver (r : response) : ApiStorage.fetch_outcome :=
  ApiStorage.Response (ok r) (status r) (body r).

(** A handler's computation over the store. *)
Definition Eff (A : Type) : Type := KV -> result A * KV.

Definition ret {A} (a : A) : Eff A := fun kv => (Ok a, kv).

Definition bindE {A B} (c : Eff A) (k : A -> Eff B) : Eff B :=
  fun kv =>
    match c kv with
    | (Ok a, kv') => k a kv'
    | (Throw e, kv') => (Throw e, kv')
    end.

Definition tryE {A} (c : Eff A) (handler : string -> Eff A) : Eff A :=
  fun kv =>
    match c kv with
    | (Ok a, kv') => (Ok a, kv')
    | (Throw e, kv') => handler e kv'
    end.

Definition lift {A} (c : result A) : Eff A := fun kv => (c, kv).

Declare Scope route_scope.
Delimit Scope route_scope with route.
Notation "x <- c ;; k" := (bindE c (fun x => k))
  (at level 61, c at next level, right associativity) : route_scope.
Notation "c ;;; k" := (bindE c (fun _ => k))
  (at level 61, right associativity) : route_scope.

Definition STORAGE_VERSION : string := "1.0".

(** [kv.get(STORAGE_KEY)] *)
Definition kv_get : Eff value :=
  fun kv =>
    if unreachable kv then (Throw "KV unreachable", kv)
    else (Ok (match stored kv with
              | Some doc => value_of_json doc
              | None => VNull
              end), kv).

(** [kv.del(STORAGE_KEY)] *)
Definition kv_del : Eff unit :=
  fun kv =>
    if unreachable kv then (Throw "KV unreachable", kv)
    else (Ok tt, mkKV None (unreachable kv)).

Section Platform.

Variable toISOString : Z -> string.
Variable Date_of_string : string -> Date.

(** [kv.set(STORAGE_KEY, object)] *)
Definition kv_set (props : list (string * value)) : Eff unit :=
  fun kv =>
    if unreachable kv then (Throw "KV unreachable", kv)
    else (Ok tt, mkKV (Some (json_of_value toISOString (VObject props)))
                      (unreachable kv)).

(** [NextResponse.json(object, { status })] *)
Definition json_response (props : list (string * value)) (status : Z)
  : response :=
  mkResponse status (JSON_stringify toISOString props).

Definition DEFAULT_STATE : list (string * value) :=
  [("tasks", VArray []); ("developers", VArray [])].

Definition GET : Eff response :=
  tryE
    (stored <- kv_get ;;
     if negb (truthy stored) then ret (json_response DEFAULT_STATE 200)
     else
       let deserializedData := deserializeDates Date_of_string stored in
       tasks <- lift (member deserializedData "tasks") ;;
       developers <- lift (member deserializedData "developers") ;;
       ret (json_response
              [ ("tasks", or_empty_array tasks);
                ("developers", or_empty_array developers) ] 200))%route
    (fun _ => ret (json_response DEFAULT_STATE 200)).

(** [POST(request)], for the body of the request. *)
Definition POST (requestBody : text) : Eff response :=
  tryE
    (state <- lift (JSON_parse requestBody) ;;
     if negb (truthy state)
        || negb (isArray (get state "tasks"))
        || negb (isArray (get state "developers"))
     then ret (json_response
                 [ ("success", VBoolean false);
                   ("error", VString "Invalid state structure") ] 400)
     else
       kv_set [ ("tasks", get state "tasks");
                ("developers", get state "developers");
                ("version", VString STORAGE_VERSION) ] ;;;
       (* the console.log reads both lengths *)
       lift (member (get state "tasks") "length") ;;;
       lift (member (get state "developers") "length") ;;;
       ret (json_response [("success", VBoolean true)] 200))%route
    (fun _ => ret (json_response
                     [ ("success", VBoolean false);
                       ("error", VString "Failed to save data") ] 500)).

Definition DELETE : Eff response :=
  tryE
    (kv_del ;;;
     ret (json_response [("success", VBoolean true)] 200))%route
    (fun _ => ret (json_response
                     [ ("success", VBoolean false);
                       ("error", VString "Failed to clear data") ] 500)).

End Platform.

End Route.

(* ================================================================== *)
(** * [storage.ts]: the localStorage gateway *)
(* ================================================================== *)

Module Storage.

Definition STORAGE_KEY : string := "nocena-devs-data".
Definition STORAGE_VERSION : string := "1.0".
Definition DEFAULT_STATE : value := empty_state.

(** The browser's [localStorage]: its entries, whether access to it is
    denied (every call throws), and whether its quota is used up
    ([setItem] throws). *)
Record LocalStorage : Type := mkLocalStorage {
  entries : list (string * text);
  denied : bool;
  quota_exceeded : bool
}.

(** A computation over the storage that returns or throws; what it wrote
    before throwing stays written. *)
Definition Eff (A : Type) : Type := LocalStorage -> result A * LocalStorage.

Definition ret {A} (a : A) : Eff A := fun ls => (Ok a, ls).

Definition lift {A} (c : result A) : Eff A := fun ls => (c, ls).

Definition bindE {A B} (c : Eff A) (k : A -> Eff B) : Eff B :=
  fun ls =>
    match c ls with
    | (Ok a, ls') => k a ls'
    | (Throw e, ls') => (Throw e, ls')
    end.

(** [try { c } catch (error) { handler }] *)
Definition tryE {A} (c : Eff A) (handler : string -> Eff A) : Eff A :=
  fun ls =>
    match c ls with
    | (Ok a, ls') => (Ok a, ls')
    | (Throw e, ls') => handler e ls'
    end.

Declare Scope eff_scope.
Delimit Scope eff_scope with eff.
Notation "x <- c ;; k" := (bindE c (fun x => k))
  (at level 61, c at next level, right associativity) : eff_scope.
Notation "c ;;; k" := (bindE c (fun _ => k))
  (at level 61, right associativity) : eff_scope.

Fixpoint store (es : list (string * text)) (key : string) (v : text)
  : list (string * text) :=
  match es with
  | [] => [(key, v)]
  | (k, x) :: r => if String.eqb k key then (k, v) :: r
                   else (k, x) :: store r key v
  end.

(** [localStorage.getItem(key)], [None] standing for [null]. *)
Definition getItem (key : string) : Eff (option text) :=
  fun ls =>
    if denied ls then (Throw "SecurityError", ls)
    else (Ok (lookup (entries ls) key), ls).

(** [localStorage.setItem(key, v)] *)
Definition setItem (key : string) (v : text) : Eff unit :=
  fun ls =>
    if denied ls then (Throw "SecurityError", ls)
    else if quota_exceeded ls then (Throw "QuotaExceededError", ls)
    else (Ok tt, mkLocalStorage (store (entries ls) key v)
                                (denied ls) (quota_exceeded ls)).

(** [!stored] on a text: it is the empty string. *)
Definition empty_text (t : text) : bool :=
  match t with
  | Malformed raw => negb (Js.truthy_string raw)
  | Document _ => false
  end.

(** [for (const x of xs) { if (!check(x)) return false; }]: the first
    failing item, or the first exception, ends the loop. *)
Fixpoint every (check : value -> result bool) (xs : list value)
  : result bool :=
  match xs with
  | [] => Ok true
  | x :: r =>
      (ok <- check x ;;
       if ok then every check r else Ok false)%js
  end.

Definition status_names : list string := ["backlog"; "assigned"; "completed"].

(** [['backlog', 'assigned', 'completed'].includes(v)] *)
Definition includes_status (v : value) : bool :=
  match v with
  | VString s => existsb (String.eqb s) status_names
  | _ => false
  end.

Definition valid_task (task : value) : result bool :=
  (id <- member task "id" ;;
   name <- member task "name" ;;
   points <- member task "points" ;;
   if negb (truthy id) || negb (truthy name) || negb (typeof_number points)
   then Ok false
   else
     status <- member task "status" ;;
     if negb (includes_status status) then Ok false else Ok true)%js.

Definition valid_developer (dev : value) : result bool :=
  (id <- member dev "id" ;;
   name <- member dev "name" ;;
   totalPoints <- member dev "totalPoints" ;;
   if negb (truthy id) || negb (truthy name)
      || negb (typeof_number totalPoints)
   then Ok false else Ok true)%js.

Definition array_items (v : value) : list value :=
  match v with
  | VArray items => items
  | _ => []
  end.

Definition validateStorageData (data : value) : result bool :=
  if negb (truthy data) || negb (typeof_object data) then Ok false
  else if negb (isArray (get data "tasks"))
          || negb (isArray (get data "developers")) then Ok false
  else
    (tasks_ok <- every valid_task (array_items (get data "tasks")) ;;
     if negb tasks_ok then Ok false
     else every valid_developer (array_items (get data "developers")))%js.

(** [dataObj.version = STORAGE_VERSION] on a property list. *)
Fixpoint assign {A} (props : list (string * A)) (key : string) (v : A)
  : list (string * A) :=
  match props with
  | [] => [(key, v)]
  | (k, x) :: r => if String.eqb k key then (k, v) :: r
                   else (k, x) :: assign r key v
  end.

(** [migrateData]: legacy data gets a version.  The module is strict
    code, so the assignment throws on a primitive; an array takes the
    property as an expando nothing reads, which is not represented. *)
Definition migrateData (data : value) : result value :=
  (version <- member data "version" ;;
   if negb (truthy version) then
     match data with
     | VObject props =>
         Ok (VObject (assign props "version" (VString STORAGE_VERSION)))
     | VBoolean _ | VNumber _ | VString _ => Throw "TypeError"
     | _ => Ok data
     end
   else Ok data)%js.

Definition recoverable_task (task : value) : bool :=
  truthy task
  && typeof_string (get task "id")
  && typeof_string (get task "name")
  && typeof_number (get task "points")
  && includes_status (get task "status").

Definition recoverable_developer (dev : value) : bool :=
  truthy dev
  && typeof_string (get dev "id")
  && typeof_string (get dev "name")
  && typeof_number (get dev "totalPoints").

(** [recoverPartialData], [None] standing for [null].  Nothing in its
    [try] block can throw on data [migrateData] has returned. *)
Definition recoverPartialData (data : value) : option value :=
  let tasks :=
    if isArray (get data "tasks")
    then filter recoverable_task (array_items (get data "tasks"))
    else [] in
  let developers :=
    if isArray (get data "developers")
    then filter recoverable_developer (array_items (get data "developers"))
    else [] in
  if (0 <? List.length tasks)%nat || (0 <? List.length developers)%nat
  then Some (VObject [("tasks", VArray tasks);
                      ("developers", VArray developers)])
  else None.

(** [backupCorruptedData]; [stamp] is the time of the call as the
    function formats it. *)
Definition backupCorruptedData (stamp : string) (corruptedData : text)
  : Eff unit :=
  tryE (setItem (STORAGE_KEY ++ "-corrupted-" ++ stamp)%string corruptedData)
       (fun _ => ret tt).

Section Platform.

Variable Date_of_string : string -> Date.

Definition loadData (stamp : string) : Eff value :=
  tryE
    (stored <- getItem STORAGE_KEY ;;
     match stored with
     | None => ret DEFAULT_STATE
     | Some stored =>
         if empty_text stored then ret DEFAULT_STATE
         else
           parsed <- lift (JSON_parse stored) ;;
           migratedData <- lift (migrateData parsed) ;;
           valid <- lift (validateStorageData migratedData) ;;
           if negb valid then
             match recoverPartialData migratedData with
             | Some recoveredData => ret recoveredData
             | None =>
                 backupCorruptedData stamp stored ;;;
                 ret DEFAULT_STATE
             end
           else
             let deserializedData :=
               deserializeDates Date_of_string migratedData in
             ret (VObject
                    [ ("tasks",
                       or_empty_array (get deserializedData "tasks"));
                      ("developers",
                       or_empty_array (get deserializedData "developers")) ])
     end)%eff
    (fun _ =>
       (tryE
          (stored <- getItem STORAGE_KEY ;;
           match stored with
           | Some stored =>
               if empty_text stored then ret tt
               else backupCorruptedData stamp stored
           | None => ret tt
           end)
          (fun _ => ret tt) ;;;
        ret DEFAULT_STATE)%eff).

End Platform.

Fixpoint unstore (es : list (string * text)) (key : string)
  : list (string * text) :=
  match es with
  | [] => []
  | (k, x) :: r => if String.eqb k key then unstore r key
                   else (k, x) :: unstore r key
  end.

(** [localStorage.removeItem(key)] *)
Definition removeItem (key : string) : Eff unit :=
  fun ls =>
    if denied ls then (Throw "SecurityError", ls)
    else (Ok tt, mkLocalStorage (unstore (entries ls) key)
                                (denied ls) (quota_exceeded ls)).

Definition BACKUP_LAST : string := (STORAGE_KEY ++ "-backup-last")%string.

Section Writing.

Variable toISOString : Z -> string.
Variable Date_of_string : string -> Date.

(** Whether a stored text is, character by character, the text [null].
    The document a text denotes does not tell (white space around it is
    not part of the document), so the test is left to the platform. *)
Variable spelled_null : text -> bool.

(** [currentData && currentData !== 'null'] *)
Definition worth_a_backup (currentData : text) : bool :=
  negb (empty_text currentData)
  && negb (match currentData with
           | Document JNull => spelled_null currentData
           | Document _ => false
           | Malformed raw => String.eqb raw "null"
           end).

(** The object [saveData] and [exportData] write. *)
Definition storageData (tasks developers : value) : list (string * value) :=
  [ ("tasks", tasks); ("developers", developers);
    ("version", VString STORAGE_VERSION) ].

(** [saveData(state)].  The size of the text is only compared with a
    limit to print a warning. *)
Definition saveData (state : value) : Eff bool :=
  tryE
    ((if negb (truthy state)
         || negb (isArray (get state "tasks"))
         || negb (isArray (get state "developers"))
      then lift (Throw "Invalid state structure") else ret tt) ;;;
     valid <- lift (validateStorageData
                      (VObject (storageData (get state "tasks")
                                            (get state "developers")))) ;;
     (if negb valid then lift (Throw "Data validation failed before save")
      else ret tt) ;;;
     let serialized :=
       JSON_stringify toISOString
         (storageData (get state "tasks") (get state "developers")) in
     currentData <- getItem STORAGE_KEY ;;
     match currentData with
     | Some currentData =>
         if worth_a_backup currentData
         then tryE (setItem BACKUP_LAST currentData) (fun _ => ret tt)
         else ret tt
     | None => ret tt
     end ;;;
     setItem STORAGE_KEY serialized ;;;
     (* the console.log reads both lengths *)
     lift (member (get state "tasks") "length") ;;;
     lift (member (get state "developers") "length") ;;;
     ret true)%eff
    (fun _ =>
       (tryE
          (backupData <- getItem BACKUP_LAST ;;
           match backupData with
           | Some backupData =>
               if empty_text backupData then ret tt
               else setItem STORAGE_KEY backupData
           | None => ret tt
           end)
          (fun _ => ret tt) ;;;
        ret false)%eff).

(** [clearData()] *)
Definition clearData : Eff bool :=
  tryE (removeItem STORAGE_KEY ;;; ret true)%eff (fun _ => ret false).

(** [exportData(state)] *)
Definition exportData (state : AppState) : result text :=
  try_catch
    (Ok (JSON_stringify toISOString
           (storageData (get (value_of_state state) "tasks")
                        (get (value_of_state state) "developers"))))
    (fun _ => Throw "Failed to export data").

(** [importData(jsonString)] *)
Definition importData (jsonString : text) : result value :=
  try_catch
    (parsed <- JSON_parse jsonString ;;
     valid <- validateStorageData parsed ;;
     if negb valid then Throw "Invalid data format"
     else
       let deserializedData := deserializeDates Date_of_string parsed in
       Ok (VObject
             [ ("tasks", or_empty_array (get deserializedData "tasks"));
               ("developers",
                or_empty_array (get deserializedData "developers")) ]))%js
    (fun _ => Throw "Failed to import data: Invalid JSON format").

(** [isStorageAvailable()]; the text it writes is no JSON document. *)
Definition STORAGE_TEST : string := "__storage_test__".

Definition isStorageAvailable : Eff bool :=
  tryE (setItem STORAGE_TEST (Malformed STORAGE_TEST) ;;;
        removeItem STORAGE_TEST ;;;
        ret true)%eff
       (fun _ => ret false).


End Writing.

End Storage.

(* ================================================================== *)
(** * [hooks/useTaskStorage.ts]: loading *)
(* ================================================================== *)

Module Loader.

(** The cells [loadDataWithRetry] writes; the state is whatever
    [loadData] has returned. *)
Record t : Type := mk {
  state : value;
  error : option string;
  isLoading : bool
}.

Definition maxRetries : Z := 3.

Definition is_null (e : option string) : bool :=
  match e with None => true | Some _ => false end.

Section Platform.

Variable Date_of_string : string -> Date.

(** The [try] block, for the outcome of the request [loadData] makes:
    what it has written stays written when it throws. *)
Definition attempt (outcome : ApiStorage.fetch_outcome) (h : t)
  : result unit * t :=
  if negb ApiStorage.isStorageAvailable
  then (Throw "API storage is not available", h)
  else
    match ApiStorage.loadData Date_of_string outcome with
    | Throw e => (Throw e, h)
    | Ok loadedData =>
        let h := mk loadedData None (isLoading h) in
        ((* the console.log reads both lengths *)
         (tasks <- member loadedData "tasks" ;;
          member tasks "length" ;;;
          developers <- member loadedData "developers" ;;
          member developers "length" ;;;
          Ok tt)%js, h)
    end.

(** [loadDataWithRetry(retryCount)]; [captured] is the [error] the
    callback has closed over.  Besides the cells it returns the retry
    it has scheduled, if any: its [retryCount] and its delay. *)
Definition loadDataWithRetry (captured : option string) (retryCount : Z)
           (outcome : ApiStorage.fetch_outcome) (h : t)
  : t * option (Z * Z) :=
  let '(r, h) := attempt outcome h in
  let '(h, scheduled) :=
    match r with
    | Ok _ => (h, None)
    | Throw e =>
        if (retryCount <? maxRetries)%Z
        then (h, Some (retryCount + 1, 1000 * (retryCount + 1))%Z)
        else (mk empty_state (Some ("Failed to load data: " ++ e)%string)
                 (isLoading h), None)
    end in
  (if (maxRetries <=? retryCount)%Z || is_null captured
   then mk (state h) (error h) false else h,
   scheduled).

End Platform.

End Loader.

(* ================================================================== *)
(** * [hooks/useTaskStorage.ts]: the save paths *)
(* ================================================================== *)

Module Hook.

(** What the hook holds: the [useState] cells and [retryCountRef].  The
    state is the object the hook was last given: by a mutation, or by
    [loadData]. *)
Record t : Type := mk {
  state : value;
  isLoading : bool;
  error : option string;
  isSaving : bool;
  lastSaved : option Date;
  retryCount : nat
}.

Definition maxRetries : nat := 3.

Definition setIsSaving (b : bool) (h : t) : t :=
  mk (state h) (isLoading h) (error h) b (lastSaved h) (retryCount h).

Definition setError (e : option string) (h : t) : t :=
  mk (state h) (isLoading h) e (isSaving h) (lastSaved h) (retryCount h).

Definition setLastSaved (d : Date) (h : t) : t :=
  mk (state h) (isLoading h) (error h) (isSaving h) (Some d) (retryCount h).

Definition setRetryCount (n : nat) (h : t) : t :=
  mk (state h) (isLoading h) (error h) (isSaving h) (lastSaved h) n.

(** How [await saveData(data)] ends: the promise resolves to a boolean,
    or it rejects. *)
Inductive save_outcome : Type :=
| Resolved (success : bool)
| Rejected.

Definition failed_after_retries : string :=
  "Failed to save data after multiple attempts. Your changes may be lost.".

(** The cells [loadDataWithRetry] reads and writes. *)
Definition cells (h : t) : Loader.t :=
  Loader.mk (state h) (error h) (isLoading h).

Definition put_cells (c : Loader.t) (h : t) : t :=
  mk (Loader.state c) (Loader.isLoading c) (Loader.error c)
     (isSaving h) (lastSaved h) (retryCount h).

(** [Object.is] on two values of the [error] cell. *)
Definition same_error (a b : option string) : bool :=
  match a, b with
  | None, None => true
  | Some x, Some y => String.eqb x y
  | _, _ => false
  end.

Section Platform.

Variable Date_of_string : string -> Date.

(** The renders that follow an update.  [loadDataWithRetry] is made by
    [useCallback(.., [error])] and the mount effect is
    [useEffect(() => { loadDataWithRetry(); }, [loadDataWithRetry])]:
    a render in which [error] is not the [error] of the render before
    makes a new callback, and the effect calls it, with the new [error]
    closed over and [retryCount] 0.  The load writes the cells, which
    is rendered in turn.  [rendered previous loads h] renders [h] after
    a render with error [previous]; [loads] are the outcomes of the
    requests the loads make, in order.  It returns the hook once
    nothing is left to run (or no request has come back yet), and the
    retries the loads have scheduled. *)
Fixpoint rendered (previous : option string)
         (loads : list ApiStorage.fetch_outcome) (h : t) {struct loads}
  : t * list (Z * Z) :=
  match loads with
  | [] => (h, [])
  | outcome :: later =>
      if same_error (error h) previous then (h, [])
      else
        let '(c, scheduled) :=
          Loader.loadDataWithRetry Date_of_string (error h) 0 outcome
                                   (cells h) in
        let '(h', retries) := rendered (error h) later (put_cells c h) in
        (h', match scheduled with
             | Some retry => retry :: retries
             | None => retries
             end)
  end.

(** The updates of [saveFunction(data)] before [await saveData(data)]. *)
Definition saveFunction_begins (h : t) : t :=
  setError None (setIsSaving true h).

(** The updates of [saveFunction(data)] after [await saveData(data)],
    up to the end of its [finally] block, for a given outcome of
    [saveData(data)] at time [now].  Besides the hook it returns the
    delay of the retry it has scheduled, if any. *)
Definition saveFunction_ends (outcome : save_outcome) (now : Date) (h : t)
  : t * option nat :=
  let '(h, scheduled) :=
    match outcome with
    | Resolved true => (setRetryCount 0 (setLastSaved now h), None)
    | _ =>
        let h := setRetryCount (S (retryCount h)) h in
        if (retryCount h <=? maxRetries)%nat
        then (h, Some (1000 * retryCount h)%nat)
        else (setError (Some failed_after_retries) h, None)
    end in
  (setIsSaving false h, scheduled).

(** [saveFunction(data)] with the renders it causes: one while the
    request of [saveData] is under way, one when the function is done.
    The loads the first render starts are taken to end before the
    request does ([loads_during]); [loads_after] are those of the
    second.  The result is the hook, the delay of the retry of the save
    and the retries of the loads. *)
Definition saveFunction (data : value) (outcome : save_outcome) (now : Date)
           (loads_during loads_after : list ApiStorage.fetch_outcome)
           (h : t) : t * option nat * list (Z * Z) :=
  let '(h1, retries1) :=
    rendered (error h) loads_during (saveFunction_begins h) in
  let '(h2, scheduled) := saveFunction_ends outcome now h1 in
  let '(h3, retries2) := rendered (error h1) loads_after h2 in
  (h3, scheduled, retries1 ++ retries2).

(** The updates of the callback [saveFunction] hands to [setTimeout]:
    one more [saveData(data)], with its own outcome. *)
Definition retrySave_updates (outcome : save_outcome) (now : Date) (h : t)
  : t :=
  match outcome with
  | Resolved true => setRetryCount 0 (setLastSaved now h)
  | _ =>
      if (maxRetries <=? retryCount h)%nat
      then setError (Some failed_after_retries) h
      else h
  end.

(** The callback with the renders it causes. *)
Definition retrySave (data : value) (outcome : save_outcome) (now : Date)
           (loads : list ApiStorage.fetch_outcome) (h : t)
  : t * list (Z * Z) :=
  rendered (error h) loads (retrySave_updates outcome now h).

(** [debounce(saveFunction, 500)]: the pending call, if any.  A call
    replaces the pending one; when the timer fires the pending call
    runs. *)
Definition Timer : Type := option value.

Definition debouncedSave (data : value) (timer : Timer) : Timer :=
  Some data.

(** The auto-save effect: [if (!isLoading) debouncedSave(state)]. *)
Definition autoSave (h : t) (timer : Timer) : Timer :=
  if negb (isLoading h) then debouncedSave (state h) timer else timer.

Definition timerFires (timer : Timer) (outcome : save_outcome) (now : Date)
           (loads_during loads_after : list ApiStorage.fetch_outcome)
           (h : t) : t * option nat * list (Z * Z) :=
  match timer with
  | Some data => saveFunction data outcome now loads_during loads_after h
  | None => (h, None, [])
  end.

(** The updates of [forceSave()], for a given outcome of
    [saveData(state)]: the hook afterwards and the boolean the caller
    gets. *)
Definition forceSave_updates (outcome : save_outcome) (now : Date) (h : t)
  : t * bool :=
  let h := setIsSaving true h in
  let '(h, returned) :=
    match outcome with
    | Resolved true => (setLastSaved now h, true)
    | _ => (setError (Some "Failed to save data manually") h, false)
    end in
  (setIsSaving false h, returned).

(** [forceSave()] with the renders it causes. *)
Definition forceSave (outcome : save_outcome) (now : Date)
           (loads : list ApiStorage.fetch_outcome) (h : t)
  : t * bool * list (Z * Z) :=
  let '(h', returned) := forceSave_updates outcome now h in
  let '(h'', retries) := rendered (error h) loads h' in
  (h'', returned, retries).

End Platform.

End Hook.

(* ================================================================== *)
(** * [hooks/useTaskStorage.ts]: the queries *)
(* ================================================================== *)

(** [state.developers.find(dev => dev.id === developerId)], [None]
    standing for [undefined]. *)
Definition getDeveloperById (developerId : string) (state : AppState)
  : option Developer.t :=
  find (fun dev => String.eqb (Developer.id dev) developerId)
       (developers state).

(** [dev.id !== excludeId]; without an [excludeId] every id differs from
    [undefined]. *)
Definition id_is_not (dev : Developer.t) (excludeId : option string) : bool :=
  match excludeId with
  | Some e => negb (String.eqb (Developer.id dev) e)
  | None => true
  end.

Definition isDeveloperNameAvailable {casing : Js.CaseMapping} (name : string)
           (excludeId : option string) (state : AppState) : bool :=
  negb (existsb (fun dev =>
                   String.eqb (Js.toLowerCase (Developer.name dev))
                              (Js.toLowerCase name)
                   && id_is_not dev excludeId)
                (developers state)).

Definition getTasksByStatus (status : TaskStatus) (state : AppState)
  : list Task.t :=
  filter (fun task => TaskStatus_eqb (Task.status task) status) (tasks state).

Definition getTasksByDeveloper (developerId : string) (state : AppState)
  : list Task.t :=
  filter (fun task => assignedTo_is task developerId) (tasks state).

(* ================================================================== *)
(** * [utils.ts]: the task form and [debounce] *)
(* ================================================================== *)

Module TaskFormData.
Record t : Type := mk {
  name : string;
  description : string;
  points : Js.number
}.
End TaskFormData.

(** [Number.isInteger(x)] on a rational: the denominator divides the
    numerator. *)
Definition isInteger (x : Js.number) : bool :=
  (Qnum x mod Z.pos (Qden x) =? 0)%Z.

Definition validateTaskForm (data : TaskFormData.t) : FormValidationResult :=
  let errors : list ValidationError := [] in
  let errors :=
    if negb (Js.truthy_string (Js.trim (TaskFormData.name data)))
    then push errors (mkValidationError "name" "Task name is required")
    else errors in
  let errors :=
    if negb (Js.truthy_string (Js.trim (TaskFormData.description data)))
    then push errors (mkValidationError "description"
                        "Task description is required")
    else errors in
  let errors :=
    if Js.number_le_0 (TaskFormData.points data)
    then push errors (mkValidationError "points"
                        "Points must be greater than 0")
    else errors in
  let errors :=
    if negb (isInteger (TaskFormData.points data))
    then push errors (mkValidationError "points"
                        "Points must be a whole number")
    else errors in
  mkFormValidationResult (Nat.eqb (List.length errors) 0) errors.

(** [debounce(func, delay)].  The closure holds one timeout id; a call
    clears the timeout that is armed and arms a new one holding the
    arguments of the call, and when the armed timeout fires [func] runs
    on the arguments it holds.  The state is the armed timeout, if any;
    a step returns the runs of [func] it causes. *)
Module Debounce.

Inductive event (A : Type) : Type :=
| Call (args : A)
| TimeoutFires.
Arguments Call {A} args.
Arguments TimeoutFires {A}.

Definition step {A} (armed : option A) (e : event A) : option A * list A :=
  match e with
  | Call args => (Some args, [])
  | TimeoutFires =>
      match armed with
      | Some args => (None, [args])
      | None => (None, [])
      end
  end.

(** A sequence of calls and firings, from a given armed timeout: the
    timeout armed at the end, and the runs of [func] in order. *)
Fixpoint run {A} (armed : option A) (es : list (event A))
  : option A * list A :=
  match es with
  | [] => (armed, [])
  | e :: rest =>
      let '(armed', now) := step armed e in
      let '(final, later) := run armed' rest in
      (final, now ++ later)
  end.

(** The arguments of the calls of a sequence, in order. *)
Fixpoint calls {A} (es : list (event A)) : list A :=
  match es with
  | [] => []
  | Call args :: rest => args :: calls rest
  | TimeoutFires :: rest => calls rest
  end.

End Debounce.

(** [array.sort(compare)] for a comparison that is a total preorder,
    given by [before a b], the test [compare(a, b) <= 0].  The sort of
    the platform is stable, which fixes its result; it is embedded as
    the insertion sort that gives that result. *)
Fixpoint sort_insert {A} (before : A -> A -> bool) (x : A) (sorted : list A)
  : list A :=
  match sorted with
  | [] => [x]
  | y :: rest => if before x y then x :: y :: rest
                 else y :: sort_insert before x rest
  end.

Definition sort {A} (before : A -> A -> bool) (l : list A) : list A :=
  fold_right (sort_insert before) [] l.

(* ================================================================== *)
(** * The components: the board, its columns and cards *)
(* ================================================================== *)

(** [a || b] on a string that may be absent. *)
Definition string_or (a : option string) (b : string) : string :=
  match a with
  | Some s => if Js.truthy_string s then s else b
  | None => b
  end.

Module Board.

Record DragData : Type := mkDragData {
  taskId : string;
  sourceColumn : string
}.

(** [TaskCard]: the drag data [handleDragStart] writes for its task. *)
Definition dragData (task : Task.t) : DragData :=
  mkDragData (Task.id task) (string_or (Task.assignedTo task) "backlog").

(** [TaskCard]: [draggable={task.status !== 'completed'}]. *)
Definition draggable (task : Task.t) : bool :=
  negb (TaskStatus_eqb (Task.status task) completed).

(** The props of a [TaskColumn] its drop handling reads. *)
Record Column : Type := mkColumn {
  column_tasks : list Task.t;
  developer : option Developer.t;
  isBacklog : bool
}.

(** [isBacklog ? 'backlog' : developer?.id || ''] *)
Definition targetColumn (col : Column) : string :=
  if isBacklog col then "backlog"
  else string_or (option_map Developer.id (developer col)) "".

Record Validation : Type := mkValidation {
  isValid : bool;
  message : option string
}.

(** [dragData.sourceColumn !== developer?.id] *)
Definition is_not_id_of (source : string) (developer : option Developer.t)
  : bool :=
  match developer with
  | Some d => negb (String.eqb source (Developer.id d))
  | None => true
  end.

(** [TaskColumn.validateDrop(dragData)] *)
Definition validateDrop (col : Column) (dragData : DragData) : Validation :=
  let target := targetColumn col in
  if String.eqb (sourceColumn dragData) target
  then mkValidation false (Some "Cannot drop task in the same column")
  else
    let task :=
      find (fun t => String.eqb (Task.id t) (taskId dragData))
           (column_tasks col) in
    if match task with
       | Some task => TaskStatus_eqb (Task.status task) completed
       | None => false
       end
    then mkValidation false (Some "Cannot move completed tasks")
    else if negb (isBacklog col)
            && negb (String.eqb (sourceColumn dragData) "backlog")
            && is_not_id_of (sourceColumn dragData) (developer col)
    then mkValidation true None
    else mkValidation true None.

(** [TaskColumn.handleDrop(e)], for drag data that a card has written:
    the arguments [onTaskDrop] is called with, if it is called. *)
Definition handleDrop (col : Column) (dragData : DragData)
  : option (string * string) :=
  let validation := validateDrop col dragData in
  if negb (isValid validation) then None
  else
    let target := targetColumn col in
    if String.eqb (sourceColumn dragData) target then None
    else Some (taskId dragData, target).

(** The columns [KanbanBoard] renders for a state. *)
Definition backlog_column (s : AppState) : Column :=
  mkColumn (getTasksByStatus backlog s) None true.

Definition developer_column (d : Developer.t) (s : AppState) : Column :=
  mkColumn (getTasksByDeveloper (Developer.id d) s) (Some d) false.

Definition demo_developers : list Developer.t :=
  [ Developer.mk "dev-1" "Ondra" 0%Q 0%Q 0%Q;
    Developer.mk "dev-2" "Matija" 0%Q 0%Q 0%Q;
    Developer.mk "dev-3" "Caden" 0%Q 0%Q 0%Q;
    Developer.mk "dev-4" "Oleh" 0%Q 0%Q 0%Q ].

Definition allDevelopers (s : AppState) : list Developer.t :=
  if (0 <? List.length (developers s))%nat then developers s
  else demo_developers.

Definition columns (s : AppState) : list Column :=
  backlog_column s :: map (fun d => developer_column d s) (allDevelopers s).

Section Handlers.

Context {casing : Js.CaseMapping}.

(** [KanbanBoard.handleCreateTask(taskData)]; [id] is what [generateId]
    returns and [now] the time of the call.  The notifications the
    handlers show are left out. *)
Definition handleCreateTask (taskData : TaskFormData.t) (id : string)
           (now : Date) (s : AppState) : AppState :=
  addTask (Task.mk id (TaskFormData.name taskData)
                   (TaskFormData.description taskData)
                   (TaskFormData.points taskData)
                   backlog None now None None) s.

Definition to_backlog_patch : PartialTask.t :=
  PartialTask.mk None None None None (Some backlog) (Some None)
                 None None None.

Definition assign_patch (targetColumn : string) : PartialTask.t :=
  PartialTask.mk None None None None (Some assigned)
                 (Some (Some targetColumn)) None None None.

(** [KanbanBoard.handleTaskDrop(taskId, targetColumn)] *)
Definition handleTaskDrop (taskId targetColumn : string) (s : AppState)
  : AppState :=
  match find (fun t => String.eqb (Task.id t) taskId) (tasks s) with
  | None => s
  | Some _ =>
      if String.eqb targetColumn "backlog"
      then updateTask taskId to_backlog_patch s
      else updateTask taskId (assign_patch targetColumn) s
  end.

Definition completion_patch (completionData : CompletionFormData.t)
           (now : Date) : PartialTask.t :=
  PartialTask.mk None None None None (Some completed) None None
                 (Some (Some now))
                 (Some (Some (TaskCompletionDetails.mk
                                (CompletionFormData.hoursSpent completionData)
                                (CompletionFormData.gitCommit completionData)
                                (CompletionFormData.comments completionData)))).

(** [KanbanBoard.handleTaskCompletionSubmit(taskId, completionData)] *)
Definition handleTaskCompletionSubmit (taskId : string)
           (completionData : CompletionFormData.t) (now : Date)
           (s : AppState) : AppState :=
  match find (fun t => String.eqb (Task.id t) taskId) (tasks s) with
  | None => s
  | Some task =>
      if negb (assignedTo_truthy task) then s
      else updateTask taskId (completion_patch completionData now) s
  end.

End Handlers.

End Board.

(* ================================================================== *)
(** * The components: the developer dialog *)
(* ================================================================== *)

Module DeveloperModal.

Section Dialog.

Context {casing : Js.CaseMapping}.

(** [validateForm(data)], for the developers and the developer being
    edited that the dialog holds. *)
Definition validateForm (developers : list Developer.t)
           (editingDeveloper : option Developer.t) (name : string)
  : list ValidationError :=
  let validationErrors : list ValidationError := [] in
  let validationErrors :=
    if negb (Js.truthy_string (Js.trim name))
    then push validationErrors
              (mkValidationError "name" "Developer name is required")
    else if (Js.length (Js.trim name) <? 2)%nat
    then push validationErrors
              (mkValidationError "name"
                 "Developer name must be at least 2 characters")
    else if (50 <? Js.length (Js.trim name))%nat
    then push validationErrors
              (mkValidationError "name"
                 "Developer name must be less than 50 characters")
    else validationErrors in
  let existingDeveloper :=
    find (fun dev =>
            String.eqb (Js.toLowerCase (Developer.name dev))
                       (Js.toLowerCase (Js.trim name))
            && id_is_not dev (option_map Developer.id editingDeveloper))
         developers in
  match existingDeveloper with
  | Some _ =>
      push validationErrors
           (mkValidationError "name"
              "A developer with this name already exists")
  | None => validationErrors
  end.

(** [handleSubmit]: the state after the dialog has called
    [onUpdateDeveloper] or [onAddDeveloper], or the state as it was
    when the form is refused.  [id] is what [generateId] returns. *)
Definition handleSubmit (editingDeveloper : option Developer.t)
           (name : string) (id : string) (s : AppState) : AppState :=
  let validationErrors :=
    validateForm (developers s) editingDeveloper name in
  if (0 <? List.length validationErrors)%nat then s
  else
    match editingDeveloper with
    | Some editing =>
        updateDeveloper
          (Developer.mk (Developer.id editing) (Js.trim name)
                        (Developer.totalPoints editing)
                        (Developer.completedTasks editing)
                        (Developer.totalHours editing)) s
    | None =>
        addDeveloper (Developer.mk id (Js.trim name) 0%Q 0%Q 0%Q) s
    end.

End Dialog.

End DeveloperModal.

(* ================================================================== *)
(** * The components: the leaderboard *)
(* ================================================================== *)

Module Leaderboard.

(** The comparison handed to [sort]. *)
Definition compare (a b : Developer.t) : Js.number :=
  (Developer.totalPoints b - Developer.totalPoints a)%Q.

(** [[...developers].sort((a, b) => b.totalPoints - a.totalPoints)] *)
Definition sortedDevelopers (developers : list Developer.t)
  : list Developer.t :=
  sort (fun a b => Js.number_le_0 (compare a b)) developers.

(** [index === 0 && developer.totalPoints > 0] *)
Definition isTopPerformer (index : nat) (developer : Developer.t) : bool :=
  Nat.eqb index 0 && negb (Js.number_le_0 (Developer.totalPoints developer)).

(** The rows: position, developer, and whether the row is highlighted. *)
Definition rows (developers : list Developer.t)
  : list (nat * Developer.t * bool) :=
  map (fun '(index, developer) =>
         (index + 1, developer, isTopPerformer index developer))
      (combine (seq 0 (List.length (sortedDevelopers developers)))
               (sortedDevelopers developers)).

End Leaderboard.
(* ================================================================== *)
(** * The vocabulary of the specification *)
(* ================================================================== *)

Section Vocabulary.

Context {casing : Js.CaseMapping}.

(** A task credited to developer [d]: assigned to [d] and completed. *)
Definition credited (d : string) (t : Task.t) : bool :=
  match Task.assignedTo t with
  | Some a => String.eqb a d && TaskStatus_eqb (Task.status t) completed
  | None => false
  end.

(** The hours recorded on a task ([completionDetails.hoursSpent]). *)
Definition recorded_hours (t : Task.t) : Q :=
  match Task.completionDetails t with
  | Some d => TaskCompletionDetails.hoursSpent d
  | None => 0%Q
  end.

(** The tasks credited to [d], in the order of the task list. *)
Definition credited_tasks (d : string) (ts : list Task.t) : list Task.t :=
  filter (credited d) ts.

(** The sum of a list of numbers as the platform takes it: from the
    left, starting from 0, each partial sum rounded to the nearest
    double. *)
Definition double_sum (xs : list Q) : Q := fold_left Js.double_add xs 0%Q.

(** The aggregates of record [D] are the ones derived from the tasks. *)
Definition derived_aggregates (ts : list Task.t) (D : Developer.t) : Prop :=
  (Developer.totalPoints D
   == double_sum (map Task.points (credited_tasks (Developer.id D) ts)))%Q
  /\ (Developer.completedTasks D
      == inject_Z (Z.of_nat
                     (List.length (credited_tasks (Developer.id D) ts))))%Q
  /\ (Developer.totalHours D
      == double_sum (map recorded_hours
                         (credited_tasks (Developer.id D) ts)))%Q.

(** Every developer record of the state carries the derived aggregates. *)
Definition aggregates_in_sync (s : AppState) : Prop :=
  forall D, In D (developers s) -> derived_aggregates (tasks s) D.

(** Some developer record has id [a]. *)
Definition known_developer (s : AppState) (a : string) : Prop :=
  exists dev, In dev (developers s) /\ Developer.id dev = a.

(** [t'] is [t] moved back to the backlog: the status and the assignment
    are reset, every other field is kept. *)
Definition reset_of (t t' : Task.t) : Prop :=
  Task.status t' = backlog
  /\ Task.assignedTo t' = None
  /\ Task.id t' = Task.id t
  /\ Task.name t' = Task.name t
  /\ Task.description t' = Task.description t
  /\ Task.points t' = Task.points t
  /\ Task.createdAt t' = Task.createdAt t
  /\ Task.completedAt t' = Task.completedAt t
  /\ Task.completionDetails t' = Task.completionDetails t.

(** The assignment of [t] dangles: it is present and names no developer
    record of the state. *)
Definition dangling (s : AppState) (t : Task.t) : Prop :=
  exists a, Task.assignedTo t = Some a /\ ~ known_developer s a.

(** The same, for an assignment that is also a non-empty string. *)
Definition dangling_nonempty (s : AppState) (t : Task.t) : Prop :=
  exists a, Task.assignedTo t = Some a /\ a <> "" /\ ~ known_developer s a.

(** Ids are pairwise distinct. *)
Definition distinct_task_ids (s : AppState) : Prop :=
  NoDup (map Task.id (tasks s)).

Definition distinct_developer_ids (s : AppState) : Prop :=
  NoDup (map Developer.id (developers s)).

(** A mutation that keeps to the discipline of the callers: a task is
    added under an id no task has yet, and a patch carries no [id]. *)
Definition keeps_task_ids (s : AppState) (m : Mutation) : Prop :=
  match m with
  | AddTask task => ~ In (Task.id task) (map Task.id (tasks s))
  | UpdateTask _ updates => PartialTask.id updates = None
  | _ => True
  end.

Inductive reachable_keeping_ids : AppState -> Prop :=
| keeping_initial : reachable_keeping_ids initialState
| keeping_step m s :
    reachable_keeping_ids s -> keeps_task_ids s m ->
    reachable_keeping_ids (apply_mutation m s).


(** The reading of the sweep under which every dangling assignment is
    reset, an empty string included. *)
Definition sweep_resets_every_dangling (s : AppState) : Prop :=
  forall i t, nth_error (tasks s) i = Some t -> dangling s t ->
    exists t', nth_error (tasks (validateAndCleanup s)) i = Some t'
               /\ reset_of t t'.

(** Every assignment of a task of [s] that is a non-empty string names a
    developer record of [s]. *)
Definition no_dangling_assignment (s : AppState) : Prop :=
  forall t a, In t (tasks s) -> Task.assignedTo t = Some a -> a <> "" ->
              known_developer s a.

(** The property of the platform's [toLowerCase] the search for a free
    name rests on: the lower-case forms of two numbered names with the
    same base differ when the counters do.  (The mapping of ECMAScript
    works code point by code point and leaves a space and the decimal
    digits as they are; what stands behind a space does not enter the
    mapping of what stands before it.) *)
Definition lower_case_keeps_counters : Prop :=
  forall (baseName2 : string) (m n : nat),
    Js.toLowerCase (numbered baseName2 m)
    = Js.toLowerCase (numbered baseName2 n) ->
    m = n.

(** [addTask t] on [s] appends [t] and provisions exactly one developer
    record, for [u]: the records that were there stay, with their ids
    and names, in their order, and with the aggregates derived from the
    new task list, and one record is added behind them, with id [u],
    zero aggregates and a name that differs, case-insensitively, from
    the name of every record of [s]. *)
Definition provisions_exactly_one (s : AppState) (u : string) (t : Task.t)
  : Prop :=
  tasks (addTask t s) = tasks s ++ [t]
  /\ exists kept nd,
       developers (addTask t s) = kept ++ [nd]
       /\ map Developer.id kept = map Developer.id (developers s)
       /\ map Developer.name kept = map Developer.name (developers s)
       /\ Forall (derived_aggregates (tasks s ++ [t])) kept
       /\ Developer.id nd = u
       /\ (Developer.totalPoints nd == 0)%Q
       /\ (Developer.completedTasks nd == 0)%Q
       /\ (Developer.totalHours nd == 0)%Q
       /\ forall dev, In dev (developers s) ->
            Js.toLowerCase (Developer.name dev)
            <> Js.toLowerCase (Developer.name nd).

(** The time values a [Date] can hold: at most 8.64e15 milliseconds on
    either side of the epoch. *)
Definition time_value (ms : Z) : Prop :=
  (- 8640000000000000 <= ms <= 8640000000000000)%Z.

Definition well_formed_date (d : Date) : Prop :=
  exists ms, d = ValidDate ms /\ time_value ms.

(** A well-formed task record: its dates are valid dates. *)
Definition well_formed_task (t : Task.t) : Prop :=
  well_formed_date (Task.createdAt t)
  /\ forall d, Task.completedAt t = Some d -> well_formed_date d.

(** A valid state: arrays of well-formed records. *)
Definition valid_state (s : AppState) : Prop :=
  Forall well_formed_task (tasks s).

End Vocabulary.

Section FurtherVocabulary.

Context {casing : Js.CaseMapping}.

(** The names of the developer records differ pairwise, whatever the
    case of their letters. *)
Definition names_distinct (devs : list Developer.t) : Prop :=
  NoDup (map (fun dev => Js.toLowerCase (Developer.name dev)) devs).

(** The mutations that go through [updateDeveloperStats]. *)
Definition task_mutation (m : Mutation) : Prop :=
  match m with
  | AddTask _ | UpdateTask _ _ | DeleteTask _ => True
  | _ => False
  end.

(** [l1] is [l2] with some elements left out, the order kept. *)
Inductive subsequence {A : Type} : list A -> list A -> Prop :=
| subsequence_nil : subsequence [] []
| subsequence_skip x l1 l2 : subsequence l1 l2 -> subsequence l1 (x :: l2)
| subsequence_take x l1 l2 :
    subsequence l1 l2 -> subsequence (x :: l1) (x :: l2).

(** A value with an array under [tasks] and an array under
    [developers]. *)
Definition has_both_arrays (v : value) : bool :=
  isArray (get v "tasks") && isArray (get v "developers").

(** The document of the empty state. *)
Definition empty_document : json :=
  JObject [("tasks", JArray []); ("developers", JArray [])].

(** A record [storage.ts] accepts: its [id] and its [name] are not
    empty.  (The points of a typed record are a number and its status is
    one of the three in any case.) *)
Definition named_task (t : Task.t) : bool :=
  Js.truthy_string (Task.id t) && Js.truthy_string (Task.name t).

Definition named_developer (d : Developer.t) : bool :=
  Js.truthy_string (Developer.id d) && Js.truthy_string (Developer.name d).

Definition storable (s : AppState) : bool :=
  forallb named_task (tasks s) && forallb named_developer (developers s).

(** A storage that can be read and written. *)
Definition writable (ls : Storage.LocalStorage) : bool :=
  negb (Storage.denied ls) && negb (Storage.quota_exceeded ls).

(** What the board shows of a task is coherent: the task is in the
    backlog exactly when it has no assignee, and a completed task has an
    assignee, a completion time and completion details. *)
Definition coherent_task (t : Task.t) : Prop :=
  (Task.status t = backlog <-> Task.assignedTo t = None)
  /\ (Task.status t = completed ->
      assignedTo_truthy t = true
      /\ Task.completedAt t <> None
      /\ Task.completionDetails t <> None).

Definition coherent_board (s : AppState) : Prop :=
  forall t, In t (tasks s) -> coherent_task t.

(** What a user can do on the board, and the periodic sweep. *)
Inductive BoardAction : Type :=
| CreateTask (taskData : TaskFormData.t) (id : string) (now : Date)
| DropTask (taskId targetColumn : string)
| CompleteTask (taskId : string) (completionData : CompletionFormData.t)
               (now : Date)
| SubmitDeveloper (editing : option Developer.t) (name id : string)
| RemoveDeveloper (developerId : string)
| PeriodicSweep.

Definition board_step (a : BoardAction) (s : AppState) : AppState :=
  match a with
  | CreateTask taskData id now => Board.handleCreateTask taskData id now s
  | DropTask taskId targetColumn => Board.handleTaskDrop taskId targetColumn s
  | CompleteTask taskId completionData now =>
      Board.handleTaskCompletionSubmit taskId completionData now s
  | SubmitDeveloper editing name id =>
      DeveloperModal.handleSubmit editing name id s
  | RemoveDeveloper developerId => deleteDeveloper developerId s
  | PeriodicSweep => validateAndCleanup s
  end.

(** [a] ranks at least as high as [b] on the leaderboard. *)
Definition more_points (a b : Developer.t) : Prop :=
  (Developer.totalPoints b <= Developer.totalPoints a)%Q.

(** Every record of [devs] from position [n] on bears a name that
    differs, case ignored, from the names of all the records before
    it. *)
Definition fresh_names_from (n : nat) (devs : list Developer.t) : Prop :=
  forall i j D D',
    (n <= i)%nat -> (j < i)%nat ->
    nth_error devs i = Some D -> nth_error devs j = Some D' ->
    Js.toLowerCase (Developer.name D') <> Js.toLowerCase (Developer.name D).

(** A list of code units that is white space throughout. *)
Definition all_white_space (us : list string) : Prop :=
  Forall (fun u => Js.is_white_space u = true) us.

(** [m] is what is left of the code units [us] when the white space at
    the start and at the end is taken away: it neither starts nor ends
    with white space, and white space is all that stands before and
    behind it. *)
Definition stripped (us m : list string) : Prop :=
  exists before behind,
    us = before ++ m ++ behind
    /\ all_white_space before
    /\ all_white_space behind
    /\ (forall u, hd_error m = Some u -> Js.is_white_space u = false)
    /\ (forall u, hd_error (rev m) = Some u -> Js.is_white_space u = false).

(** NO-BREAK SPACE, a white space outside ASCII. *)
Definition no_break_space : string := Js.unit_bytes 160.

End FurtherVocabulary.

(* ================================================================== *)
(** * Concrete states *)
(* ================================================================== *)

(** A stand-in for the platform's case mappings, to run the reconciler
    on concrete states: the mappings of the ASCII letters, every other
    byte left as it is.  It has the property of the platform's mapping
    the search for a free name rests on ([lower_case_keeps_counters],
    shown for it below). *)
Definition ascii_lower_char (c : ascii) : ascii :=
  if Js.between 65 90 c then ascii_of_nat (Js.code c + 32) else c.

Definition ascii_upper_char (c : ascii) : ascii :=
  if Js.between 97 122 c then ascii_of_nat (Js.code c - 32) else c.

Fixpoint ascii_toLowerCase (s : string) : string :=
  match s with
  | EmptyString => EmptyString
  | String c r => String (ascii_lower_char c) (ascii_toLowerCase r)
  end.

Fixpoint ascii_toUpperCase (s : string) : string :=
  match s with
  | EmptyString => EmptyString
  | String c r => String (ascii_upper_char c) (ascii_toUpperCase r)
  end.

Definition ascii_case_mapping : Js.CaseMapping :=
  {| Js.toLowerCase := ascii_toLowerCase;
     Js.toUpperCase := ascii_toUpperCase |}.

Section ConcreteStates.

Local Existing Instance ascii_case_mapping.

(** A task whose [assignedTo] is the empty string, in a state with no
    developer. *)
Definition task_assigned_to_nobody : Task.t :=
  Task.mk "t-1" "Fix bug" "" 10%Q assigned (Some "") (ValidDate 0) None None.

(** The state of the repository's own deletion test: one completed and
    one assigned task of developer [dev-1]. *)
Definition done_task : Task.t :=
  Task.mk "completed-task" "Completed Task" "This task is completed" 25%Q
          completed (Some "dev-1") (ValidDate 0) (Some (ValidDate 1))
          (Some (TaskCompletionDetails.mk 8%Q "abc123" "Task completed")).

Definition open_task : Task.t :=
  Task.mk "assigned-task" "Assigned Task" "This task is still assigned" 15%Q
          assigned (Some "dev-1") (ValidDate 0) None None.

Definition state_with_history : AppState :=
  mkAppState [done_task; open_task]
             [Developer.mk "dev-1" "Developer dev" 25%Q 1%Q 8%Q].


(** The developer record of the repository's own update test: it is
    added by hand with aggregates no task accounts for. *)
Definition developer_with_supplied_stats : Developer.t :=
  Developer.mk "dev-update-1" "Original Name" 10%Q 1%Q 5%Q.

(** A backlog task, and the state reached by adding it twice. *)
Definition backlog_task : Task.t :=
  Task.mk "task-1" "Fix bug" "" 10%Q backlog None (ValidDate 0) None None.

Definition added_twice_under (casing : Js.CaseMapping) : AppState :=
  apply_mutation (AddTask backlog_task)
                 (apply_mutation (AddTask backlog_task) initialState).

(** What [deleteDeveloper "dev-1"] leaves of a state whose only task is
    the completed one: the task, still assigned to the deleted id. *)
Definition state_after_deletion : AppState := mkAppState [done_task] [].

Definition task_for_newcomer : Task.t :=
  Task.mk "task-2" "Write docs" "" 5%Q assigned (Some "unknown-id")
          (ValidDate 0) None None.

(** A stand-in for the platform's date texts, to run the gateway on
    concrete states: the time value in decimal behind a [T].  It keeps
    the two properties of the ISO format the code relies on: the text is
    never empty, and reading it gives the time value back. *)
Definition decimal_stamp (ms : Z) : string :=
  String "T" (NilEmpty.string_of_int (Z.to_int ms)).

Definition Date_of_decimal_stamp (s : string) : Date :=
  match s with
  | String c r =>
      if Ascii.eqb c "T" then
        match NilEmpty.int_of_string r with
        | Some i => ValidDate (Z.of_int i)
        | None => InvalidDate
        end
      else InvalidDate
  | EmptyString => InvalidDate
  end.

(** The state of the specification's scenario after its three steps:
    the task "Fix bug" created, assigned to [dev-1] and completed. *)
Definition fix_bug : Task.t :=
  Task.mk "task-1" "Fix bug" "" 10%Q backlog None (ValidDate 1700000000000)
          None None.

Definition assign_to_dev_1 : PartialTask.t :=
  PartialTask.mk None None None None (Some assigned) (Some (Some "dev-1"))
                 None None None.

Definition complete_it : PartialTask.t :=
  PartialTask.mk None None None None (Some completed) None None
                 (Some (Some (ValidDate 1700000360000)))
                 (Some (Some (TaskCompletionDetails.mk 5%Q "abc123" "done"))).

Definition scenario_state : AppState :=
  updateTask "task-1" complete_it
    (updateTask "task-1" assign_to_dev_1
       (addTask fix_bug initialState)).

(** A storage holding the corrupted document of the specification's
    scenario. *)
Definition corrupted_storage : Storage.LocalStorage :=
  Storage.mkLocalStorage [(Storage.STORAGE_KEY, Malformed "{invalid")]
                         false false.

(** A hook in the middle of a session. *)
Definition busy_hook : Hook.t :=
  Hook.mk (value_of_state state_with_history) false None false
          (Some (ValidDate 5)) 0.

(** A task that arrives already completed, for a developer nobody has
    added, and a task whose assignee is the empty string. *)
Definition completed_on_arrival : Task.t :=
  Task.mk "task-3" "Imported work" "" 10%Q completed (Some "unknown-id")
          (ValidDate 0) (Some (ValidDate 1))
          (Some (TaskCompletionDetails.mk 5%Q "abc123" "done")).

End ConcreteStates.

(** ** Further concrete states *)

(** A task without a name, as [updateTask] can leave one. *)
Definition unnamed_task : Task.t :=
  Task.mk "t-7" "" "" 5%Q backlog None (ValidDate 0) None None.

Definition state_with_unnamed_task : AppState :=
  mkAppState [unnamed_task] [].

(** A storage that holds a document under the key and an older one as
    its last backup. *)
Definition storage_with_backup : Storage.LocalStorage :=
  Storage.mkLocalStorage
    [ ("nocena-devs-data",
       Document (JObject [("tasks", JArray []);
                          ("developers", JArray []);
                          ("version", JString "1.0")]));
      ("nocena-devs-data-backup-last", Document empty_document) ]
    false false.

Definition empty_storage : Storage.LocalStorage :=
  Storage.mkLocalStorage [] false false.

Definition empty_store : Route.KV := Route.mkKV None false.

(** The state with a history and a second developer, who has no task. *)
Definition second_developer : Developer.t :=
  Developer.mk "dev-2" "Second" 0%Q 0%Q 0%Q.

Definition state_with_two_developers : AppState :=
  mkAppState (tasks state_with_history)
             (developers state_with_history ++ [second_developer]).

Definition two_hours : CompletionFormData.t :=
  CompletionFormData.mk 2%Q "abc1234" "done".

(** Two completed tasks of one developer whose hours are the doubles
    nearest to 0.1 and to 0.2, and the double nearest to 0.3, which is
    not their sum. *)
Definition double_0_1 : Q := 3602879701896397 # 36028797018963968.
Definition double_0_2 : Q := 3602879701896397 # 18014398509481984.
Definition double_0_3 : Q := 5404319552844595 # 18014398509481984.

Definition short_task (id : string) (hours : Q) : Task.t :=
  Task.mk id "Short task" "" 1%Q completed (Some "dev-1") (ValidDate 0)
          (Some (ValidDate 1))
          (Some (TaskCompletionDetails.mk hours "abc123" "done")).

Definition state_with_short_tasks : AppState :=
  mkAppState [short_task "s-1" double_0_1]
             [Developer.mk "dev-1" "Developer dev" 1%Q 1%Q double_0_1;
              second_developer].

(** A state reached by four public mutations: two tasks added, the
    second for a developer nobody has added, a developer added by
    hand, and the first task assigned to a third developer. *)
Definition team_state : AppState :=
  apply_mutation (casing := ascii_case_mapping)
    (UpdateTask "task-1" assign_to_dev_1)
    (apply_mutation (casing := ascii_case_mapping)
       (AddDeveloper second_developer)
       (apply_mutation (casing := ascii_case_mapping)
          (AddTask task_for_newcomer)
          (apply_mutation (casing := ascii_case_mapping)
             (AddTask fix_bug) initialState))).

(** A hook in the middle of a session whose saves have failed three
    times. *)
Definition worn_hook : Hook.t :=
  Hook.mk (value_of_state state_with_history) false None false
          (Some (ValidDate 5)) 3.

(** A name as a form can hold it: a no-break space, "Zo", an e with
    diaeresis (one code unit, two bytes here) and a blank. *)
Definition padded_name : string :=
  (Js.unit_bytes 160 ++ "Zo" ++ Js.unit_bytes 235 ++ " ")%string.
(* ================================================================== *)
(** * Properties *)
(* ================================================================== *)

(** ** [deleteDeveloper] *)

Lemma assignedTo_is_true t d :
  assignedTo_is t d = true <-> Task.assignedTo t = Some d.
Proof.
  unfold assignedTo_is. destruct (Task.assignedTo t) as [a|].
  - rewrite String.eqb_eq. split; congruence.
  - split; discriminate.
Qed.

Lemma TaskStatus_eqb_true a b : TaskStatus_eqb a b = true <-> a = b.
Proof. destruct a, b; simpl; split; congruence. Qed.

Lemma to_backlog_reset t : reset_of t (to_backlog t).
Proof. unfold reset_of; simpl; repeat split. Qed.

(** C2. [deleteDeveloper d] removes the developer record with id [d]
    and keeps every other record; position by position in the task
    list, a task assigned to [d] that is not completed is moved back to
    the backlog with its assignment cleared, a completed task assigned
    to [d] is left exactly as it was, and so is every task that is not
    assigned to [d]. *)
Theorem deleteDeveloper_reassigns_open_tasks :
  forall (s : AppState) (d : string),
    let s' := deleteDeveloper d s in
    (forall dev, In dev (developers s') <->
                 In dev (developers s) /\ Developer.id dev <> d)
    /\ List.length (tasks s') = List.length (tasks s)
    /\ forall i t, nth_error (tasks s) i = Some t ->
         exists t', nth_error (tasks s') i = Some t'
           /\ (Task.assignedTo t = Some d -> Task.status t <> completed ->
               reset_of t t')
           /\ (Task.assignedTo t = Some d -> Task.status t = completed ->
               t' = t)
           /\ (Task.assignedTo t <> Some d -> t' = t).
Proof.
  intros s d s'. subst s'. unfold deleteDeveloper; simpl.
  split; [|split].
  - intro dev. rewrite filter_In, negb_true_iff, String.eqb_neq. tauto.
  - apply length_map.
  - intros i t Hi. rewrite nth_error_map, Hi; simpl.
    eexists; split; [reflexivity|].
    destruct (assignedTo_is t d) eqn:Ha;
      destruct (TaskStatus_eqb (Task.status t) completed) eqn:Hs; simpl.
    + apply TaskStatus_eqb_true in Hs.
      split; [intros _ Hn; congruence | split; reflexivity].
    + split; [intros _ _; apply to_backlog_reset | split].
      * intros _ Hc. apply TaskStatus_eqb_true in Hc. congruence.
      * intros Hn. apply assignedTo_is_true in Ha. congruence.
    + split; [intros Hd | split; reflexivity].
      apply assignedTo_is_true in Hd. congruence.
    + split; [intros Hd | split; reflexivity].
      apply assignedTo_is_true in Hd. congruence.
Qed.

(** ** The periodic sweep *)

Lemma Set_from_acc_In (l acc : list string) (x : string) :
  In x (fold_left Js.Set_add l acc) <-> In x acc \/ In x l.
Proof.
  revert acc. induction l as [|y l IH]; intros acc; simpl.
  - tauto.
  - rewrite IH. unfold Js.Set_add, Js.Set_has.
    destruct (existsb (String.eqb y) acc) eqn:E.
    + apply existsb_exists in E. destruct E as [z [Hz Hyz]].
      apply String.eqb_eq in Hyz. subst z.
      intuition (subst; auto).
    + rewrite in_app_iff. simpl. intuition auto.
Qed.

Lemma Set_from_In (l : list string) (x : string) :
  In x (Js.Set_from l) <-> In x l.
Proof. unfold Js.Set_from. rewrite Set_from_acc_In. simpl. tauto. Qed.

Lemma Set_has_true (s : list string) (x : string) :
  Js.Set_has s x = true <-> In x s.
Proof.
  unfold Js.Set_has. rewrite existsb_exists. split.
  - intros [y [Hy E]]. apply String.eqb_eq in E. now subst.
  - intros H. exists x. split; [assumption | apply String.eqb_refl].
Qed.

Lemma known_developer_ids (s : AppState) (a : string) :
  known_developer s a <-> In a (map Developer.id (developers s)).
Proof.
  unfold known_developer. rewrite in_map_iff. split.
  - intros [dev [H E]]. exists dev. auto.
  - intros [dev [E H]]. exists dev. auto.
Qed.

Lemma truthy_string_true (a : string) :
  Js.truthy_string a = true <-> a <> "".
Proof. destruct a; simpl; split; congruence. Qed.

Lemma orphaned_true (s : AppState) (t : Task.t) :
  orphaned (Js.Set_from (map Developer.id (developers s))) t = true
  <-> dangling_nonempty s t.
Proof.
  unfold orphaned, dangling_nonempty, assignedTo_truthy, assignedTo_nonnull.
  rewrite andb_true_iff, negb_true_iff.
  destruct (Task.assignedTo t) as [a|].
  - rewrite truthy_string_true. split.
    + intros [Hne Hno]. exists a. repeat split; auto.
      rewrite known_developer_ids, <- Set_from_In, <- Set_has_true.
      congruence.
    + intros [b [Hb [Hne Hno]]]. injection Hb as <-. split; auto.
      rewrite known_developer_ids, <- Set_from_In, <- Set_has_true in Hno.
      now destruct (Js.Set_has _ a).
  - split; [intros [H _]; discriminate | intros [b [H _]]; discriminate].
Qed.

(** The [hasChanges] flag only saves an allocation: the sweep is the
    map that resets the orphaned tasks. *)
Lemma validateAndCleanup_map (s : AppState) :
  validateAndCleanup s =
  mkAppState
    (map (fun t =>
            if orphaned (Js.Set_from (map Developer.id (developers s))) t
            then to_backlog t else t) (tasks s))
    (developers s).
Proof.
  unfold validateAndCleanup.
  set (ids := Js.Set_from (map Developer.id (developers s))).
  rewrite map_map.
  assert (Hfst : forall l,
    map (fun x => fst (if orphaned ids x then (to_backlog x, true)
                       else (x, false))) l
    = map (fun t => if orphaned ids t then to_backlog t else t) l).
  { intros l. apply map_ext. intros t. now destruct (orphaned ids t). }
  rewrite Hfst.
  destruct (existsb snd _) eqn:E; [reflexivity|].
  destruct s as [ts ds]; simpl in *. f_equal.
  induction ts as [|t ts IH]; simpl in *; [reflexivity|].
  destruct (orphaned ids t); simpl in E; [discriminate|].
  f_equal. apply IH. exact E.
Qed.

(** C4 (as amended). One run of the sweep leaves the developer list as it
    is and, position by position in the task list, moves back to the
    backlog exactly the tasks whose [assignedTo] is present, is not the
    empty string and names no developer record: their status becomes
    [backlog], their assignment is cleared and their other fields are
    kept.  Every other task is left exactly as it was. *)
Theorem sweep_resets_exactly_the_orphans :
  forall (s : AppState),
    let s' := validateAndCleanup s in
    developers s' = developers s
    /\ List.length (tasks s') = List.length (tasks s)
    /\ forall i t, nth_error (tasks s) i = Some t ->
         exists t', nth_error (tasks s') i = Some t'
           /\ (dangling_nonempty s t -> reset_of t t')
           /\ (~ dangling_nonempty s t -> t' = t).
Proof.
  intros s s'. subst s'. rewrite validateAndCleanup_map. simpl.
  split; [reflexivity | split; [apply length_map|]].
  intros i t Hi. rewrite nth_error_map, Hi. simpl.
  eexists. split; [reflexivity|].
  destruct (orphaned _ t) eqn:E.
  - apply orphaned_true in E. split.
    + intros _. apply to_backlog_reset.
    + intros Hn. contradiction.
  - split.
    + intros Hd. apply orphaned_true in Hd. congruence.
    + reflexivity.
Qed.

(** C4, as stated, fails: the assignment [""] is present and names no
    developer, and the sweep leaves the task assigned. *)
Lemma sweep_skips_empty_assignment :
  ~ sweep_resets_every_dangling (mkAppState [task_assigned_to_nobody] []).
Proof.
  intros H.
  destruct (H 0%nat task_assigned_to_nobody eq_refl) as [t' [Ht' R]].
  - exists "". split; [reflexivity|].
    intros [dev [Hin _]]. inversion Hin.
  - vm_compute in Ht'. injection Ht' as <-.
    destruct R as [Hs _]. discriminate Hs.
Qed.

(** C3, at the failing input: [deleteDeveloper] keeps the completed task
    of the deleted developer, and the first sweep after it moves that
    task back to the backlog and clears its assignment. *)
Theorem sweep_clears_completed_history :
  nth_error (tasks (deleteDeveloper "dev-1" state_with_history)) 0
    = Some done_task
  /\ nth_error
       (tasks (sweeps 1 (deleteDeveloper "dev-1" state_with_history))) 0
     = Some (to_backlog done_task)
  /\ Task.status (to_backlog done_task) = backlog
  /\ Task.assignedTo (to_backlog done_task) = None.
Proof. repeat split; vm_compute; reflexivity. Qed.

(** The same in general: whenever a completed task is assigned to a
    developer with a non-empty id, deleting that developer and running
    the sweep once moves the task back to the backlog. *)
Lemma sweep_after_delete_clears_history (s : AppState) (d : string)
      (i : nat) (t : Task.t) :
  d <> "" ->
  nth_error (tasks s) i = Some t ->
  Task.assignedTo t = Some d ->
  Task.status t = completed ->
  nth_error (tasks (sweeps 1 (deleteDeveloper d s))) i
  = Some (to_backlog t).
Proof.
  intros Hd Hi Ha Hs. simpl.
  assert (H1 : nth_error (tasks (deleteDeveloper d s)) i = Some t).
  { unfold deleteDeveloper. simpl. rewrite nth_error_map, Hi. simpl.
    rewrite Hs. now rewrite andb_false_r. }
  assert (Ho : orphaned
                 (Js.Set_from
                    (map Developer.id (developers (deleteDeveloper d s)))) t
               = true).
  { apply orphaned_true. exists d. repeat split; auto.
    intros [dev [Hin E]]. unfold deleteDeveloper in Hin. simpl in Hin.
    apply filter_In in Hin. destruct Hin as [_ Hne].
    apply negb_true_iff, String.eqb_neq in Hne. contradiction. }
  rewrite validateAndCleanup_map. cbn [tasks].
  rewrite nth_error_map, H1. cbn [option_map]. now rewrite Ho.
Qed.

(** ** Developer aggregates *)

Section Aggregates.

Context {casing : Js.CaseMapping}.

Lemma credited_test (d : string) (t : Task.t) :
  assignedTo_is t d && TaskStatus_eqb (Task.status t) completed
  = credited d t.
Proof.
  unfold assignedTo_is, credited. now destruct (Task.assignedTo t).
Qed.

Lemma credited_true (d : string) (t : Task.t) :
  credited d t = true <->
  Task.assignedTo t = Some d /\ Task.status t = completed.
Proof.
  unfold credited. destruct (Task.assignedTo t) as [a|].
  - rewrite andb_true_iff, String.eqb_eq, TaskStatus_eqb_true.
    split; intros [H1 H2]; split; congruence.
  - split; [discriminate | intros [H _]; discriminate].
Qed.

Lemma number_or_0_eq (x : Q) : (Js.number_or_0 x == x)%Q.
Proof.
  unfold Js.number_or_0. destruct (Qeq_bool x 0) eqn:E.
  - apply Qeq_bool_eq in E. now symmetry.
  - reflexivity.
Qed.

Lemma hoursSpent_or_0_eq (t : Task.t) :
  (hoursSpent_or_0 t == recorded_hours t)%Q.
Proof.
  unfold hoursSpent_or_0, recorded_hours.
  destruct (Task.completionDetails t).
  - apply number_or_0_eq.
  - reflexivity.
Qed.

(** Rounding looks at the value of a rational, not at the fraction that
    writes it. *)
Lemma round_double_value (x y : Q) :
  (x == y)%Q -> Js.round_double x = Js.round_double y.
Proof.
  intros H. unfold Js.round_double. now rewrite (Qred_complete x y H).
Qed.

Lemma double_add_value (a a' x x' : Q) :
  (a == a')%Q -> (x == x')%Q -> Js.double_add a x = Js.double_add a' x'.
Proof.
  intros Ha Hx. unfold Js.double_add. apply round_double_value.
  now rewrite Ha, Hx.
Qed.

(** The [reduce] of the code is the sum of the specification. *)
Lemma reduce_is_double_sum (g f : Task.t -> Q) :
  (forall t, (g t == f t)%Q) ->
  forall (ts : list Task.t) (acc acc' : Q),
    (acc == acc')%Q ->
    (fold_left (fun sum task => Js.double_add sum (g task)) ts acc
     == fold_left Js.double_add (map f ts) acc')%Q.
Proof.
  intros Hgf ts. induction ts as [|t ts IH]; intros acc acc' Hacc; simpl.
  - exact Hacc.
  - apply IH. rewrite (double_add_value acc acc' (g t) (f t) Hacc (Hgf t)).
    reflexivity.
Qed.

Lemma calculateDeveloperStats_filter (ts : list Task.t) (d : string) :
  calculateDeveloperStats ts d =
  Stats.mk
    (fold_left (fun sum task => Js.double_add sum (Task.points task))
               (credited_tasks d ts) 0%Q)
    (length_number (credited_tasks d ts))
    (fold_left (fun sum task => Js.double_add sum (hoursSpent_or_0 task))
               (credited_tasks d ts) 0%Q).
Proof.
  unfold calculateDeveloperStats, credited_tasks.
  now rewrite (filter_ext _ (credited d) (credited_test d)).
Qed.

(** What [calculateDeveloperStats] returns for [d] are the aggregates the
    specification derives for [d]. *)
Lemma calculateDeveloperStats_derived (ts : list Task.t) (d n : string) :
  let stats := calculateDeveloperStats ts d in
  derived_aggregates ts
    (Developer.mk d n (Stats.totalPoints stats) (Stats.completedTasks stats)
                  (Stats.totalHours stats)).
Proof.
  intros stats. subst stats. rewrite calculateDeveloperStats_filter.
  unfold derived_aggregates, double_sum.
  cbn [Developer.totalPoints Developer.completedTasks Developer.totalHours
       Developer.id Stats.totalPoints Stats.completedTasks Stats.totalHours].
  split; [|split].
  - apply (reduce_is_double_sum Task.points Task.points);
      [intros t|]; reflexivity.
  - reflexivity.
  - apply (reduce_is_double_sum hoursSpent_or_0 recorded_hours);
      [apply hoursSpent_or_0_eq | reflexivity].
Qed.

Lemma provision_derived (ts : list Task.t) (devs : list Developer.t)
      (devId : string) :
  Forall (derived_aggregates ts) devs ->
  Forall (derived_aggregates ts) (provision ts devs devId).
Proof.
  intros H. unfold provision, push.
  destruct (has_developer devs devId); simpl; [assumption|].
  apply Forall_app. split; [assumption|].
  constructor; [|constructor].
  apply calculateDeveloperStats_derived.
Qed.

Lemma fold_provision_derived (ts : list Task.t) (ids : list string) :
  forall devs,
    Forall (derived_aggregates ts) devs ->
    Forall (derived_aggregates ts) (fold_left (provision ts) ids devs).
Proof.
  induction ids as [|a ids IH]; intros devs H; simpl; [assumption|].
  apply IH. now apply provision_derived.
Qed.

Lemma refreshed_derived (ts : list Task.t) (devs : list Developer.t) :
  Forall (derived_aggregates ts)
    (map (fun dev =>
            set_stats dev (calculateDeveloperStats ts (Developer.id dev)))
         devs).
Proof.
  apply Forall_forall. intros D HD. apply in_map_iff in HD.
  destruct HD as [dev [<- _]]. unfold set_stats.
  apply calculateDeveloperStats_derived.
Qed.

(** Every record [updateDeveloperStats] returns, refreshed or newly
    provisioned, carries the aggregates derived from [ts]. *)
Lemma updateDeveloperStats_derived (ts : list Task.t)
      (devs : list Developer.t) :
  Forall (derived_aggregates ts) (updateDeveloperStats ts devs).
Proof.
  unfold updateDeveloperStats. apply fold_provision_derived.
  apply refreshed_derived.
Qed.

(** A map over the tasks that leaves the credited tasks as they are and
    credits no other task keeps the list of the credited tasks. *)
Lemma credited_tasks_map (g : Task.t -> Task.t) (d : string)
      (ts : list Task.t) :
  (forall t, credited d (g t) = credited d t) ->
  (forall t, credited d t = true -> g t = t) ->
  credited_tasks d (map g ts) = credited_tasks d ts.
Proof.
  intros Hc Hf. unfold credited_tasks.
  induction ts as [|t ts IH]; simpl; [reflexivity|].
  rewrite Hc. destruct (credited d t) eqn:E.
  - now rewrite (Hf t E), IH.
  - exact IH.
Qed.

Lemma deleteDeveloper_keeps_credit (d x : string) (t : Task.t) :
  let t' := if assignedTo_is t d
               && negb (TaskStatus_eqb (Task.status t) completed)
            then to_backlog t else t in
  credited x t' = credited x t /\ (credited x t = true -> t' = t).
Proof.
  simpl. destruct (assignedTo_is t d) eqn:Ha;
    destruct (TaskStatus_eqb (Task.status t) completed) eqn:Hs; simpl;
    try (split; reflexivity).
  assert (Hx : credited x t = false).
  { unfold credited. destruct (Task.assignedTo t); [|reflexivity].
    rewrite Hs. apply andb_false_r. }
  rewrite Hx. split; [reflexivity | discriminate].
Qed.

Lemma deleteDeveloper_in_sync (d : string) (s : AppState) :
  aggregates_in_sync s -> aggregates_in_sync (deleteDeveloper d s).
Proof.
  unfold aggregates_in_sync, deleteDeveloper; simpl.
  intros H D HD. apply filter_In in HD. destruct HD as [HD _].
  unfold derived_aggregates.
  rewrite credited_tasks_map; [exact (H D HD) | |];
    intros t; destruct (deleteDeveloper_keeps_credit d (Developer.id D) t)
      as [E1 E2]; assumption.
Qed.

Lemma findIndex_assign_In {A} (p : A -> bool) (l : list A) (i : nat) (v : A) :
  Js.findIndex p l = Some i -> In v (Js.assign_index l i v).
Proof.
  revert i. induction l as [|x l IH]; intros i; simpl; [discriminate|].
  destruct (p x).
  - intros [= <-]. now left.
  - destruct (Js.findIndex p l) as [j|]; simpl; [|discriminate].
    intros [= <-]. right. now apply IH.
Qed.

Lemma has_developer_false (devs : list Developer.t) (a : string) :
  has_developer devs a = false <-> ~ In a (map Developer.id devs).
Proof.
  unfold has_developer. split.
  - intros H Hin. apply in_map_iff in Hin. destruct Hin as [dev [E Hin]].
    assert (Ht : existsb (fun dev => String.eqb (Developer.id dev) a) devs
                 = true).
    { apply existsb_exists. exists dev. split; [assumption|].
      now apply String.eqb_eq. }
    congruence.
  - intros H. destruct (existsb _ devs) eqn:E; [|reflexivity].
    apply existsb_exists in E. destruct E as [dev [Hin E]].
    apply String.eqb_eq in E. exfalso. apply H.
    apply in_map_iff. now exists dev.
Qed.

(** C1 (as amended). After [addTask], [updateTask] and [deleteTask] every
    developer record D of the resulting state has
    [totalPoints] = the sum of [points], [completedTasks] = the count and
    [totalHours] = the sum of [completionDetails.hoursSpent] over exactly
    the tasks with [assignedTo == D.id] and [status == 'completed'], the
    sums being taken as the platform takes them: in the order of the
    task list, each partial sum rounded to the nearest double.
    [deleteDeveloper] does not recompute the aggregates and keeps these
    equalities when they held before.  [addDeveloper] and
    [updateDeveloper] do not recompute them either: they store the record
    they are given, with the aggregates the caller supplied. *)
Theorem task_mutations_resync_aggregates :
  (forall task s, aggregates_in_sync (addTask task s))
  /\ (forall taskId updates s,
         aggregates_in_sync (updateTask taskId updates s))
  /\ (forall taskId s, aggregates_in_sync (deleteTask taskId s))
  /\ (forall developerId s,
         aggregates_in_sync s ->
         aggregates_in_sync (deleteDeveloper developerId s))
  /\ (forall developer s,
         ~ known_developer s (Developer.id developer) ->
         developers (addDeveloper developer s)
         = developers s ++ [developer])
  /\ (forall developer s,
         In developer (developers (updateDeveloper developer s))).
Proof.
  split; [|split; [|split; [|split; [|split]]]].
  - intros task s D HD. unfold addTask in *; simpl in *.
    exact (proj1 (Forall_forall _ _)
                 (updateDeveloperStats_derived _ _) D HD).
  - intros taskId updates s D HD. unfold updateTask in *; simpl in *.
    exact (proj1 (Forall_forall _ _)
                 (updateDeveloperStats_derived _ _) D HD).
  - intros taskId s D HD. unfold deleteTask in *; simpl in *.
    exact (proj1 (Forall_forall _ _)
                 (updateDeveloperStats_derived _ _) D HD).
  - intros developerId s. apply deleteDeveloper_in_sync.
  - intros developer s H. unfold addDeveloper.
    rewrite known_developer_ids in H. apply has_developer_false in H.
    now rewrite H.
  - intros developer s. unfold updateDeveloper; simpl.
    destruct (Js.findIndex _ (developers s)) as [i|] eqn:E.
    + eapply findIndex_assign_In. exact E.
    + apply in_or_app. right. now left.
Qed.

(** C1, as stated, fails for [addDeveloper]: from the initial state it
    yields a record with 10 points although no task exists. *)
Lemma addDeveloper_keeps_supplied_stats :
  ~ aggregates_in_sync
      (addDeveloper developer_with_supplied_stats initialState).
Proof.
  intros H.
  destruct (H developer_with_supplied_stats) as [Hp _].
  - simpl. now left.
  - vm_compute in Hp. discriminate Hp.
Qed.

End Aggregates.

(** ** Identifiers *)

Section Identifiers.

Context {casing : Js.CaseMapping}.

Lemma NoDup_snoc {A} (l : list A) (x : A) :
  NoDup l -> ~ In x l -> NoDup (l ++ [x]).
Proof.
  intros Hl Hx. induction Hl as [|y l Hy Hl IH]; simpl.
  - constructor; [intros [] | constructor].
  - constructor.
    + rewrite in_app_iff. simpl. intros [H|[H|[]]]; [contradiction|].
      subst. apply Hx. now left.
    + apply IH. intros H. apply Hx. now right.
Qed.

(** Filtering a list keeps its keys pairwise distinct. *)
Lemma filter_keeps_keys_distinct {X K} (key : X -> K) (keep : X -> bool)
      (xs : list X) :
  NoDup (map key xs) -> NoDup (map key (filter keep xs)).
Proof.
  induction xs as [|x xs IH]; simpl; intros Hnd; [constructor|].
  inversion Hnd as [|? ? Hfresh Hrest]; subst.
  destruct (keep x); simpl; [|now apply IH].
  constructor; [|now apply IH].
  intros Hin. apply Hfresh. apply in_map_iff in Hin.
  destruct Hin as [y [E Hy]]. apply filter_In in Hy.
  apply in_map_iff. exists y. tauto.
Qed.

Lemma set_stats_ids (ts : list Task.t) (devs : list Developer.t) :
  map Developer.id
      (map (fun dev =>
              set_stats dev (calculateDeveloperStats ts (Developer.id dev)))
           devs)
  = map Developer.id devs.
Proof. rewrite map_map. now apply map_ext. Qed.

Lemma provision_distinct (ts : list Task.t) (devs : list Developer.t)
      (devId : string) :
  NoDup (map Developer.id devs) ->
  NoDup (map Developer.id (provision ts devs devId)).
Proof.
  intros H. unfold provision, push.
  destruct (has_developer devs devId) eqn:E; simpl; [assumption|].
  rewrite map_app. simpl. apply NoDup_snoc; [assumption|].
  now apply has_developer_false.
Qed.

Lemma updateDeveloperStats_distinct (ts : list Task.t)
      (devs : list Developer.t) :
  NoDup (map Developer.id devs) ->
  NoDup (map Developer.id (updateDeveloperStats ts devs)).
Proof.
  intros H. unfold updateDeveloperStats.
  rewrite <- (set_stats_ids ts) in H.
  revert H. generalize (map (fun dev =>
    set_stats dev (calculateDeveloperStats ts (Developer.id dev))) devs).
  induction (Js.Set_from _) as [|a ids IH]; intros l H; simpl;
    [assumption|].
  apply IH. now apply provision_distinct.
Qed.

Lemma assign_index_same_id (devs : list Developer.t) (developer : Developer.t)
      (i : nat) :
  Js.findIndex (fun dev =>
                  String.eqb (Developer.id dev) (Developer.id developer))
               devs = Some i ->
  map Developer.id (Js.assign_index devs i developer)
  = map Developer.id devs.
Proof.
  revert i. induction devs as [|x devs IH]; intros i; simpl; [discriminate|].
  destruct (String.eqb (Developer.id x) (Developer.id developer)) eqn:E.
  - intros [= <-]. simpl. apply String.eqb_eq in E. congruence.
  - destruct (Js.findIndex _ devs) as [j|]; simpl; [|discriminate].
    intros [= <-]. simpl. f_equal. now apply IH.
Qed.

Lemma findIndex_None_not_In (devs : list Developer.t) (a : string) :
  Js.findIndex (fun dev => String.eqb (Developer.id dev) a) devs = None ->
  ~ In a (map Developer.id devs).
Proof.
  induction devs as [|x devs IH]; simpl; [tauto|].
  destruct (String.eqb (Developer.id x) a) eqn:E; [discriminate|].
  destruct (Js.findIndex _ devs); simpl; [discriminate|].
  intros _ [H|H].
  - apply String.eqb_neq in E. contradiction.
  - now apply IH.
Qed.

(** Every public mutation keeps the developer ids pairwise distinct. *)
Lemma mutation_keeps_developer_ids (m : Mutation) (s : AppState) :
  distinct_developer_ids s -> distinct_developer_ids (apply_mutation m s).
Proof.
  unfold distinct_developer_ids. intros H.
  destruct m as [task|taskId updates|taskId|developer|developer|developerId];
    simpl.
  - now apply updateDeveloperStats_distinct.
  - now apply updateDeveloperStats_distinct.
  - now apply updateDeveloperStats_distinct.
  - unfold addDeveloper.
    destruct (has_developer _ _) eqn:E; [assumption|]. simpl.
    rewrite map_app. simpl. apply NoDup_snoc; [assumption|].
    now apply has_developer_false.
  - unfold updateDeveloper; simpl.
    destruct (Js.findIndex _ (developers s)) as [i|] eqn:E.
    + now rewrite (assign_index_same_id _ _ _ E).
    + rewrite map_app. simpl. apply NoDup_snoc; [assumption|].
      now apply findIndex_None_not_In.
  - now apply filter_keeps_keys_distinct.
Qed.

Lemma spread_task_keeps_id (t : Task.t) (updates : PartialTask.t) :
  PartialTask.id updates = None ->
  Task.id (spread_task t updates) = Task.id t.
Proof. intros H. unfold spread_task; simpl. now rewrite H. Qed.

(** A mutation that keeps to the id discipline keeps the task ids
    pairwise distinct. *)
Lemma mutation_keeps_task_ids (m : Mutation) (s : AppState) :
  keeps_task_ids s m ->
  distinct_task_ids s -> distinct_task_ids (apply_mutation m s).
Proof.
  unfold distinct_task_ids. intros Hm H.
  destruct m as [task|taskId updates|taskId|developer|developer|developerId];
    simpl in *.
  - rewrite map_app. simpl. now apply NoDup_snoc.
  - rewrite map_map.
    erewrite map_ext; [exact H|].
    intros t. simpl. destruct (String.eqb (Task.id t) taskId);
      [now apply spread_task_keeps_id | reflexivity].
  - now apply filter_keeps_keys_distinct.
  - unfold addDeveloper. now destruct (has_developer _ _).
  - assumption.
  - rewrite map_map.
    erewrite map_ext; [exact H|].
    intros t. simpl. now destruct (_ && _).
Qed.

(** C9 (as amended). In every state the public mutations reach from the
    initial state the developer ids are pairwise distinct.  The task ids
    are pairwise distinct in every state reached by mutations in which
    each [addTask] brings an id no task has yet and no [updateTask] patch
    carries an [id]: [addTask] and [updateTask] themselves do not check
    ids. *)
Theorem reachable_ids_distinct :
  (forall s, reachable s -> distinct_developer_ids s)
  /\ (forall s, reachable_keeping_ids s -> distinct_task_ids s).
Proof.
  split.
  - intros s H. induction H as [|m s _ IH].
    + constructor.
    + now apply mutation_keeps_developer_ids.
  - intros s H. induction H as [|m s _ IH Hm].
    + constructor.
    + now apply mutation_keeps_task_ids.
Qed.

(** C9, as stated, fails: adding the same task twice is two public
    mutations from the initial state, and the task list then holds its
    id twice, whatever the case mapping of the platform. *)
Lemma addTask_twice_repeats_id :
  ~ exists mapping : Js.CaseMapping,
      reachable (casing := mapping) (added_twice_under mapping) ->
      distinct_task_ids (added_twice_under mapping).
Proof.
  intros [mapping H].
  assert (Hr : reachable (casing := mapping) (added_twice_under mapping)).
  { unfold added_twice_under.
    do 2 apply (reachable_step (casing := mapping)).
    apply reachable_initial. }
  specialize (H Hr). unfold distinct_task_ids in H. simpl in H.
  inversion H as [|? ? Hx _]; subst. apply Hx. now left.
Qed.

End Identifiers.
(** ** Default names *)

Section DefaultNames.

Context {casing : Js.CaseMapping}.

Lemma name_taken_true (names : list string) (c : string) :
  name_taken names c = true <->
  In (Js.toLowerCase c) (map Js.toLowerCase names).
Proof.
  unfold name_taken. rewrite existsb_exists, in_map_iff. split.
  - intros [n [Hn E]]. apply String.eqb_eq in E. now exists n.
  - intros [n [E Hn]]. exists n. split; [assumption|].
    now apply String.eqb_eq.
Qed.

(** A run of the loop either stops at a free counter or has found all
    the counters it went through taken. *)
Lemma counter_loop_run (names : list string) (b : string) :
  forall fuel c,
    name_taken names (numbered b (counter_loop names b fuel c)) = false
    \/ (counter_loop names b fuel c = (c + fuel)%nat
        /\ forall i, (c <= i < c + fuel)%nat ->
                     name_taken names (numbered b i) = true).
Proof.
  induction fuel as [|fuel IH]; intros c; simpl.
  - right. split; [lia | intros i Hi; lia].
  - destruct (name_taken names (numbered b c)) eqn:E; [|now left].
    destruct (IH (S c)) as [H|[Hr Hall]]; [now left|].
    right. split; [lia|].
    intros i Hi. destruct (Nat.eq_dec i c) as [->|Hne]; [assumption|].
    apply Hall. lia.
Qed.

(** The loop stops because its condition is false: with one round per
    existing name it cannot run out of rounds, since every round uses up
    a different existing name. *)
Lemma counter_loop_exits (names : list string) (b : string) :
  lower_case_keeps_counters ->
  name_taken names
    (numbered b (counter_loop names b (List.length names) 1)) = false.
Proof.
  intros Hcounters.
  destruct (counter_loop_run names b (List.length names) 1)
    as [H|[Hr Hall]]; [assumption|].
  destruct (name_taken names (numbered b (counter_loop names b _ 1)))
    eqn:E; [|reflexivity].
  exfalso.
  set (n := List.length names) in *.
  set (cands := map (fun i => Js.toLowerCase (numbered b i)) (seq 1 (S n))).
  assert (Hnd : NoDup cands).
  { unfold cands. apply Injective_map_NoDup.
    - intros i j. apply Hcounters.
    - apply seq_NoDup. }
  assert (Hincl : incl cands (map Js.toLowerCase names)).
  { intros x Hx. unfold cands in Hx. apply in_map_iff in Hx.
    destruct Hx as [i [<- Hi]]. apply in_seq in Hi.
    apply name_taken_true.
    destruct (Nat.eq_dec i (1 + n)) as [->|Hne].
    - rewrite Hr in E. exact E.
    - apply Hall. lia. }
  pose proof (NoDup_incl_length Hnd Hincl) as Hlen.
  unfold cands in Hlen. rewrite !length_map, length_seq in Hlen.
  fold n in Hlen. lia.
Qed.

(** The generated name is not taken, whatever the case of the letters. *)
Lemma generateDefaultDeveloperName_free (developerId : string)
      (existingNames : list string) :
  lower_case_keeps_counters ->
  name_taken existingNames
             (generateDefaultDeveloperName developerId existingNames)
  = false.
Proof.
  intros Hcounters. unfold generateDefaultDeveloperName.
  set (baseName := if Js.truthy_string _ then _ else _).
  destruct (find _ (namePatterns baseName)) as [p|] eqn:E.
  - apply find_some in E. destruct E as [_ E].
    now apply negb_true_iff in E.
  - now apply counter_loop_exits.
Qed.

End DefaultNames.

(** ** Auto-provisioning *)

Section Provisioning.

Context {casing : Js.CaseMapping}.

Lemma has_developer_true (devs : list Developer.t) (a : string) :
  has_developer devs a = true <-> In a (map Developer.id devs).
Proof.
  destruct (has_developer devs a) eqn:E.
  - split; [intros _ | reflexivity].
    destruct (in_dec string_dec a (map Developer.id devs)) as [H|H];
      [assumption|].
    apply has_developer_false in H. congruence.
  - split; [discriminate|]. intros H.
    apply has_developer_false in E. contradiction.
Qed.

Lemma fold_provision_known (ts : list Task.t) (ids : list string) :
  forall devs,
    (forall a, In a ids -> In a (map Developer.id devs)) ->
    fold_left (provision ts) ids devs = devs.
Proof.
  induction ids as [|a ids IH]; intros devs H; simpl; [reflexivity|].
  assert (Ha : has_developer devs a = true).
  { apply has_developer_true. apply H. now left. }
  unfold provision at 2. rewrite Ha. simpl.
  apply IH. intros b Hb. apply H. now right.
Qed.

Lemma Set_from_snoc (l : list string) (u : string) :
  ~ In u l -> Js.Set_from (l ++ [u]) = Js.Set_from l ++ [u].
Proof.
  intros H. unfold Js.Set_from. rewrite fold_left_app. simpl.
  unfold Js.Set_add at 1.
  destruct (Js.Set_has _ u) eqn:E; [|reflexivity].
  apply Set_has_true in E. apply Set_from_acc_In in E.
  destruct E as [[]|E]. contradiction.
Qed.

Lemma truthy_assignment_In (ts : list Task.t) (a : string) :
  In a (map assignedTo_nonnull (filter assignedTo_truthy ts)) <->
  exists t, In t ts /\ Task.assignedTo t = Some a /\ a <> "".
Proof.
  rewrite in_map_iff. split.
  - intros [t [E Ht]]. apply filter_In in Ht. destruct Ht as [Ht Htr].
    exists t. unfold assignedTo_nonnull, assignedTo_truthy in *.
    destruct (Task.assignedTo t) as [b|]; [|discriminate].
    subst b. apply truthy_string_true in Htr. auto.
  - intros [t [Ht [E Hne]]]. exists t.
    unfold assignedTo_nonnull. rewrite E. split; [reflexivity|].
    apply filter_In. split; [assumption|].
    unfold assignedTo_truthy. rewrite E. now apply truthy_string_true.
Qed.

Lemma filter_none {A} (p : A -> bool) (l : list A) :
  (forall x, In x l -> p x = false) -> filter p l = [].
Proof.
  induction l as [|x l IH]; intros H; simpl; [reflexivity|].
  rewrite (H x (or_introl eq_refl)). apply IH.
  intros y Hy. apply H. now right.
Qed.

(** C5 (as amended). Let [s] hold no developer record with id [u], let
    [u] be a non-empty string, let no task of [s] be assigned to a
    developer [s] does not hold, and let [t] be assigned to [u] and not
    be completed.  Then [addTask t] appends [t] and adds exactly one
    developer record behind the ones that were there: its id is [u], its
    aggregates are zero, and its generated name differs, whatever the
    case of the letters, from the name of every developer record of [s].
    No other developer record is added or removed: the records that
    were there keep their ids, their names and their order, and carry
    the aggregates derived from the new task list.  (The platform's
    [toLowerCase] is taken to leave the counter of a numbered name in
    place, [lower_case_keeps_counters].) *)
Theorem addTask_provisions_unknown_assignee :
  forall (s : AppState) (u : string) (t : Task.t),
    ~ known_developer s u ->
    Task.assignedTo t = Some u ->
    u <> "" ->
    no_dangling_assignment s ->
    Task.status t <> completed ->
    lower_case_keeps_counters ->
    provisions_exactly_one s u t.
Proof.
  intros s u t Hu Ht Hne Hnd Hst Hcounters.
  unfold provisions_exactly_one, addTask; simpl.
  split; [reflexivity|].
  set (ts := tasks s ++ [t]).
  set (updated := map (fun dev =>
         set_stats dev (calculateDeveloperStats ts (Developer.id dev)))
         (developers s)).
  assert (Hids : map Developer.id updated = map Developer.id (developers s))
    by apply set_stats_ids.
  assert (Hnames : map Developer.name updated
                   = map Developer.name (developers s)).
  { unfold updated. rewrite map_map. now apply map_ext. }
  assert (Hold : forall a,
             In a (map assignedTo_nonnull
                       (filter assignedTo_truthy (tasks s))) ->
             In a (map Developer.id updated)).
  { intros a Ha. apply truthy_assignment_In in Ha.
    destruct Ha as [t0 [Hin [E Hane]]].
    rewrite Hids. apply known_developer_ids. eapply Hnd; eauto. }
  assert (Hunew : ~ In u (map Developer.id updated)).
  { rewrite Hids. intros H. apply Hu. now apply known_developer_ids. }
  set (stats := calculateDeveloperStats ts u).
  exists updated.
  exists (Developer.mk u
            (generateDefaultDeveloperName u (map Developer.name updated))
            (Stats.totalPoints stats) (Stats.completedTasks stats)
            (Stats.totalHours stats)).
  split; [|split; [exact Hids | split; [exact Hnames |
            split; [apply refreshed_derived | split; [reflexivity|]]]]].
  - assert (Htr : assignedTo_truthy t = true).
    { unfold assignedTo_truthy. rewrite Ht. now apply truthy_string_true. }
    assert (Hassigned :
              map assignedTo_nonnull (filter assignedTo_truthy ts)
              = map assignedTo_nonnull
                    (filter assignedTo_truthy (tasks s)) ++ [u]).
    { unfold ts. rewrite filter_app, map_app. simpl. rewrite Htr. simpl.
      unfold assignedTo_nonnull at 2. now rewrite Ht. }
    unfold updateDeveloperStats. fold updated. rewrite Hassigned.
    rewrite Set_from_snoc.
    + rewrite fold_left_app. simpl.
      rewrite fold_provision_known.
      * unfold provision.
        assert (Hf : has_developer updated u = false)
          by now apply has_developer_false.
        rewrite Hf. reflexivity.
      * intros a Ha. apply Hold. now apply (proj1 (Set_from_In _ _)).
    + intros H. apply Hunew. now apply Hold.
  - assert (Hnone : credited_tasks u ts = []).
    { unfold credited_tasks, ts. rewrite filter_app. simpl.
      assert (Ec : credited u t = false).
      { destruct (credited u t) eqn:E; [|reflexivity].
        apply credited_true in E. tauto. }
      rewrite Ec, app_nil_r.
      apply filter_none. intros t0 Hin.
      destruct (credited u t0) eqn:E; [|reflexivity].
      apply credited_true in E. destruct E as [E _].
      exfalso. apply Hu. eapply Hnd; eauto. }
    subst stats. rewrite calculateDeveloperStats_filter, Hnone. simpl.
    repeat split; try reflexivity.
    intros dev Hdev Heq.
    pose proof (generateDefaultDeveloperName_free
                  u (map Developer.name updated) Hcounters) as Hfree.
    rewrite Hnames in *.
    assert (Htaken : name_taken (map Developer.name (developers s))
               (generateDefaultDeveloperName
                  u (map Developer.name (developers s))) = true).
    { apply name_taken_true. rewrite <- Heq.
      apply in_map. now apply in_map. }
    congruence.
Qed.

(** C5, as stated, fails: in the state [deleteDeveloper] leaves behind,
    the completed task still names the deleted developer, and adding a
    task for an unknown developer then provisions two records, one for
    the deleted id and one for the new one, whatever the case mapping
    of the platform. *)
Lemma addTask_provisions_two :
  ~ exists mapping : Js.CaseMapping,
      ~ known_developer state_after_deletion "unknown-id" ->
      Task.assignedTo task_for_newcomer = Some "unknown-id" ->
      provisions_exactly_one (casing := mapping) state_after_deletion
                             "unknown-id" task_for_newcomer.
Proof.
  intros [mapping H].
  destruct H as [_ [kept [nd [E [Hk _]]]]].
  - intros [dev [[] _]].
  - reflexivity.
  - simpl in Hk. destruct kept; [|discriminate Hk].
    vm_compute in E. discriminate E.
Qed.

End Provisioning.

(** ** Trimming *)

Lemma dropWhile_splits {A} (p : A -> bool) (l : list A) :
  exists dropped,
    l = dropped ++ Js.dropWhile p l
    /\ Forall (fun x => p x = true) dropped
    /\ forall x, hd_error (Js.dropWhile p l) = Some x -> p x = false.
Proof.
  induction l as [|x l [dropped [E [Hd Hh]]]]; simpl.
  - exists []. repeat split; [constructor | discriminate].
  - destruct (p x) eqn:Ep.
    + exists (x :: dropped). simpl. rewrite <- E.
      repeat split; [now constructor | exact Hh].
    + exists []. repeat split; [constructor|].
      simpl. intros y [= <-]. exact Ep.
Qed.

(** What [trim] keeps of the code units of a string is what is left of
    them without the white space at the two ends. *)
Lemma trim_units_stripped (us : list string) :
  stripped us (Js.trim_units us).
Proof.
  unfold stripped, Js.trim_units, all_white_space.
  destruct (dropWhile_splits Js.is_white_space us) as [a [Ea [Ha Hh]]].
  set (l1 := Js.dropWhile Js.is_white_space us) in *.
  destruct (dropWhile_splits Js.is_white_space (rev l1)) as [b [Eb [Hb Hr]]].
  set (r := Js.dropWhile Js.is_white_space (rev l1)) in *.
  assert (El : l1 = rev r ++ rev b).
  { rewrite <- (rev_involutive l1), Eb. apply rev_app_distr. }
  exists a, (rev b). split; [now rewrite <- El|].
  split; [exact Ha|]. split; [now apply Forall_rev|]. split.
  - intros u Hu. apply Hh. rewrite El.
    destruct (rev r); [discriminate Hu | exact Hu].
  - intros u Hu. apply Hr. now rewrite rev_involutive in Hu.
Qed.

(** ** Completion form *)

Lemma commit_hash_test_nonempty (s : string) :
  commit_hash_test s = true -> Js.truthy_string s = true.
Proof.
  unfold commit_hash_test. destruct s; simpl; [discriminate | reflexivity].
Qed.

Lemma number_le_0_true (x : Q) :
  Js.number_le_0 x = true <-> ~ (0 < x)%Q.
Proof.
  unfold Js.number_le_0. rewrite Qle_bool_iff. split.
  - apply Qle_not_lt.
  - apply Qnot_lt_le.
Qed.

Lemma number_le_0_false (x : Q) :
  Js.number_le_0 x = false <-> (0 < x)%Q.
Proof.
  split.
  - intros H. destruct (Qlt_le_dec 0 x) as [Hlt|Hle]; [assumption|].
    apply Qle_bool_iff in Hle. unfold Js.number_le_0 in H. congruence.
  - intros H. destruct (Js.number_le_0 x) eqn:E; [|reflexivity].
    apply number_le_0_true in E. contradiction.
Qed.

(** The fields the errors name, in the order they are pushed. *)
Lemma validateCompletionForm_fields (d : CompletionFormData.t) :
  map field (errors (validateCompletionForm d))
  = (if Js.number_le_0 (CompletionFormData.hoursSpent d)
     then ["hoursSpent"] else [])
    ++ (if commit_hash_test (Js.trim (CompletionFormData.gitCommit d))
        then [] else ["gitCommit"])
    ++ (if Js.truthy_string (Js.trim (CompletionFormData.comments d))
        then [] else ["comments"]).
Proof.
  unfold validateCompletionForm, push.
  destruct (Js.number_le_0 _);
    (destruct (commit_hash_test _) eqn:Eg;
     [rewrite (commit_hash_test_nonempty _ Eg) |
      destruct (Js.truthy_string (Js.trim (CompletionFormData.gitCommit d)))]);
    destruct (Js.truthy_string (Js.trim (CompletionFormData.comments d)));
    reflexivity.
Qed.

Lemma validateCompletionForm_isValid (d : CompletionFormData.t) :
  isValid (validateCompletionForm d)
  = Nat.eqb (List.length (map field (errors (validateCompletionForm d)))) 0.
Proof. rewrite length_map. reflexivity. Qed.

Lemma named_error (r : FormValidationResult) (f : string) :
  In f (map field (errors r)) ->
  exists e, In e (errors r) /\ field e = f.
Proof.
  intros H. apply in_map_iff in H. destruct H as [e [E H]]. now exists e.
Qed.

(** C8. [validateCompletionForm d] is valid exactly when [d.hoursSpent]
    is positive, the trimmed [d.gitCommit] matches
    [/^[a-f0-9]{6,40}$/i] and the trimmed [d.comments] is not empty.
    When one of the three fails, [errors] holds an entry naming its
    field.  On [{hoursSpent: 0, gitCommit: "xyz", comments: ""}] the
    errors are exactly three, on [hoursSpent], [gitCommit] and
    [comments].  Trimming takes away the white space of ECMAScript at
    the two ends of the code units and nothing else: comments that are
    one NO-BREAK SPACE count as empty, and a hash between two of them
    is accepted. *)
Theorem validateCompletionForm_checks_three_fields :
  (forall d : CompletionFormData.t,
     let r := validateCompletionForm d in
     (isValid r = true <->
      (0 < CompletionFormData.hoursSpent d)%Q
      /\ commit_hash_test (Js.trim (CompletionFormData.gitCommit d)) = true
      /\ Js.trim (CompletionFormData.comments d) <> "")
     /\ (~ (0 < CompletionFormData.hoursSpent d)%Q ->
         exists e, In e (errors r) /\ field e = "hoursSpent")
     /\ (commit_hash_test (Js.trim (CompletionFormData.gitCommit d)) = false ->
         exists e, In e (errors r) /\ field e = "gitCommit")
     /\ (Js.trim (CompletionFormData.comments d) = "" ->
         exists e, In e (errors r) /\ field e = "comments"))
  /\ map field
         (errors (validateCompletionForm
                    (CompletionFormData.mk 0%Q "xyz" "")))
     = ["hoursSpent"; "gitCommit"; "comments"]
  /\ (forall s : string,
        exists kept,
          stripped (Js.units s) kept
          /\ Js.trim s = String.concat "" kept)
  /\ map field
         (errors (validateCompletionForm
                    (CompletionFormData.mk 1%Q "abc123" no_break_space)))
     = ["comments"]
  /\ validateCompletionForm
       (CompletionFormData.mk
          1%Q (no_break_space ++ "abc123" ++ no_break_space) "done")
     = mkFormValidationResult true [].
Proof.
  split; [|split; [reflexivity | split; [|split; reflexivity]]].
  2:{ intros s. exists (Js.trim_units (Js.units s)).
      split; [apply trim_units_stripped | reflexivity]. }
  intros d r. subst r.
  pose proof (validateCompletionForm_fields d) as Hf.
  pose proof (validateCompletionForm_isValid d) as Hv.
  rewrite Hf in Hv.
  assert (Hc : Js.truthy_string (Js.trim (CompletionFormData.comments d))
               = true
               <-> Js.trim (CompletionFormData.comments d) <> "")
    by apply truthy_string_true.
  split; [|split; [|split]].
  - rewrite Hv.
    destruct (Js.number_le_0 _) eqn:Eh;
      [apply number_le_0_true in Eh | apply number_le_0_false in Eh];
      destruct (commit_hash_test _) eqn:Eg;
      destruct (Js.truthy_string
                  (Js.trim (CompletionFormData.comments d))) eqn:Ec;
      simpl; split; try discriminate;
      try (intros [H1 [H2 H3]]; try contradiction; try discriminate;
           apply Hc in H3; discriminate).
    + intros _. split; [assumption | split; [reflexivity | now apply Hc]].
    + intros _. reflexivity.
  - intros Hn. apply named_error. rewrite Hf.
    apply number_le_0_true in Hn. rewrite Hn. now left.
  - intros Hn. apply named_error. rewrite Hf, Hn.
    apply in_or_app. right. now left.
  - intros Hn. apply named_error. rewrite Hf.
    assert (Ec : Js.truthy_string
                   (Js.trim (CompletionFormData.comments d)) = false)
      by now rewrite Hn.
    rewrite Ec. apply in_or_app. right. apply in_or_app. right. now left.
Qed.
(** ** Saving *)

(** What [loadData] returns has a [tasks] and a [developers] whose
    [length] can be read. *)
Lemma loadData_lengths (D : string -> Date)
      (outcome : ApiStorage.fetch_outcome) :
  exists loaded,
    ApiStorage.loadData D outcome = Ok loaded
    /\ (tasks <- member loaded "tasks" ;;
        member tasks "length" ;;;
        developers <- member loaded "developers" ;;
        member developers "length" ;;;
        Ok tt)%js = Ok tt.
Proof.
  unfold ApiStorage.loadData.
  destruct outcome as [|[|] status [doc|raw]]; simpl;
    try (exists empty_state; split; reflexivity).
  set (d := deserializeDates D (value_of_json doc)).
  destruct (member d "tasks") as [ts|e] eqn:Et; simpl;
    [|exists empty_state; split; reflexivity].
  destruct (member ts "length") as [n|e] eqn:Etl; simpl;
    [|exists empty_state; split; reflexivity].
  destruct (member d "developers") as [ds|e] eqn:Ed; simpl;
    [|exists empty_state; split; reflexivity].
  destruct (member ds "length") as [m|e] eqn:Edl; simpl;
    [|exists empty_state; split; reflexivity].
  exists d. split; [reflexivity|].
  now rewrite Et; simpl; rewrite Etl; simpl; rewrite Ed; simpl; rewrite Edl.
Qed.

(** One call of [loadDataWithRetry()]. *)
Lemma load_once (D : string -> Date) (captured : option string)
      (outcome : ApiStorage.fetch_outcome) (c : Loader.t) :
  exists loaded,
    ApiStorage.loadData D outcome = Ok loaded
    /\ Loader.loadDataWithRetry D captured 0 outcome c
       = (Loader.mk loaded None
                    (if Loader.is_null captured then false
                     else Loader.isLoading c),
          None).
Proof.
  destruct (loadData_lengths D outcome) as [loaded [Hl Hlog]].
  exists loaded. split; [exact Hl|].
  unfold Loader.loadDataWithRetry, Loader.attempt. simpl negb. cbv iota.
  rewrite Hl, Hlog. simpl.
  now destruct (Loader.is_null captured).
Qed.

Lemma same_error_true (a b : option string) :
  Hook.same_error a b = true <-> a = b.
Proof.
  destruct a as [x|], b as [y|]; simpl;
    try (split; [discriminate | intros [=]]); try tauto.
  rewrite String.eqb_eq. split; congruence.
Qed.

Lemma rendered_without_loads (D : string -> Date)
      (previous : option string) (h : Hook.t) :
  Hook.rendered D previous [] h = (h, []).
Proof. reflexivity. Qed.

(** The renders after an update that has put a message into [error]:
    the mount effect loads twice, first on account of the message and
    then on account of its removal by the first load, and the state is
    what the second load has returned. *)
Lemma rendered_after_message (D : string -> Date) (previous : option string)
      (message : string) (first second : ApiStorage.fetch_outcome)
      (later : list ApiStorage.fetch_outcome) (h : Hook.t) :
  Hook.error h = Some message ->
  previous <> Some message ->
  exists loaded,
    ApiStorage.loadData D second = Ok loaded
    /\ Hook.rendered D previous (first :: second :: later) h
       = (Hook.mk loaded false None (Hook.isSaving h) (Hook.lastSaved h)
                  (Hook.retryCount h),
          []).
Proof.
  intros He Hp.
  assert (Hs : Hook.same_error (Hook.error h) previous = false).
  { destruct (Hook.same_error (Hook.error h) previous) eqn:E;
      [|reflexivity].
    apply same_error_true in E. congruence. }
  destruct (load_once D (Hook.error h) first (Hook.cells h))
    as [loaded1 [_ H1]].
  rewrite He in H1 at 2. simpl Loader.is_null in H1. cbv iota in H1.
  set (h1 := Hook.put_cells
               (Loader.mk loaded1 None (Loader.isLoading (Hook.cells h))) h).
  destruct (load_once D (Hook.error h1) second (Hook.cells h1))
    as [loaded2 [Hl2 H2]].
  exists loaded2. split; [exact Hl2|].
  cbn [Hook.rendered]. rewrite Hs, H1. fold h1.
  assert (Hs1 : Hook.same_error (Hook.error h1) (Hook.error h) = false)
    by now rewrite He.
  rewrite Hs1, H2. now destruct later.
Qed.

(** C10 fails of the hook: a failed save does not keep the state.  The
    failure puts a message into [error]; [loadDataWithRetry] depends on
    [error] and the mount effect on [loadDataWithRetry], so the next
    render loads from the server, and [setState(loadedData)] replaces
    the tasks and developers the hook held.  The load also clears the
    message, which makes the effect load once more.  What is left is the
    state of the second load, without an error: after a failed
    [forceSave] (which does return [false]), after a [saveFunction]
    that has used up its retries, and after a retry that has. *)
Theorem failed_save_reloads_the_state :
  forall (Date_of_string : string -> Date) (h : Hook.t)
         (outcome : Hook.save_outcome) (now : Date) (data : value)
         (first second : ApiStorage.fetch_outcome),
    outcome <> Hook.Resolved true ->
    Hook.error h = None ->
    exists loaded,
      ApiStorage.loadData Date_of_string second = Ok loaded
      /\ Hook.forceSave Date_of_string outcome now [first; second] h
         = (Hook.mk loaded false None false (Hook.lastSaved h)
                    (Hook.retryCount h),
            false, [])
      /\ ((Hook.maxRetries <= Hook.retryCount h)%nat ->
          Hook.saveFunction Date_of_string data outcome now []
                            [first; second] h
          = (Hook.mk loaded false None false (Hook.lastSaved h)
                     (S (Hook.retryCount h)),
             None, [])
          /\ Hook.retrySave Date_of_string data outcome now
                            [first; second] h
             = (Hook.mk loaded false None (Hook.isSaving h)
                        (Hook.lastSaved h) (Hook.retryCount h),
                [])).
Proof.
  intros D h outcome now data first second Hfail Hnone.
  assert (Hno : @None string <> Some "Failed to save data manually")
    by discriminate.
  assert (Hno' : @None string <> Some Hook.failed_after_retries)
    by discriminate.
  destruct (loadData_lengths D second) as [loaded [Hl _]].
  exists loaded. split; [exact Hl|]. split.
  - unfold Hook.forceSave, Hook.forceSave_updates. rewrite Hnone.
    destruct (rendered_after_message D None "Failed to save data manually"
                first second []
                (Hook.setIsSaving false
                   (Hook.setError (Some "Failed to save data manually")
                      (Hook.setIsSaving true h)))
                eq_refl Hno) as [loaded' [Hl' Hr]].
    assert (loaded' = loaded) by congruence. subst loaded'.
    destruct outcome as [[|]|]; [now elim Hfail | |];
      cbv zeta; cbv iota beta; rewrite Hr; reflexivity.
  - intros Hmax. split.
    + unfold Hook.saveFunction, Hook.saveFunction_begins. rewrite Hnone.
      rewrite rendered_without_loads. cbv iota beta.
      unfold Hook.saveFunction_ends.
      assert (Hover : (S (Hook.retryCount h) <=? Hook.maxRetries)%nat
                      = false)
        by (apply Nat.leb_gt; unfold Hook.maxRetries in *; lia).
      destruct (rendered_after_message D None Hook.failed_after_retries
                  first second []
                  (Hook.setIsSaving false
                     (Hook.setError (Some Hook.failed_after_retries)
                        (Hook.setRetryCount (S (Hook.retryCount h))
                           (Hook.setError None (Hook.setIsSaving true h)))))
                  eq_refl Hno') as [loaded' [Hl' Hr]].
      assert (loaded' = loaded) by congruence. subst loaded'.
      destruct outcome as [[|]|]; [now elim Hfail | |];
        cbv zeta; cbv iota beta; simpl Hook.retryCount;
        rewrite Hover; cbv iota beta;
        change (Hook.error (Hook.setError None (Hook.setIsSaving true h)))
          with (@None string);
        rewrite Hr; reflexivity.
    + unfold Hook.retrySave, Hook.retrySave_updates. rewrite Hnone.
      assert (Hat : (Hook.maxRetries <=? Hook.retryCount h)%nat = true)
        by now apply Nat.leb_le.
      destruct (rendered_after_message D None Hook.failed_after_retries
                  first second []
                  (Hook.setError (Some Hook.failed_after_retries) h)
                  eq_refl Hno') as [loaded' [Hl' Hr]].
      assert (loaded' = loaded) by congruence. subst loaded'.
      destruct outcome as [[|]|]; [now elim Hfail | |];
        rewrite Hat, Hr; reflexivity.
Qed.

(** ** Loading *)

(** A [try] whose handler always returns, returns. *)
Lemma try_catch_returns {A} (c : result A) (handler : string -> result A) :
  (forall e, exists a, handler e = Ok a) ->
  exists a, try_catch c handler = Ok a.
Proof.
  intros H. destruct c as [a|e]; simpl; [now exists a | apply H].
Qed.

Lemma tryE_returns {A} (c : Storage.Eff A) (handler : string -> Storage.Eff A) :
  (forall e ls, exists a ls', handler e ls = (Ok a, ls')) ->
  forall ls, exists a ls', Storage.tryE c handler ls = (Ok a, ls').
Proof.
  intros H ls. unfold Storage.tryE.
  destruct (c ls) as [[a|e] ls']; [now exists a, ls' | apply H].
Qed.

Lemma backupCorruptedData_returns (stamp : string) (t : text)
      (ls : Storage.LocalStorage) :
  exists ls', Storage.backupCorruptedData stamp t ls = (Ok tt, ls').
Proof.
  unfold Storage.backupCorruptedData, Storage.tryE, Storage.setItem.
  destruct (Storage.denied ls); [now exists ls|].
  destruct (Storage.quota_exceeded ls); [now exists ls|].
  eexists. reflexivity.
Qed.

(** The [catch] block of [Storage.loadData] returns the default state. *)
Lemma loadData_handler_returns (stamp : string) (ls : Storage.LocalStorage) :
  exists ls',
    Storage.bindE
      (Storage.tryE
         (Storage.bindE (Storage.getItem Storage.STORAGE_KEY)
            (fun stored =>
               match stored with
               | Some stored =>
                   if Storage.empty_text stored then Storage.ret tt
                   else Storage.backupCorruptedData stamp stored
               | None => Storage.ret tt
               end))
         (fun _ => Storage.ret tt))
      (fun _ => Storage.ret Storage.DEFAULT_STATE) ls
    = (Ok empty_state, ls').
Proof.
  unfold Storage.bindE, Storage.tryE, Storage.getItem, Storage.ret.
  destruct (Storage.denied ls) eqn:Ed; [now exists ls|].
  destruct (lookup (Storage.entries ls) Storage.STORAGE_KEY) as [t|];
    [|now exists ls].
  destruct (Storage.empty_text t); [now exists ls|].
  destruct (backupCorruptedData_returns stamp t ls) as [ls' E].
  rewrite E. now exists ls'.
Qed.

(** C7. [loadData] never throws to its caller.  The HTTP gateway
    returns for every outcome of the request, and returns the empty
    state [{tasks: [], developers: []}] when the request fails in
    transport, when the response is not OK and when the body fails JSON
    parsing.  The localStorage gateway returns for every content of the
    storage, and returns the empty state when the storage cannot be read
    and when the stored document fails JSON parsing. *)
Theorem loadData_fails_soft :
  forall (Date_of_string : string -> Date),
    (forall outcome,
        exists v, ApiStorage.loadData Date_of_string outcome = Ok v)
    /\ ApiStorage.loadData Date_of_string ApiStorage.NetworkError
       = Ok empty_state
    /\ (forall status body,
           ApiStorage.loadData Date_of_string
             (ApiStorage.Response false status body) = Ok empty_state)
    /\ (forall ok status raw,
           ApiStorage.loadData Date_of_string
             (ApiStorage.Response ok status (Malformed raw))
           = Ok empty_state)
    /\ (forall stamp ls,
           exists v ls',
             Storage.loadData Date_of_string stamp ls = (Ok v, ls'))
    /\ (forall stamp ls,
           Storage.denied ls = true ->
           exists ls',
             Storage.loadData Date_of_string stamp ls
             = (Ok empty_state, ls'))
    /\ (forall stamp ls raw,
           lookup (Storage.entries ls) Storage.STORAGE_KEY
           = Some (Malformed raw) ->
           exists ls',
             Storage.loadData Date_of_string stamp ls
             = (Ok empty_state, ls')).
Proof.
  intros D.
  split; [|split; [|split; [|split; [|split; [|split]]]]].
  - intros outcome. unfold ApiStorage.loadData.
    apply try_catch_returns. intros _. now exists empty_state.
  - reflexivity.
  - reflexivity.
  - intros [|] status raw; reflexivity.
  - intros stamp ls. unfold Storage.loadData.
    apply tryE_returns. intros _ ls0.
    destruct (loadData_handler_returns stamp ls0) as [ls' E].
    exists empty_state, ls'. exact E.
  - intros stamp ls Hd. unfold Storage.loadData.
    unfold Storage.tryE at 1. unfold Storage.bindE at 1.
    unfold Storage.getItem at 1. rewrite Hd.
    apply loadData_handler_returns.
  - intros stamp ls raw Hraw. unfold Storage.loadData.
    unfold Storage.tryE at 1. unfold Storage.bindE at 1.
    unfold Storage.getItem at 1.
    destruct (Storage.denied ls) eqn:Ed;
      [apply loadData_handler_returns|].
    rewrite Hraw.
    destruct (Storage.empty_text (Malformed raw)) eqn:Ee.
    + exists ls. reflexivity.
    + unfold Storage.bindE at 1. simpl.
      apply loadData_handler_returns.
Qed.

(** ** Export and import *)

(** The run-time object of a state determines the state. *)
Lemma status_text_inj (a b : TaskStatus) :
  status_text a = status_text b -> a = b.
Proof. destruct a, b; simpl; intros H; try reflexivity; discriminate H. Qed.

Lemma value_of_task_inj (t1 t2 : Task.t) :
  value_of_task t1 = value_of_task t2 -> t1 = t2.
Proof.
  destruct t1 as [i1 n1 d1 p1 s1 a1 c1 ca1 cd1].
  destruct t2 as [i2 n2 d2 p2 s2 a2 c2 ca2 cd2].
  unfold value_of_task, value_of_details; simpl.
  destruct a1, a2, ca1, ca2, cd1 as [[h1 g1 m1]|], cd2 as [[h2 g2 m2]|];
    simpl; intros H; injection H; intros; subst;
    try discriminate;
    match goal with
    | Hs : status_text _ = status_text _ |- _ =>
        apply status_text_inj in Hs; subst
    end;
    reflexivity.
Qed.

Lemma value_of_developer_inj (d1 d2 : Developer.t) :
  value_of_developer d1 = value_of_developer d2 -> d1 = d2.
Proof.
  destruct d1, d2. unfold value_of_developer; simpl.
  intros H. injection H. intros. now subst.
Qed.

Lemma map_inj {A B} (f : A -> B) :
  (forall x y, f x = f y -> x = y) ->
  forall xs ys, map f xs = map f ys -> xs = ys.
Proof.
  intros Hf xs. induction xs as [|x xs IH]; intros [|y ys] H;
    try discriminate; [reflexivity|].
  simpl in H. injection H as Hxy Hrest.
  f_equal; [now apply Hf | now apply IH].
Qed.

Lemma value_of_state_inj (s1 s2 : AppState) :
  value_of_state s1 = value_of_state s2 -> s1 = s2.
Proof.
  destruct s1 as [ts1 ds1], s2 as [ts2 ds2].
  unfold value_of_state; simpl. intros H. injection H as Ht Hd.
  apply (map_inj _ value_of_task_inj) in Ht.
  apply (map_inj _ value_of_developer_inj) in Hd.
  now subst.
Qed.

Section RoundTrip.

Variable toISOString : Z -> string.
Variable Date_of_string : string -> Date.

(** The platform's contract for dates: the ISO text of a time value is
    not empty, and [new Date] reads it back as that time value. *)
Hypothesis ISO_not_empty :
  forall ms, time_value ms -> toISOString ms <> "".
Hypothesis ISO_round_trip :
  forall ms, time_value ms -> Date_of_string (toISOString ms) = ValidDate ms.

(** What [JSON.parse(JSON.stringify(v))] followed by [deserializeDates]
    makes of a value. *)
Definition through_the_wire (v : value) : value :=
  deserializeDates Date_of_string
    (value_of_json (json_of_value toISOString v)).

Lemma date_through_the_wire (key : string) (d : Date) :
  date_key key = true ->
  well_formed_date d ->
  match json_of_value toISOString (VDate d) with
  | JString s =>
      (if date_key key && Js.truthy_string s
       then VDate (Date_of_string s) else VString s) = VDate d
  | _ => False
  end.
Proof.
  intros Hk [ms [-> Hms]]. simpl. rewrite Hk. simpl.
  pose proof (ISO_not_empty ms Hms) as Hne.
  apply truthy_string_true in Hne. rewrite Hne.
  now rewrite ISO_round_trip.
Qed.

Lemma details_through_the_wire (d : TaskCompletionDetails.t) :
  through_the_wire (value_of_details d) = value_of_details d.
Proof. reflexivity. Qed.

Lemma task_through_the_wire (t : Task.t) :
  well_formed_task t ->
  through_the_wire (value_of_task t) = value_of_task t.
Proof.
  intros [Hc Hd].
  destruct t as [id name description points status assignedTo createdAt
                 completedAt completionDetails].
  simpl in Hc, Hd.
  pose proof (date_through_the_wire "createdAt" createdAt eq_refl Hc) as Ec.
  unfold through_the_wire, value_of_task. simpl Task.id. simpl Task.name.
  simpl Task.description. simpl Task.points. simpl Task.status.
  simpl Task.assignedTo. simpl Task.createdAt. simpl Task.completedAt.
  simpl Task.completionDetails.
  destruct Hc as [ms [-> Hms]]. simpl in Ec.
  destruct assignedTo as [a|];
    destruct completionDetails as [cd|];
    destruct completedAt as [cdate|];
    try (pose proof (date_through_the_wire "completedAt" cdate eq_refl
                       (Hd cdate eq_refl)) as Ed;
         destruct (Hd cdate eq_refl) as [ms' [-> Hms']]; simpl in Ed);
    simpl; rewrite ?Ec, ?Ed; reflexivity.
Qed.

Lemma developer_through_the_wire (d : Developer.t) :
  through_the_wire (value_of_developer d) = value_of_developer d.
Proof. reflexivity. Qed.

Lemma items_through_the_wire (vs : list value) :
  (forall v, In v vs -> through_the_wire v = v) ->
  map (deserializeDates Date_of_string)
      (map value_of_json (map (json_of_value toISOString) vs))
  = vs.
Proof.
  intros H. rewrite !map_map.
  rewrite <- (map_id vs) at 2. apply map_ext_in.
  intros v Hv. now apply H.
Qed.

(** C6. For every valid state [s], [exportData s] returns a text, and
    [importData] of that text returns, without throwing, the state [s]:
    the same tasks and developers, field by field, each date equal to
    the one it was before it went through its ISO text (the platform's
    contract for dates, [ISO_not_empty] and [ISO_round_trip], is the
    assumption of this section). *)
Theorem export_import_round_trip :
  forall s : AppState,
    valid_state s ->
    exists jsonString,
      ApiStorage.exportData toISOString s = Ok jsonString
      /\ ApiStorage.importData Date_of_string jsonString
         = Ok (value_of_state s).
Proof.
  intros s Hs. eexists. split; [reflexivity|].
  unfold ApiStorage.importData, JSON_stringify. simpl.
  unfold or_empty_array, value_of_state. simpl.
  rewrite !items_through_the_wire; [reflexivity | |].
  - intros v Hv.
    apply in_map_iff in Hv. destruct Hv as [d [<- Hd]].
    apply developer_through_the_wire.
  - intros v Hv.
    apply in_map_iff in Hv. destruct Hv as [t [<- Ht]].
    apply task_through_the_wire.
    exact (proj1 (Forall_forall _ _) Hs t Ht).
Qed.

End RoundTrip.

(** ** The scenarios of the specification and of the test suite, run *)

Section Scenarios.

Local Existing Instance ascii_case_mapping.

Example scenario_create_assign_complete :
  developers scenario_state
  = [Developer.mk "dev-1" "Developer dev" 10%Q 1%Q 5%Q]
  /\ map Task.status (tasks scenario_state) = [completed]
  /\ developers (updateTask "task-1" assign_to_dev_1
                            (addTask fix_bug initialState))
     = [Developer.mk "dev-1" "Developer dev" 0%Q 0%Q 0%Q].
Proof. repeat split; vm_compute; reflexivity. Qed.

Example default_name_first_pattern :
  generateDefaultDeveloperName "auto-dev-123" [] = "Developer auto".
Proof. reflexivity. Qed.

Example default_name_second_pattern :
  generateDefaultDeveloperName "auto-dev-456" ["Developer auto"] = "Dev auto".
Proof. reflexivity. Qed.

Example default_name_numbered :
  generateDefaultDeveloperName
    "auto-dev-9"
    ["developer AUTO"; "dev auto"; "Auto Developer"; "Team Member auto";
     "Developer auto 1"]
  = "Developer auto 2".
Proof. reflexivity. Qed.

Example default_name_without_prefix :
  generateDefaultDeveloperName "-x" [] = "Developer dev".
Proof. reflexivity. Qed.

(** A task that arrives completed credits the record provisioned for
    it, and an empty assignee provisions nobody. *)
Example addTask_completed_credits_newcomer :
  developers (addTask completed_on_arrival initialState)
  = [Developer.mk "unknown-id" "Developer unknown" 10%Q 1%Q 5%Q].
Proof. vm_compute. reflexivity. Qed.

Example addTask_empty_assignee_provisions_nobody :
  developers (addTask task_assigned_to_nobody initialState) = [].
Proof. reflexivity. Qed.

(** The sums are sums of doubles: 0.1 and 0.2 hours make
    0.30000000000000004 hours, which is not the double nearest to 0.3,
    and adding one to 2^53 leaves 2^53. *)
Example hours_are_added_as_doubles :
  map Developer.totalHours
      (developers (addTask (short_task "s-2" double_0_2)
                           state_with_short_tasks))
  = [(1351079888211149 # 4503599627370496)%Q; 0%Q]
  /\ Js.double_add double_0_1 double_0_2 <> double_0_3
  /\ Js.double_add (inject_Z (2 ^ 53)) 1%Q = inject_Z (2 ^ 53).
Proof.
  split; [vm_compute; reflexivity|].
  split; [vm_compute; discriminate | vm_compute; reflexivity].
Qed.

(** [trim] takes the white space of the language off, not only the
    ASCII blanks, and [length] counts code units. *)
Example trim_takes_no_break_spaces :
  Js.trim (no_break_space ++ " abc123" ++ no_break_space)%string
  = "abc123"
  /\ Js.trim no_break_space = ""
  /\ Js.length no_break_space = 1.
Proof. repeat split. Qed.

Example commit_hash_examples :
  commit_hash_test "abc123" = true
  /\ commit_hash_test "ABCDEF0123" = true
  /\ commit_hash_test "xyz" = false
  /\ commit_hash_test "abc12" = false
  /\ Js.trim "  abc123 " = "abc123".
Proof. repeat split. Qed.

Example valid_completion_form :
  validateCompletionForm (CompletionFormData.mk 5%Q " abc123 " "done")
  = mkFormValidationResult true [].
Proof. reflexivity. Qed.

Example empty_patch_changes_nothing (t : Task.t) :
  spread_task t PartialTask.empty = t.
Proof. now destruct t. Qed.

Example corrupted_document_loads_empty :
  fst (Storage.loadData Date_of_decimal_stamp "2024-01-01T00-00-00-000Z"
                        corrupted_storage)
  = Ok empty_state.
Proof. reflexivity. Qed.

Example corrupted_document_is_backed_up :
  Storage.entries
    (snd (Storage.loadData Date_of_decimal_stamp "2024-01-01T00-00-00-000Z"
                           corrupted_storage))
  = [ (Storage.STORAGE_KEY, Malformed "{invalid");
      ("nocena-devs-data-corrupted-2024-01-01T00-00-00-000Z",
       Malformed "{invalid") ].
Proof. reflexivity. Qed.

Example import_rejects_other_shapes :
  ApiStorage.importData Date_of_decimal_stamp
    (Document (JObject [("invalid", JString "structure")]))
  = Throw "Failed to import data: Invalid JSON format"
  /\ ApiStorage.importData Date_of_decimal_stamp (Malformed "invalid json")
     = Throw "Failed to import data: Invalid JSON format".
Proof. split; reflexivity. Qed.

Example scenario_state_round_trip :
  bind (ApiStorage.exportData decimal_stamp scenario_state)
       (ApiStorage.importData Date_of_decimal_stamp)
  = Ok (value_of_state scenario_state).
Proof. vm_compute. reflexivity. Qed.

(** A manual save that fails, in a session that holds a history: the
    next renders load from the server, and with the server out of reach
    the hook is left with the empty state and no message. *)
Example failed_forceSave_empties_the_state :
  Hook.forceSave Date_of_decimal_stamp (Hook.Resolved false) (ValidDate 9)
                 [ApiStorage.NetworkError; ApiStorage.NetworkError]
                 busy_hook
  = (Hook.mk empty_state false None false (Some (ValidDate 5)) 0,
     false, []).
Proof. reflexivity. Qed.

End Scenarios.

(** ** The theorems at concrete inputs *)

Lemma ascii_toLowerCase_app (a b : string) :
  ascii_toLowerCase (a ++ b)
  = (ascii_toLowerCase a ++ ascii_toLowerCase b)%string.
Proof. induction a as [|c a IH]; simpl; [reflexivity | now rewrite IH]. Qed.

Lemma string_app_inv_head (a x y : string) :
  (a ++ x)%string = (a ++ y)%string -> x = y.
Proof. induction a as [|c a IH]; simpl; intros H; [assumption|].
       injection H as H. now apply IH. Qed.

Lemma ascii_toLowerCase_digits (d : Decimal.uint) :
  ascii_toLowerCase (NilEmpty.string_of_uint d) = NilEmpty.string_of_uint d.
Proof. induction d; simpl; try rewrite IHd; reflexivity. Qed.

Lemma string_of_counter_inj (i j : nat) :
  Js.string_of_counter i = Js.string_of_counter j -> i = j.
Proof.
  unfold Js.string_of_counter. intros H.
  apply DecimalNat.Unsigned.to_uint_inj.
  assert (E : Some (Nat.to_uint i) = Some (Nat.to_uint j)).
  { rewrite <- !NilEmpty.usu. now rewrite H. }
  now injection E.
Qed.

(** The stand-in has the property of the platform's mapping: two
    counters give names that differ even when case is ignored. *)
Lemma ascii_keeps_counters :
  lower_case_keeps_counters (casing := ascii_case_mapping).
Proof.
  intros b i j. unfold numbered. simpl Js.toLowerCase.
  rewrite !ascii_toLowerCase_app. intros H.
  apply string_app_inv_head in H. simpl in H. injection H as H.
  unfold Js.string_of_counter in H. rewrite !ascii_toLowerCase_digits in H.
  now apply string_of_counter_inj.
Qed.


Section Witnesses.

Local Existing Instance ascii_case_mapping.

Lemma decimal_stamp_not_empty (ms : Z) :
  time_value ms -> decimal_stamp ms <> "".
Proof. intros _. discriminate. Qed.

Lemma decimal_stamp_round_trip (ms : Z) :
  time_value ms -> Date_of_decimal_stamp (decimal_stamp ms) = ValidDate ms.
Proof.
  intros _. unfold Date_of_decimal_stamp, decimal_stamp.
  rewrite Ascii.eqb_refl, NilEmpty.isi. now rewrite DecimalZ.of_to.
Qed.

Lemma state_with_history_in_sync : aggregates_in_sync state_with_history.
Proof.
  intros D [<-|[]]. repeat split; vm_compute; reflexivity.
Qed.

Lemma state_with_history_valid : valid_state state_with_history.
Proof.
  unfold valid_state, state_with_history; simpl.
  repeat constructor; simpl.
  - exists 0%Z. split; [reflexivity | unfold time_value; lia].
  - intros d [= <-]. exists 1%Z. split; [reflexivity | unfold time_value; lia].
  - exists 0%Z. split; [reflexivity | unfold time_value; lia].
  - intros d [=].
Qed.

Lemma state_with_history_no_dangling :
  no_dangling_assignment state_with_history.
Proof.
  intros t a [<-|[<-|[]]] [= <-] _;
    (eexists; split; [left; reflexivity | reflexivity]).
Qed.

Lemma state_with_two_developers_in_sync :
  aggregates_in_sync state_with_two_developers.
Proof.
  intros D [<-|[<-|[]]]; repeat split; vm_compute; reflexivity.
Qed.

Lemma task_mutations_resync_aggregates_witness :
  aggregates_in_sync (deleteDeveloper "dev-2" state_with_two_developers)
  /\ aggregates_in_sync
       (addTask (short_task "s-2" double_0_2) state_with_short_tasks).
Proof.
  split.
  - apply (proj1 (proj2 (proj2 (proj2 task_mutations_resync_aggregates)))).
    exact state_with_two_developers_in_sync.
  - apply (proj1 task_mutations_resync_aggregates).
Defined.

Lemma addTask_provisions_unknown_assignee_witness :
  provisions_exactly_one state_with_history "unknown-id" task_for_newcomer.
Proof.
  apply addTask_provisions_unknown_assignee.
  - intros [dev [[<-|[]] E]]. discriminate E.
  - reflexivity.
  - discriminate.
  - exact state_with_history_no_dangling.
  - discriminate.
  - exact ascii_keeps_counters.
Defined.

Lemma export_import_round_trip_witness :
  exists jsonString,
    ApiStorage.exportData decimal_stamp state_with_history = Ok jsonString
    /\ ApiStorage.importData Date_of_decimal_stamp jsonString
       = Ok (value_of_state state_with_history).
Proof.
  apply (export_import_round_trip decimal_stamp Date_of_decimal_stamp).
  - exact decimal_stamp_not_empty.
  - exact decimal_stamp_round_trip.
  - exact state_with_history_valid.
Defined.

Lemma loadData_fails_soft_witness :
  exists ls',
    Storage.loadData Date_of_decimal_stamp "2024-01-01T00-00-00-000Z"
                     corrupted_storage
    = (Ok empty_state, ls').
Proof.
  apply (proj2 (proj2 (proj2 (proj2 (proj2 (proj2
           (loadData_fails_soft Date_of_decimal_stamp)))))))
    with (raw := "{invalid").
  reflexivity.
Defined.

Lemma reachable_ids_distinct_witness :
  distinct_developer_ids team_state /\ distinct_task_ids team_state.
Proof.
  split.
  - apply (proj1 reachable_ids_distinct).
    unfold team_state. do 4 apply reachable_step. apply reachable_initial.
  - apply (proj2 reachable_ids_distinct).
    unfold team_state.
    apply keeping_step; [|reflexivity].
    apply keeping_step; [|exact I].
    apply keeping_step;
      [|simpl; intros [H|[]]; discriminate H].
    apply keeping_step; [apply keeping_initial|].
    simpl. tauto.
Defined.

Lemma failed_save_reloads_the_state_witness :
  exists loaded,
    ApiStorage.loadData Date_of_decimal_stamp ApiStorage.NetworkError
    = Ok loaded
    /\ Hook.forceSave Date_of_decimal_stamp (Hook.Resolved false)
                      (ValidDate 9)
                      [ApiStorage.NetworkError; ApiStorage.NetworkError]
                      worn_hook
       = (Hook.mk loaded false None false (Some (ValidDate 5)) 3, false, [])
    /\ Hook.saveFunction Date_of_decimal_stamp
                         (value_of_state state_with_history)
                         (Hook.Resolved false) (ValidDate 9) []
                         [ApiStorage.NetworkError; ApiStorage.NetworkError]
                         worn_hook
       = (Hook.mk loaded false None false (Some (ValidDate 5)) 4, None, [])
    /\ Hook.retrySave Date_of_decimal_stamp
                      (value_of_state state_with_history)
                      (Hook.Resolved false) (ValidDate 9)
                      [ApiStorage.NetworkError; ApiStorage.NetworkError]
                      worn_hook
       = (Hook.mk loaded false None false (Some (ValidDate 5)) 3, []).
Proof.
  destruct (failed_save_reloads_the_state
              Date_of_decimal_stamp worn_hook (Hook.Resolved false)
              (ValidDate 9) (value_of_state state_with_history)
              ApiStorage.NetworkError ApiStorage.NetworkError)
    as [loaded [Hl [Hf Hs]]]; [discriminate | reflexivity |].
  exists loaded. split; [exact Hl|]. split; [exact Hf|].
  apply Hs. unfold Hook.maxRetries. simpl. lia.
Defined.

End Witnesses.

(* ================================================================== *)
(** * Further properties of the reconciler *)
(* ================================================================== *)

Section ReconcilerProperties.

Context {casing : Js.CaseMapping}.

(** ** Task mutations *)

Lemma spread_task_empty (t : Task.t) : spread_task t PartialTask.empty = t.
Proof. now destruct t. Qed.

Lemma map_on_absent_id (f : Task.t -> Task.t) (taskId : string)
      (ts : list Task.t) :
  ~ In taskId (map Task.id ts) ->
  map (fun task => if String.eqb (Task.id task) taskId then f task else task)
      ts = ts.
Proof.
  induction ts as [|t ts IH]; simpl; intros H; [reflexivity|].
  destruct (String.eqb (Task.id t) taskId) eqn:E.
  - apply String.eqb_eq in E. exfalso. apply H. now left.
  - f_equal. apply IH. intros Hin. apply H. now right.
Qed.

(** An [updateTask] with the empty patch, or for an id no task has,
    leaves the task list as it is; what it still does is refresh the
    developer records from the unchanged tasks. *)
Theorem updateTask_without_target_keeps_tasks :
  forall (taskId : string) (updates : PartialTask.t) (s : AppState),
    updates = PartialTask.empty \/ ~ In taskId (map Task.id (tasks s)) ->
    updateTask taskId updates s
    = mkAppState (tasks s)
                 (updateDeveloperStats (tasks s) (developers s)).
Proof.
  intros taskId updates s H. unfold updateTask.
  assert (E : map (fun task =>
                     if String.eqb (Task.id task) taskId
                     then spread_task task updates else task) (tasks s)
              = tasks s).
  { destruct H as [->|H].
    - rewrite <- (map_id (tasks s)) at 2. apply map_ext.
      intros t. destruct (String.eqb _ _); [apply spread_task_empty|reflexivity].
    - now apply map_on_absent_id. }
  now rewrite E.
Qed.

Lemma filter_out_absent_id (taskId : string) (ts : list Task.t) :
  ~ In taskId (map Task.id ts) ->
  filter (fun task => negb (String.eqb (Task.id task) taskId)) ts = ts.
Proof.
  induction ts as [|t ts IH]; simpl; intros H; [reflexivity|].
  destruct (String.eqb (Task.id t) taskId) eqn:E; simpl.
  - apply String.eqb_eq in E. exfalso. apply H. now left.
  - f_equal. apply IH. intros Hin. apply H. now right.
Qed.

Lemma filter_out_present_id (taskId : string) (ts : list Task.t) :
  NoDup (map Task.id ts) ->
  In taskId (map Task.id ts) ->
  S (List.length
       (filter (fun task => negb (String.eqb (Task.id task) taskId)) ts))
  = List.length ts.
Proof.
  induction ts as [|t ts IH]; simpl; intros Hnd Hin; [contradiction|].
  inversion Hnd as [|? ? Hfresh Hrest]; subst.
  destruct (String.eqb (Task.id t) taskId) eqn:E; simpl.
  - apply String.eqb_eq in E. subst taskId.
    now rewrite filter_out_absent_id.
  - f_equal. apply IH; [assumption|].
    destruct Hin as [Hin|Hin]; [|assumption].
    apply String.eqb_neq in E. contradiction.
Qed.

(** [deleteTask] removes every task that has the id and keeps the
    others.  Where the task ids are pairwise distinct and one of them is
    the id, the list gets shorter by exactly one; where no task has the
    id, the task list stays as it is. *)
Theorem deleteTask_removes_by_id :
  forall (taskId : string) (s : AppState),
    (forall t, In t (tasks (deleteTask taskId s)) <->
               In t (tasks s) /\ Task.id t <> taskId)
    /\ (distinct_task_ids s -> In taskId (map Task.id (tasks s)) ->
        S (List.length (tasks (deleteTask taskId s)))
        = List.length (tasks s))
    /\ (~ In taskId (map Task.id (tasks s)) ->
        tasks (deleteTask taskId s) = tasks s).
Proof.
  intros taskId s. unfold deleteTask; simpl. split; [|split].
  - intros t. rewrite filter_In, negb_true_iff, String.eqb_neq. tauto.
  - apply filter_out_present_id.
  - apply filter_out_absent_id.
Qed.

(** ** The developer records as a store *)

Lemma find_assign_index (devs : list Developer.t) (developer : Developer.t)
      (i : nat) (e : string) :
  Js.findIndex (fun dev =>
                  String.eqb (Developer.id dev) (Developer.id developer))
               devs = Some i ->
  find (fun dev => String.eqb (Developer.id dev) e)
       (Js.assign_index devs i developer)
  = if String.eqb (Developer.id developer) e then Some developer
    else find (fun dev => String.eqb (Developer.id dev) e) devs.
Proof.
  revert i. induction devs as [|x devs IH]; intros i; simpl; [discriminate|].
  destruct (String.eqb (Developer.id x) (Developer.id developer)) eqn:Ex.
  - intros [= <-]. simpl. apply String.eqb_eq in Ex. rewrite Ex.
    now destruct (String.eqb (Developer.id developer) e).
  - destruct (Js.findIndex _ devs) as [j|]; simpl; [|discriminate].
    intros [= <-]. simpl. rewrite (IH j eq_refl).
    destruct (String.eqb (Developer.id x) e) eqn:Exe; [|reflexivity].
    apply String.eqb_eq in Exe. subst e.
    destruct (String.eqb (Developer.id developer) (Developer.id x)) eqn:E2;
      [|reflexivity].
    apply String.eqb_eq in E2. rewrite E2, String.eqb_refl in Ex.
    discriminate.
Qed.

Lemma find_snoc (devs : list Developer.t) (developer : Developer.t)
      (e : string) :
  find (fun dev => String.eqb (Developer.id dev) e) (devs ++ [developer])
  = match find (fun dev => String.eqb (Developer.id dev) e) devs with
    | Some old => Some old
    | None => if String.eqb (Developer.id developer) e then Some developer
              else None
    end.
Proof.
  induction devs as [|x devs IH]; simpl; [reflexivity|].
  now destruct (String.eqb (Developer.id x) e).
Qed.

Lemma findIndex_None_find (devs : list Developer.t) (a : string) :
  Js.findIndex (fun dev => String.eqb (Developer.id dev) a) devs = None <->
  find (fun dev => String.eqb (Developer.id dev) a) devs = None.
Proof.
  induction devs as [|x devs IH]; simpl; [tauto|].
  destruct (String.eqb (Developer.id x) a); [split; discriminate|].
  destruct (Js.findIndex _ devs); simpl.
  - split; [discriminate|]. intros H. apply IH in H. discriminate.
  - split; [intros _; now apply IH | reflexivity].
Qed.

Lemma has_developer_find (devs : list Developer.t) (a : string) :
  has_developer devs a
  = match find (fun dev => String.eqb (Developer.id dev) a) devs with
    | Some _ => true
    | None => false
    end.
Proof.
  unfold has_developer. induction devs as [|x devs IH]; simpl; [reflexivity|].
  now destruct (String.eqb (Developer.id x) a).
Qed.

Lemma find_filter_other (devs : list Developer.t) (d e : string) :
  find (fun dev => String.eqb (Developer.id dev) e)
       (filter (fun dev => negb (String.eqb (Developer.id dev) d)) devs)
  = if String.eqb d e then None
    else find (fun dev => String.eqb (Developer.id dev) e) devs.
Proof.
  induction devs as [|x devs IH]; simpl; [now destruct (String.eqb d e)|].
  destruct (String.eqb (Developer.id x) d) eqn:Exd; simpl.
  - rewrite IH. destruct (String.eqb d e) eqn:Ede; [reflexivity|].
    apply String.eqb_eq in Exd. rewrite Exd, Ede. reflexivity.
  - destruct (String.eqb (Developer.id x) e) eqn:Exe; [|exact IH].
    destruct (String.eqb d e) eqn:Ede; [|reflexivity].
    apply String.eqb_eq in Ede, Exe. subst.
    rewrite String.eqb_refl in Exd. discriminate.
Qed.

(** What [getDeveloperById] finds after a developer mutation.
    [updateDeveloper] is an upsert: the record it was given is found
    under its id.  [addDeveloper] only inserts: a record already found
    under the id stays, and the state is then returned as it is.
    [deleteDeveloper] leaves nothing under the id.  In each case the
    records under other ids are found as before, and [addDeveloper] and
    [updateDeveloper] leave the tasks alone. *)
Theorem developer_lookup_after_mutation :
  forall (developer : Developer.t) (e : string) (s : AppState),
    getDeveloperById (Developer.id developer) (updateDeveloper developer s)
    = Some developer
    /\ getDeveloperById (Developer.id developer) (addDeveloper developer s)
       = match getDeveloperById (Developer.id developer) s with
         | Some old => Some old
         | None => Some developer
         end
    /\ (known_developer s (Developer.id developer) ->
        addDeveloper developer s = s)
    /\ getDeveloperById e (deleteDeveloper e s) = None
    /\ (e <> Developer.id developer ->
        getDeveloperById e (updateDeveloper developer s)
        = getDeveloperById e s
        /\ getDeveloperById e (addDeveloper developer s)
           = getDeveloperById e s
        /\ getDeveloperById e (deleteDeveloper (Developer.id developer) s)
           = getDeveloperById e s)
    /\ tasks (updateDeveloper developer s) = tasks s
    /\ tasks (addDeveloper developer s) = tasks s.
Proof.
  intros developer e s.
  assert (Hupd : forall x,
    getDeveloperById x (updateDeveloper developer s)
    = if String.eqb (Developer.id developer) x
      then match Js.findIndex
                   (fun dev => String.eqb (Developer.id dev)
                                          (Developer.id developer))
                   (developers s) with
           | Some _ => Some developer
           | None => match getDeveloperById x s with
                     | Some old => Some old
                     | None => Some developer
                     end
           end
      else getDeveloperById x s).
  { intros x. unfold getDeveloperById, updateDeveloper; simpl.
    destruct (Js.findIndex _ (developers s)) as [i|] eqn:Ei.
    - rewrite (find_assign_index _ _ _ x Ei).
      now destruct (String.eqb (Developer.id developer) x).
    - rewrite find_snoc.
      destruct (String.eqb (Developer.id developer) x);
        now destruct (find _ (developers s)). }
  assert (Hadd : forall x,
    getDeveloperById x (addDeveloper developer s)
    = match getDeveloperById x s with
      | Some old => Some old
      | None => if String.eqb (Developer.id developer) x
                then match getDeveloperById (Developer.id developer) s with
                     | Some _ => None
                     | None => Some developer
                     end
                else None
      end).
  { intros x. unfold getDeveloperById, addDeveloper.
    rewrite has_developer_find.
    set (own := find (fun dev => String.eqb (Developer.id dev)
                                            (Developer.id developer))
                     (developers s)).
    assert (Eown : own = find (fun dev => String.eqb (Developer.id dev)
                                                     (Developer.id developer))
                              (developers s)) by reflexivity.
    destruct own as [old|].
    - destruct (find (fun dev => String.eqb (Developer.id dev) x)
                     (developers s)) eqn:Ex; [reflexivity|].
      destruct (String.eqb (Developer.id developer) x) eqn:E; [|reflexivity].
      apply String.eqb_eq in E. subst x. congruence.
    - simpl. rewrite find_snoc.
      destruct (find (fun dev => String.eqb (Developer.id dev) x)
                     (developers s)); reflexivity. }
  split; [|split; [|split; [|split; [|split; [|split]]]]].
  - rewrite Hupd, String.eqb_refl.
    destruct (Js.findIndex _ (developers s)) eqn:Ei; [reflexivity|].
    apply findIndex_None_find in Ei. unfold getDeveloperById. now rewrite Ei.
  - rewrite Hadd, String.eqb_refl.
    now destruct (getDeveloperById (Developer.id developer) s).
  - intros Hk. unfold addDeveloper.
    rewrite known_developer_ids in Hk. apply has_developer_true in Hk.
    now rewrite Hk.
  - unfold getDeveloperById, deleteDeveloper; simpl.
    now rewrite find_filter_other, String.eqb_refl.
  - intros Hne.
    assert (E : String.eqb (Developer.id developer) e = false).
    { apply String.eqb_neq. congruence. }
    split; [|split].
    + now rewrite Hupd, E.
    + rewrite Hadd, E. now destruct (getDeveloperById e s).
    + unfold getDeveloperById, deleteDeveloper; simpl.
      now rewrite find_filter_other, E.
  - reflexivity.
  - unfold addDeveloper. now destruct (has_developer _ _).
Qed.

(** ** Assignments and developer records *)

Lemma provision_ids (ts : list Task.t) (devs : list Developer.t)
      (x a : string) :
  In a (map Developer.id (provision ts devs x)) <->
  In a (map Developer.id devs) \/ a = x.
Proof.
  unfold provision, push.
  destruct (has_developer devs x) eqn:E; simpl.
  - apply has_developer_true in E. split; [tauto|].
    intros [H| ->]; assumption.
  - rewrite map_app, in_app_iff. simpl. intuition congruence.
Qed.

Lemma fold_provision_ids (ts : list Task.t) (ids : list string) :
  forall (devs : list Developer.t) (a : string),
    In a (map Developer.id (fold_left (provision ts) ids devs)) <->
    In a (map Developer.id devs) \/ In a ids.
Proof.
  induction ids as [|x ids IH]; intros devs a; simpl; [tauto|].
  rewrite IH, provision_ids. intuition congruence.
Qed.

Lemma updateDeveloperStats_ids (ts : list Task.t) (devs : list Developer.t)
      (a : string) :
  In a (map Developer.id (updateDeveloperStats ts devs)) <->
  In a (map Developer.id devs)
  \/ exists t, In t ts /\ Task.assignedTo t = Some a /\ a <> "".
Proof.
  unfold updateDeveloperStats.
  rewrite fold_provision_ids, set_stats_ids, Set_from_In,
    truthy_assignment_In.
  tauto.
Qed.

(** After [updateDeveloperStats] every non-empty assignee has a record. *)
Lemma refreshed_state_no_dangling (ts : list Task.t)
      (devs : list Developer.t) :
  no_dangling_assignment (mkAppState ts (updateDeveloperStats ts devs)).
Proof.
  intros t a Ht Ha Hne. apply known_developer_ids. simpl.
  apply updateDeveloperStats_ids. right. now exists t.
Qed.

(** On a state without dangling assignments the sweep finds nothing to
    do and hands the state back. *)
Lemma sweep_without_dangling (s : AppState) :
  no_dangling_assignment s -> validateAndCleanup s = s.
Proof.
  intros H. rewrite validateAndCleanup_map.
  destruct s as [ts ds]. f_equal. simpl.
  rewrite <- (map_id ts) at 2. apply map_ext_in. intros t Ht.
  destruct (orphaned _ t) eqn:E; [|reflexivity].
  apply (orphaned_true (mkAppState ts ds)) in E.
  destruct E as [a [Ha [Hne Hno]]]. exfalso. apply Hno.
  exact (H t a Ht Ha Hne).
Qed.

Lemma sweep_leaves_no_dangling (s : AppState) :
  no_dangling_assignment (validateAndCleanup s).
Proof.
  rewrite validateAndCleanup_map. intros t' a Ht' Ha Hne. simpl in Ht'.
  apply in_map_iff in Ht'. destruct Ht' as [t [<- Ht]].
  destruct (orphaned _ t) eqn:E; [discriminate Ha|].
  apply known_developer_ids. simpl.
  unfold orphaned, assignedTo_truthy, assignedTo_nonnull in E.
  rewrite Ha in E. apply truthy_string_true in Hne. rewrite Hne in E.
  simpl in E. apply negb_false_iff in E.
  apply (proj1 (Set_has_true _ _)) in E.
  now apply (proj1 (Set_from_In _ _)) in E.
Qed.

(** After [addTask], [updateTask] and [deleteTask] every task whose
    [assignedTo] is a non-empty string names a developer record of the
    state, so a sweep that follows finds nothing to reset. *)
Theorem task_mutations_leave_no_orphan :
  forall (m : Mutation) (s : AppState),
    task_mutation m ->
    no_dangling_assignment (apply_mutation m s)
    /\ validateAndCleanup (apply_mutation m s) = apply_mutation m s.
Proof.
  intros m s Hm.
  assert (H : no_dangling_assignment (apply_mutation m s)).
  { destruct m; simpl in Hm; try contradiction; simpl;
      apply refreshed_state_no_dangling. }
  split; [exact H | now apply sweep_without_dangling].
Qed.

(** After a run of the sweep no task is left with a non-empty
    assignment that names no developer record; a second run changes
    nothing, and so does any number of further runs. *)
Theorem sweep_is_idempotent :
  forall (s : AppState) (n : nat),
    no_dangling_assignment (validateAndCleanup s)
    /\ validateAndCleanup (validateAndCleanup s) = validateAndCleanup s
    /\ sweeps (S n) s = validateAndCleanup s.
Proof.
  intros s n.
  pose proof (sweep_leaves_no_dangling s) as H.
  split; [exact H|]. split; [now apply sweep_without_dangling|].
  simpl. induction n as [|n IH]; simpl; [reflexivity|].
  now rewrite sweep_without_dangling.
Qed.




(** ** Developer names *)

Lemma provision_names_distinct (ts : list Task.t) (devs : list Developer.t)
      (x : string) :
  lower_case_keeps_counters ->
  names_distinct devs -> names_distinct (provision ts devs x).
Proof.
  unfold names_distinct, provision, push. intros Hcounters H.
  destruct (has_developer devs x); simpl; [assumption|].
  rewrite map_app. simpl. apply NoDup_snoc; [assumption|].
  pose proof (generateDefaultDeveloperName_free
                x (map Developer.name devs) Hcounters) as Hfree.
  intros Hin.
  assert (Ht : name_taken (map Developer.name devs)
                 (generateDefaultDeveloperName x (map Developer.name devs))
               = true).
  { apply name_taken_true. now rewrite map_map. }
  congruence.
Qed.

Lemma fold_provision_names_distinct (ts : list Task.t) (ids : list string) :
  lower_case_keeps_counters ->
  forall devs, names_distinct devs ->
               names_distinct (fold_left (provision ts) ids devs).
Proof.
  intros Hcounters.
  induction ids as [|a ids IH]; intros l Hl; simpl; [assumption|].
  apply IH. now apply provision_names_distinct.
Qed.

Lemma nth_error_In_lt {A} (l : list A) (j : nat) (x : A) :
  nth_error l j = Some x -> (j < List.length l)%nat.
Proof. intros H. apply nth_error_Some. congruence. Qed.

(** The records a run of the second loop pushes stand behind the ones
    that were there, and each bears a name none before it has. *)
Lemma fold_provision_fresh (ts : list Task.t) (ids : list string) :
  lower_case_keeps_counters ->
  forall devs,
    exists provisioned,
      fold_left (provision ts) ids devs = devs ++ provisioned
      /\ fresh_names_from (List.length devs)
                          (fold_left (provision ts) ids devs).
Proof.
  intros Hcounters.
  induction ids as [|x ids IH]; intros devs; simpl.
  - exists []. split; [now rewrite app_nil_r|].
    intros i j D D' Hi Hj HD _. apply nth_error_In_lt in HD. lia.
  - unfold provision at 2 4. unfold push.
    destruct (has_developer devs x) eqn:Ehas; simpl; [apply IH|].
    set (nd := Developer.mk x _ _ _ _).
    destruct (IH (devs ++ [nd])) as [more [E Hfresh]].
    exists (nd :: more). split; [now rewrite E, <- app_assoc|].
    intros i j D D' Hi Hj HD HD'.
    destruct (Nat.eq_dec i (List.length devs)) as [->|Hne].
    + rewrite E, <- app_assoc in HD, HD'. simpl in HD, HD'.
      rewrite nth_error_app2 in HD by lia.
      rewrite Nat.sub_diag in HD. simpl in HD. injection HD as <-.
      rewrite nth_error_app1 in HD' by lia.
      apply nth_error_In in HD'.
      pose proof (generateDefaultDeveloperName_free
                    x (map Developer.name devs) Hcounters) as Hfree.
      intros Heq.
      assert (Ht : name_taken (map Developer.name devs)
                     (generateDefaultDeveloperName
                        x (map Developer.name devs)) = true).
      { apply name_taken_true. simpl in Heq. rewrite <- Heq.
        apply in_map. now apply in_map. }
      congruence.
    + apply (Hfresh i j D D'); try assumption.
      rewrite length_app. simpl. lia.
Qed.

(** [updateDeveloperStats] keeps the records that were there, with
    their ids and their names and in their order, and pushes the
    records it provisions behind them; every provisioned record gets a
    name that differs, whatever the case of the letters, from the name
    of every record before it.  So developer names that differed
    pairwise, case ignored, still do.  (The platform's [toLowerCase] is
    taken to leave the counter of a numbered name in place,
    [lower_case_keeps_counters].) *)
Theorem provisioning_keeps_names_distinct :
  forall (ts : list Task.t) (devs : list Developer.t),
    lower_case_keeps_counters ->
    (exists kept provisioned,
        updateDeveloperStats ts devs = kept ++ provisioned
        /\ map Developer.id kept = map Developer.id devs
        /\ map Developer.name kept = map Developer.name devs)
    /\ fresh_names_from (List.length devs) (updateDeveloperStats ts devs)
    /\ (names_distinct devs ->
        names_distinct (updateDeveloperStats ts devs)).
Proof.
  intros ts devs Hcounters. unfold updateDeveloperStats.
  set (refreshed := map (fun dev =>
                           set_stats dev
                             (calculateDeveloperStats ts (Developer.id dev)))
                        devs).
  assert (Hnames : map Developer.name refreshed = map Developer.name devs).
  { unfold refreshed. rewrite map_map. now apply map_ext. }
  destruct (fold_provision_fresh
              ts (Js.Set_from (map assignedTo_nonnull
                                   (filter assignedTo_truthy ts)))
              Hcounters refreshed) as [provisioned [E Hfresh]].
  split; [|split].
  - exists refreshed, provisioned. split; [exact E|].
    split; [apply set_stats_ids | exact Hnames].
  - unfold refreshed in Hfresh at 1. now rewrite length_map in Hfresh.
  - intros H. apply fold_provision_names_distinct; [assumption|].
    unfold names_distinct in *.
    assert (Hl : map (fun dev => Js.toLowerCase (Developer.name dev))
                     refreshed
                 = map (fun dev => Js.toLowerCase (Developer.name dev))
                       devs).
    { rewrite <- (map_map Developer.name Js.toLowerCase refreshed).
      rewrite <- (map_map Developer.name Js.toLowerCase devs).
      now rewrite Hnames. }
    now rewrite Hl.
Qed.

Lemma same_key_same_item {A B} (f : A -> B) (l : list A) (x y : A) :
  NoDup (map f l) -> In x l -> In y l -> f x = f y -> x = y.
Proof.
  induction l as [|z l IH]; simpl; intros Hnd Hx Hy E; [contradiction|].
  inversion Hnd as [|? ? Hfresh Hrest]; subst.
  destruct Hx as [->|Hx], Hy as [->|Hy]; auto.
  - exfalso. apply Hfresh. rewrite E. now apply in_map.
  - exfalso. apply Hfresh. rewrite <- E. now apply in_map.
Qed.

(** [isDeveloperNameAvailable] compares lower-case forms and nothing
    else: two names with the same lower-case form get the same answer,
    and without an excluded id a name is available exactly when no
    record bears a name with its lower-case form.  Where the names of
    the records differ pairwise, case ignored, the name of a record is
    taken, and is available again once that record's id is excluded. *)
Theorem isDeveloperNameAvailable_ignores_case :
  forall (name : string) (excludeId : option string) (s : AppState),
    (forall other,
        Js.toLowerCase other = Js.toLowerCase name ->
        isDeveloperNameAvailable other excludeId s
        = isDeveloperNameAvailable name excludeId s)
    /\ (isDeveloperNameAvailable name None s = true <->
        forall dev, In dev (developers s) ->
                    Js.toLowerCase (Developer.name dev)
                    <> Js.toLowerCase name)
    /\ (names_distinct (developers s) ->
        forall D, In D (developers s) ->
          isDeveloperNameAvailable (Developer.name D) None s = false
          /\ isDeveloperNameAvailable (Developer.name D)
                                      (Some (Developer.id D)) s = true).
Proof.
  intros name excludeId s. unfold isDeveloperNameAvailable.
  split; [|split].
  - intros other E. now rewrite E.
  - rewrite negb_true_iff. split.
    + intros H dev Hdev E.
      assert (Ht : existsb (fun dev0 =>
                      String.eqb (Js.toLowerCase (Developer.name dev0))
                                 (Js.toLowerCase name)
                      && id_is_not dev0 None) (developers s) = true).
      { apply existsb_exists. exists dev. split; [assumption|].
        simpl. rewrite andb_true_r. now apply String.eqb_eq. }
      congruence.
    + intros H. destruct (existsb _ (developers s)) eqn:E; [|reflexivity].
      apply existsb_exists in E. destruct E as [dev [Hdev E]].
      apply andb_true_iff in E. destruct E as [E _].
      apply String.eqb_eq in E. exfalso. exact (H dev Hdev E).
  - intros Hnd D HD. split.
    + apply negb_false_iff, existsb_exists. exists D.
      split; [assumption|]. simpl. now rewrite String.eqb_refl.
    + apply negb_true_iff.
      destruct (existsb _ (developers s)) eqn:E; [|reflexivity].
      apply existsb_exists in E. destruct E as [dev [Hdev E]].
      apply andb_true_iff in E. destruct E as [E1 E2].
      apply String.eqb_eq in E1.
      assert (dev = D)
        by exact (same_key_same_item _ _ dev D Hnd Hdev HD E1).
      subst dev. simpl in E2. now rewrite String.eqb_refl in E2.
Qed.

(** The name [generateDefaultDeveloperName] returns for the names of the
    current records is one [isDeveloperNameAvailable] accepts: the
    search through the patterns and the numbered names always ends on a
    free name, given that the platform's [toLowerCase] leaves the
    counter of a numbered name in place. *)
Theorem generated_name_is_available :
  forall (developerId : string) (s : AppState),
    lower_case_keeps_counters ->
    isDeveloperNameAvailable
      (generateDefaultDeveloperName
         developerId (map Developer.name (developers s)))
      None s = true.
Proof.
  intros developerId s Hcounters.
  pose proof (generateDefaultDeveloperName_free
                developerId (map Developer.name (developers s)) Hcounters)
    as Hfree.
  unfold isDeveloperNameAvailable. apply negb_true_iff.
  destruct (existsb _ (developers s)) eqn:E; [|reflexivity].
  apply existsb_exists in E. destruct E as [dev [Hdev E]].
  apply andb_true_iff in E. destruct E as [E _].
  apply String.eqb_eq in E.
  assert (Ht : name_taken (map Developer.name (developers s))
                 (generateDefaultDeveloperName
                    developerId (map Developer.name (developers s)))
               = true).
  { apply name_taken_true. rewrite <- E. apply in_map. now apply in_map. }
  congruence.
Qed.

(** ** The columns *)

Lemma status_split (ts : list Task.t) :
  (List.length (filter (fun t => TaskStatus_eqb (Task.status t) backlog) ts)
   + List.length (filter (fun t => TaskStatus_eqb (Task.status t) assigned) ts)
   + List.length (filter (fun t => TaskStatus_eqb (Task.status t) completed) ts)
   = List.length ts)%nat.
Proof.
  induction ts as [|t ts IH]; simpl; [reflexivity|].
  destruct (Task.status t); simpl; lia.
Qed.

(** The three status lists split the tasks: their lengths add up to the
    number of tasks.  After [deleteDeveloper d] the tasks listed for [d]
    are all completed ones, and every task of [d] that was not completed
    is listed in the backlog, reset. *)
Theorem columns_after_deleteDeveloper :
  forall (s : AppState) (d : string),
    (List.length (getTasksByStatus backlog s)
     + List.length (getTasksByStatus assigned s)
     + List.length (getTasksByStatus completed s)
     = List.length (tasks s))%nat
    /\ (forall t, In t (getTasksByDeveloper d (deleteDeveloper d s)) ->
                  Task.status t = completed)
    /\ (forall t, In t (tasks s) -> Task.assignedTo t = Some d ->
                  Task.status t <> completed ->
                  exists t', In t' (getTasksByStatus backlog
                                      (deleteDeveloper d s))
                             /\ reset_of t t').
Proof.
  intros s d. split; [apply status_split | split].
  - intros t Ht. unfold getTasksByDeveloper, deleteDeveloper in Ht.
    simpl in Ht. apply filter_In in Ht. destruct Ht as [Ht Ha].
    apply in_map_iff in Ht. destruct Ht as [t0 [E Ht0]].
    destruct (assignedTo_is t0 d
              && negb (TaskStatus_eqb (Task.status t0) completed)) eqn:Ec.
    + subst t. discriminate Ha.
    + subst t0. rewrite Ha in Ec. simpl in Ec.
      apply negb_false_iff in Ec. now apply TaskStatus_eqb_true.
  - intros t Ht Ha Hs. exists (to_backlog t).
    split; [|apply to_backlog_reset].
    unfold getTasksByStatus, deleteDeveloper; simpl.
    apply filter_In. split; [|reflexivity].
    apply in_map_iff. exists t. split; [|assumption].
    apply assignedTo_is_true in Ha. rewrite Ha.
    destruct (TaskStatus_eqb (Task.status t) completed) eqn:E;
      [|reflexivity].
    apply TaskStatus_eqb_true in E. contradiction.
Qed.

End ReconcilerProperties.

(* ================================================================== *)
(** * Further properties of [utils.ts] *)
(* ================================================================== *)

Lemma isInteger_true (x : Q) :
  isInteger x = true <-> exists n : Z, (x == inject_Z n)%Q.
Proof.
  unfold isInteger. destruct x as [a b]. simpl.
  rewrite Z.eqb_eq. unfold Qeq. simpl. split.
  - intros H. apply Z.mod_divide in H; [|discriminate].
    destruct H as [n Hn]. exists n. rewrite Z.mul_1_r. exact Hn.
  - intros [n Hn]. rewrite Z.mul_1_r in Hn. subst a.
    apply Z.mod_mul. discriminate.
Qed.

(** The fields the errors of the task form name, in the order they are
    pushed. *)
Lemma validateTaskForm_fields (d : TaskFormData.t) :
  map field (errors (validateTaskForm d))
  = (if Js.truthy_string (Js.trim (TaskFormData.name d))
     then [] else ["name"])
    ++ (if Js.truthy_string (Js.trim (TaskFormData.description d))
        then [] else ["description"])
    ++ (if Js.number_le_0 (TaskFormData.points d) then ["points"] else [])
    ++ (if isInteger (TaskFormData.points d) then [] else ["points"]).
Proof.
  unfold validateTaskForm, push.
  destruct (Js.truthy_string (Js.trim (TaskFormData.name d)));
    destruct (Js.truthy_string (Js.trim (TaskFormData.description d)));
    destruct (Js.number_le_0 (TaskFormData.points d));
    destruct (isInteger (TaskFormData.points d)); reflexivity.
Qed.

(** [validateTaskForm d] is valid exactly when the trimmed name and the
    trimmed description are not empty and the points are a positive
    whole number.  Every error names one of the three fields, and
    points that are both non-positive and fractional get two errors.
    Trimming takes the white space of the language away, so a name
    that is a no-break space counts as missing. *)
Theorem validateTaskForm_accepts_positive_whole_points :
  forall d : TaskFormData.t,
    let r := validateTaskForm d in
    (isValid r = true <->
     Js.trim (TaskFormData.name d) <> ""
     /\ Js.trim (TaskFormData.description d) <> ""
     /\ exists n : positive,
          (TaskFormData.points d == inject_Z (Z.pos n))%Q)
    /\ (forall f, In f (map field (errors r)) ->
                  f = "name" \/ f = "description" \/ f = "points")
    /\ ((TaskFormData.points d <= 0)%Q ->
        isInteger (TaskFormData.points d) = false ->
        count_occ string_dec (map field (errors r)) "points" = 2%nat)
    /\ validateTaskForm (TaskFormData.mk no_break_space "Write docs" 3%Q)
       = mkFormValidationResult
           false [mkValidationError "name" "Task name is required"].
Proof.
  intros d r. subst r.
  pose proof (validateTaskForm_fields d) as Hf.
  assert (Hv : isValid (validateTaskForm d)
               = Nat.eqb (List.length
                            (map field (errors (validateTaskForm d)))) 0)
    by (rewrite length_map; reflexivity).
  rewrite Hf in Hv. rewrite Hf.
  pose proof (truthy_string_true (Js.trim (TaskFormData.name d))) as Hn.
  pose proof (truthy_string_true (Js.trim (TaskFormData.description d)))
    as Hd.
  pose proof (isInteger_true (TaskFormData.points d)) as Hi.
  split; [|split; [|split; [|reflexivity]]].
  - rewrite Hv.
    destruct (Js.truthy_string (Js.trim (TaskFormData.name d)));
      [|simpl; split; [discriminate | intros [H _]; now apply Hn in H]].
    destruct (Js.truthy_string (Js.trim (TaskFormData.description d)));
      [|simpl; split; [discriminate | intros [_ [H _]]; now apply Hd in H]].
    destruct (Js.number_le_0 (TaskFormData.points d)) eqn:El;
      [apply number_le_0_true in El | apply number_le_0_false in El].
    + simpl. split; [now destruct (isInteger _)|].
      intros [_ [_ [n Hpos]]]. exfalso. apply El. rewrite Hpos.
      reflexivity.
    + destruct (isInteger (TaskFormData.points d)); simpl.
      * split; [intros _ | reflexivity].
        split; [now apply Hn | split; [now apply Hd|]].
        destruct (proj1 Hi eq_refl) as [n Hpos].
        rewrite Hpos in El.
        assert (Hz : (0 < n)%Z).
        { unfold Qlt in El. simpl in El. lia. }
        destruct n as [|p|p]; try lia. now exists p.
      * split; [discriminate|].
        intros [_ [_ [n Hpos]]].
        assert (Habs : false = true)
          by (apply (proj2 Hi); now exists (Z.pos n)).
        discriminate Habs.
  - intros f Hin.
    repeat (apply in_app_or in Hin; destruct Hin as [Hin|Hin]);
      repeat match type of Hin with
             | In _ (if ?b then _ else _) => destruct b
             end;
      simpl in Hin; intuition.
  - intros Hle Hni. apply Qle_bool_iff in Hle.
    unfold Js.number_le_0. rewrite Hle, Hni.
    destruct (Js.truthy_string (Js.trim (TaskFormData.name d)));
      destruct (Js.truthy_string (Js.trim (TaskFormData.description d)));
      reflexivity.
Qed.

(** ** [debounce] *)

Lemma debounce_run_app {A} (es1 es2 : list (Debounce.event A)) :
  forall armed,
    Debounce.run armed (es1 ++ es2)
    = let '(armed1, runs1) := Debounce.run armed es1 in
      let '(armed2, runs2) := Debounce.run armed1 es2 in
      (armed2, runs1 ++ runs2).
Proof.
  induction es1 as [|e es1 IH]; intros armed; simpl.
  - now destruct (Debounce.run armed es2).
  - destruct (Debounce.step armed e) as [armed' now].
    rewrite IH. destruct (Debounce.run armed' es1) as [a1 r1].
    destruct (Debounce.run a1 es2) as [a2 r2].
    now rewrite app_assoc.
Qed.

Lemma debounce_burst {A} (burst : list A) (a : A) :
  forall armed,
    Debounce.run armed (map Debounce.Call burst ++ [Debounce.Call a])
    = (Some a, []).
Proof.
  induction burst as [|b burst IH]; intros armed; simpl; [reflexivity|].
  now rewrite IH.
Qed.

Lemma debounce_runs_subsequence {A} (es : list (Debounce.event A)) :
  forall armed,
    subsequence (snd (Debounce.run armed es))
                (match armed with Some a => [a] | None => [] end
                 ++ Debounce.calls es).
Proof.
  induction es as [|e es IH]; intros armed; simpl.
  - destruct armed; simpl; repeat constructor.
  - destruct e as [args|]; simpl.
    + specialize (IH (Some args)).
      destruct (Debounce.run (Some args) es) as [final later].
      simpl in *. destruct armed; simpl; [constructor|]; exact IH.
    + destruct armed as [a|]; simpl.
      * specialize (IH None).
        destruct (Debounce.run None es) as [final later].
        simpl in *. now constructor.
      * specialize (IH None).
        now destruct (Debounce.run None es) as [final later].
Qed.

(** The debounced function runs [func] only on arguments it was called
    with, in the order of the calls and at most once per call.  After
    any history, a burst of calls followed by the firing of the timeout
    adds exactly one run, on the arguments of the last call of the
    burst, and leaves no timeout armed. *)
Theorem debounce_runs_the_last_call :
  forall (A : Type) (es : list (Debounce.event A)) (burst : list A) (a : A),
    subsequence (snd (Debounce.run None es)) (Debounce.calls es)
    /\ Debounce.run None
         (es ++ map Debounce.Call burst
             ++ [Debounce.Call a; Debounce.TimeoutFires])
       = (None, snd (Debounce.run None es) ++ [a]).
Proof.
  intros A es burst a. split.
  - exact (debounce_runs_subsequence es None).
  - rewrite debounce_run_app.
    destruct (Debounce.run None es) as [armed1 runs1]. simpl snd.
    change [Debounce.Call a; Debounce.TimeoutFires]
      with ([Debounce.Call a] ++ [@Debounce.TimeoutFires A]).
    rewrite app_assoc, debounce_run_app, debounce_burst. reflexivity.
Qed.

(* ================================================================== *)
(** * Further properties of the HTTP gateway and of the route *)
(* ================================================================== *)

(** Induction over JSON documents, with the hypothesis for the items of
    an array and for the values of an object. *)
Section JsonInduction.

Variable P : json -> Prop.
Hypothesis P_null : P JNull.
Hypothesis P_boolean : forall b, P (JBoolean b).
Hypothesis P_number : forall n, P (JNumber n).
Hypothesis P_string : forall s, P (JString s).
Hypothesis P_array : forall items, Forall P items -> P (JArray items).
Hypothesis P_object :
  forall props, Forall (fun kv => P (snd kv)) props -> P (JObject props).

Fixpoint json_induction (j : json) : P j :=
  match j with
  | JNull => P_null
  | JBoolean b => P_boolean b
  | JNumber n => P_number n
  | JString s => P_string s
  | JArray items =>
      P_array items
        ((fix all (l : list json) : Forall P l :=
            match l with
            | [] => Forall_nil _
            | x :: r => Forall_cons x (json_induction x) (all r)
            end) items)
  | JObject props =>
      P_object props
        ((fix all (l : list (string * json))
            : Forall (fun kv => P (snd kv)) l :=
            match l with
            | [] => Forall_nil _
            | kv :: r => Forall_cons kv (json_induction (snd kv)) (all r)
            end) props)
  end.

End JsonInduction.

(** A parsed document holds no [undefined] and no date, and writing it
    gives the document back. *)
Lemma parsed_is_defined (j : json) : is_undefined (value_of_json j) = false.
Proof. now destruct j. Qed.

Lemma write_parsed (toISOString : Z -> string) (j : json) :
  json_of_value toISOString (value_of_json j) = j.
Proof.
  induction j using json_induction; simpl; try reflexivity.
  - f_equal. rewrite map_map. rewrite <- (map_id items) at 2.
    apply map_ext_in. intros x Hx.
    exact (proj1 (Forall_forall _ _) H x Hx).
  - f_equal. induction props as [|[k x] props IH]; [reflexivity|].
    inversion H as [|? ? Hx Hrest]; subst. simpl in Hx.
    rewrite parsed_is_defined, Hx. f_equal. now apply IH.
Qed.

(** ** [saveData] and [clearData] *)

Lemma member_cases (v : value) (key : string) :
  (member v key = Throw "TypeError" /\ get v key = VUndefined)
  \/ member v key = Ok (get v key).
Proof. destruct v; simpl; auto. Qed.

(** A response in hand: the boolean or the exception [confirmed] ends
    with. *)
Lemma confirmed_response (status : Z) (doc : json) (msg : string) :
  if truthy (get (value_of_json doc) "success")
  then ApiStorage.confirmed
         (ApiStorage.Response true status (Document doc)) msg = Ok true
  else exists e,
         ApiStorage.confirmed
           (ApiStorage.Response true status (Document doc)) msg = Throw e.
Proof.
  unfold ApiStorage.confirmed. simpl.
  destruct (member_cases (value_of_json doc) "success") as [[Hm Hg]|Hm];
    rewrite Hm; simpl.
  - rewrite Hg. simpl. eexists. reflexivity.
  - destruct (truthy (get (value_of_json doc) "success")); [reflexivity|].
    destruct (member_cases (value_of_json doc) "error") as [[He _]|He];
      rewrite He; simpl; [eexists; reflexivity|].
    destruct (get (value_of_json doc) "error");
      try (eexists; reflexivity).
    destruct (Js.truthy_string s); eexists; reflexivity.
Qed.

Lemma confirmed_cases (outcome : ApiStorage.fetch_outcome) (msg : string) :
  (ApiStorage.confirmed outcome msg = Ok true
   /\ exists status doc,
        outcome = ApiStorage.Response true status (Document doc)
        /\ truthy (get (value_of_json doc) "success") = true)
  \/ ((exists e, ApiStorage.confirmed outcome msg = Throw e)
      /\ ~ exists status doc,
            outcome = ApiStorage.Response true status (Document doc)
            /\ truthy (get (value_of_json doc) "success") = true).
Proof.
  destruct outcome as [|[|] status [doc|raw]];
    try (right; split; [eexists; reflexivity
                       | intros [st [d [E _]]]; discriminate E]).
  pose proof (confirmed_response status doc msg) as H.
  destruct (truthy (get (value_of_json doc) "success")) eqn:Et.
  - left. split; [exact H|]. now exists status, doc.
  - right. split; [exact H|].
    intros [st [d [E Ht]]]. injection E as _ <-. congruence.
Qed.

(** [saveData] and [clearData] never throw: they return a boolean for
    every outcome of the request.  The boolean is [true] exactly when
    the response is OK and its body is a JSON document whose [success]
    property is truthy; a failed request, a response that is not OK, a
    body that is not JSON and a body without [success] all give
    [false]. *)
Theorem saveData_and_clearData_confirm :
  forall outcome : ApiStorage.fetch_outcome,
    (ApiStorage.saveData outcome = Ok true
     \/ ApiStorage.saveData outcome = Ok false)
    /\ ApiStorage.clearData outcome = ApiStorage.saveData outcome
    /\ (ApiStorage.saveData outcome = Ok true <->
        exists status doc,
          outcome = ApiStorage.Response true status (Document doc)
          /\ truthy (get (value_of_json doc) "success") = true).
Proof.
  intros outcome.
  unfold ApiStorage.saveData, ApiStorage.clearData.
  destruct (confirmed_cases outcome "Save failed") as [[Hs Hyes]|[[e Hs] Hno]];
    destruct (confirmed_cases outcome "Clear failed")
      as [[Hc Hyes']|[[e' Hc] Hno']];
    rewrite Hs, Hc; simpl; try contradiction.
  - split; [now left | split; [reflexivity | tauto]].
  - split; [now right | split; [reflexivity|]].
    split; [discriminate | intros H; contradiction].
Qed.

(** ** [importData] *)

Lemma get_deserialized (D : string -> Date) (props : list (string * value))
      (key : string) :
  lookup props "constructor" = None ->
  get (deserializeDates D (VObject props)) key
  = match lookup props key with
    | Some (VString s) =>
        if date_key key && Js.truthy_string s then VDate (D s)
        else VString s
    | Some (VArray items) => deserializeDates D (VArray items)
    | Some (VObject ps) => deserializeDates D (VObject ps)
    | Some x => x
    | None => VUndefined
    end.
Proof.
  intros Hc. simpl. rewrite Hc. simpl. clear Hc.
  induction props as [|[k x] props IH]; simpl; [reflexivity|].
  destruct (String.eqb k key) eqn:E.
  - apply String.eqb_eq in E. subst k. now destruct x.
  - exact IH.
Qed.

Lemma get_deserialized_array (D : string -> Date) (v : value) (key : string) :
  isArray (get v key) = true ->
  exists items, get (deserializeDates D v) key = VArray items.
Proof.
  destruct v; simpl; try discriminate.
  - destruct (String.eqb key "length"); discriminate.
  - destruct (String.eqb key "length"); discriminate.
  - intros H. destruct (lookup props "constructor") eqn:Ec.
    + simpl. destruct (lookup props key) as [x|]; [|discriminate].
      destruct x; try discriminate. now exists items.
    + pose proof (get_deserialized D props key Ec) as Hg.
      simpl in Hg. rewrite Ec in Hg. rewrite Hg.
      destruct (lookup props key) as [x|]; [|discriminate].
      destruct x; try discriminate. simpl. eexists. reflexivity.
Qed.

Lemma validateStorageData_true (v : value) :
  ApiStorage.validateStorageData v = true <->
  (exists props, v = VObject props) /\ has_both_arrays v = true.
Proof.
  unfold ApiStorage.validateStorageData, has_both_arrays. split.
  - intros H.
    destruct v as [| |b|n|s|d|items|props]; cbn in H;
      rewrite ?orb_true_r in H; cbn in H; try discriminate H.
    split; [now exists props|].
    cbn. destruct (isArray _); [|discriminate H].
    destruct (isArray _); [reflexivity | discriminate H].
  - intros [[props ->] H]. apply andb_true_iff in H. destruct H as [Ht Hd].
    cbn in Ht, Hd |- *. now rewrite Ht, Hd.
Qed.

(** [importData] accepts exactly the texts that are a JSON object with
    an array under [tasks] and an array under [developers]; what it
    returns then holds an array under each of the two names.  Every
    other text, malformed or of another shape, is refused with one and
    the same message. *)
Theorem importData_accepts_exactly_two_arrays :
  forall (Date_of_string : string -> Date) (t : text),
    (ApiStorage.importData Date_of_string t
     = Throw "Failed to import data: Invalid JSON format"
     \/ exists ts ds,
          ApiStorage.importData Date_of_string t
          = Ok (VObject [("tasks", VArray ts); ("developers", VArray ds)]))
    /\ ((exists v, ApiStorage.importData Date_of_string t = Ok v) <->
        exists props,
          t = Document (JObject props)
          /\ has_both_arrays (value_of_json (JObject props)) = true).
Proof.
  intros D t. unfold ApiStorage.importData.
  destruct t as [doc|raw]; simpl.
  2:{ split; [now left|]. split; [intros [v H]; discriminate
                                 | intros [p [E _]]; discriminate]. }
  destruct (ApiStorage.validateStorageData (value_of_json doc)) eqn:Ev; simpl.
  - apply validateStorageData_true in Ev. destruct Ev as [[props Ep] Hb].
    assert (Hdoc : exists jprops, doc = JObject jprops).
    { destruct doc; simpl in Ep; try discriminate. now eexists. }
    destruct Hdoc as [jprops ->].
    pose proof Hb as Hb'. unfold has_both_arrays in Hb'.
    apply andb_true_iff in Hb'. destruct Hb' as [Ht Hd].
    destruct (get_deserialized_array D _ "tasks" Ht) as [ts Ets].
    destruct (get_deserialized_array D _ "developers" Hd) as [ds Eds].
    rewrite Ets, Eds. unfold or_empty_array. simpl.
    split; [right; now exists ts, ds|].
    split; [intros _; now exists jprops | intros _; eexists; reflexivity].
  - split; [now left|].
    split; [intros [v H]; discriminate|].
    intros [jprops [E Hb]]. injection E as ->.
    assert (Hv : ApiStorage.validateStorageData
                   (value_of_json (JObject jprops)) = true).
    { apply validateStorageData_true. split; [|exact Hb].
      simpl. eexists. reflexivity. }
    congruence.
Qed.
(* ================================================================== *)
(** * Properties of the route handlers *)
(* ================================================================== *)

Lemma or_empty_array_defined (a : value) :
  is_undefined (or_empty_array a) = false.
Proof.
  unfold or_empty_array. destruct (truthy a) eqn:E; [|reflexivity].
  now destruct a.
Qed.

Lemma member_of_revived (D : string -> Date) (v : value) (key : string) :
  truthy v = true ->
  member (deserializeDates D v) key = Ok (get (deserializeDates D v) key).
Proof.
  intros H. destruct v; simpl in *; try discriminate H; try reflexivity.
  now destruct (lookup props "constructor").
Qed.

Lemma get_parsed (j : json) (key : string) :
  get (value_of_json j) key = VUndefined
  \/ exists j', get (value_of_json j) key = value_of_json j'.
Proof.
  destruct j as [| | |s|items|props]; simpl; auto.
  - destruct (String.eqb key "length"); [right|now left].
    now exists (JNumber (inject_Z (Z.of_nat (Js.length s)))).
  - destruct (String.eqb key "length"); [right|now left].
    now exists (JNumber (length_number (map value_of_json items))).
  - induction props as [|[k x] props IH]; simpl; [now left|].
    destruct (String.eqb k key); [right; now exists x | exact IH].
Qed.

Lemma parse_written_member (toISOString : Z -> string) (j : json)
      (key : string) :
  isArray (get (value_of_json j) key) = true ->
  value_of_json (json_of_value toISOString (get (value_of_json j) key))
  = get (value_of_json j) key.
Proof.
  intros H. destruct (get_parsed j key) as [E|[j' E]]; rewrite E in *.
  - discriminate.
  - now rewrite write_parsed.
Qed.

(** [GET] never fails and never writes: it answers with status 200 and
    a document with exactly the two properties [tasks] and
    [developers], and leaves the store as it was.  When the store
    cannot be reached or holds nothing under the key, the document is
    the empty state. *)
Theorem GET_always_answers :
  forall (toISOString : Z -> string) (Date_of_string : string -> Date)
         (kv : Route.KV),
    exists tasks developers,
      Route.GET toISOString Date_of_string kv
      = (Ok (Route.mkResponse 200
               (Document (JObject [("tasks", tasks);
                                   ("developers", developers)]))), kv)
      /\ (Route.unreachable kv = true \/ Route.stored kv = None ->
          tasks = JArray [] /\ developers = JArray []).
Proof.
  intros toISO D [st un].
  unfold Route.GET, Route.tryE, Route.bindE, Route.kv_get. simpl.
  destruct un; simpl.
  { exists (JArray []), (JArray []). split; [reflexivity | auto]. }
  destruct st as [doc|]; simpl.
  2:{ exists (JArray []), (JArray []). split; [reflexivity | auto]. }
  destruct (truthy (value_of_json doc)) eqn:Et; simpl.
  2:{ exists (JArray []), (JArray []). split; [reflexivity|].
      intros [H|H]; discriminate H. }
  unfold Route.lift.
  rewrite !(member_of_revived D _ _ Et). simpl.
  unfold Route.ret, Route.json_response, JSON_stringify. simpl.
  rewrite !or_empty_array_defined.
  eexists. eexists. split; [reflexivity|].
  intros [H|H]; discriminate H.
Qed.

(** [POST] never fails: it answers 200, 400 or 500.  It answers 200
    exactly when the store can be reached and the body is a JSON
    document that is truthy and holds an array under [tasks] and under
    [developers]; it then stores these two arrays, as they were sent,
    with the version.  In every other case the store is left as it
    was. *)
Theorem POST_stores_only_valid_states :
  forall (toISOString : Z -> string) (requestBody : text) (kv : Route.KV),
    exists resp kv',
      Route.POST toISOString requestBody kv = (Ok resp, kv')
      /\ (Route.status resp = 200 \/ Route.status resp = 400
          \/ Route.status resp = 500)%Z
      /\ (Route.status resp <> 200%Z -> kv' = kv)
      /\ (Route.status resp = 200%Z <->
          Route.unreachable kv = false
          /\ exists doc,
               requestBody = Document doc
               /\ truthy (value_of_json doc) = true
               /\ has_both_arrays (value_of_json doc) = true)
      /\ (Route.status resp = 200%Z ->
          exists doc stored,
            requestBody = Document doc
            /\ kv' = Route.mkKV (Some stored) false
            /\ get (value_of_json stored) "tasks"
               = get (value_of_json doc) "tasks"
            /\ get (value_of_json stored) "developers"
               = get (value_of_json doc) "developers"
            /\ get (value_of_json stored) "version" = VString "1.0").
Proof.
  intros toISO [doc|raw] [st un].
  2:{ eexists. eexists. split; [reflexivity|]. simpl.
      split; [auto|]. split; [reflexivity|].
      split; [split; [discriminate | intros [_ [d [E _]]]; discriminate E]
             | discriminate]. }
  unfold Route.POST, Route.tryE, Route.bindE, Route.lift. simpl JSON_parse.
  cbv iota beta.
  destruct (truthy (value_of_json doc)) eqn:Et; simpl negb; simpl orb.
  2:{ eexists. eexists. split; [reflexivity|]. simpl.
      split; [auto|]. split; [reflexivity|].
      split; [split; [discriminate
                     | intros [_ [d [E [Ht _]]]]; injection E as <-;
                       congruence]
             | discriminate]. }
  destruct (isArray (get (value_of_json doc) "tasks")) eqn:Ea; simpl negb;
    simpl orb.
  2:{ eexists. eexists. split; [reflexivity|]. simpl.
      split; [auto|]. split; [reflexivity|].
      split; [split; [discriminate
                     | intros [_ [d [E [_ Hb]]]]; injection E as <-;
                       unfold has_both_arrays in Hb; rewrite Ea in Hb;
                       discriminate Hb]
             | discriminate]. }
  destruct (isArray (get (value_of_json doc) "developers")) eqn:Eb;
    simpl negb; cbv iota.
  2:{ eexists. eexists. split; [reflexivity|]. simpl.
      split; [auto|]. split; [reflexivity|].
      split; [split; [discriminate
                     | intros [_ [d [E [_ Hb]]]]; injection E as <-;
                       unfold has_both_arrays in Hb; rewrite Ea, Eb in Hb;
                       discriminate Hb]
             | discriminate]. }
  unfold Route.kv_set. simpl Route.unreachable.
  destruct un.
  { eexists. eexists. split; [reflexivity|]. simpl.
    split; [auto|]. split; [reflexivity|].
    split; [split; [discriminate | intros [H _]; discriminate H]
           | discriminate]. }
  assert (Ml : forall key,
             isArray (get (value_of_json doc) key) = true ->
             member (get (value_of_json doc) key) "length"
             = Ok (get (get (value_of_json doc) key) "length")).
  { intros key H. now destruct (get (value_of_json doc) key). }
  rewrite (Ml _ Ea), (Ml _ Eb).
  eexists. eexists. split; [reflexivity|]. simpl Route.status.
  split; [auto|]. split; [intros H; now elim H|].
  split.
  - split; [intros _ | reflexivity].
    split; [reflexivity|]. exists doc.
    unfold has_both_arrays. now rewrite Ea, Eb.
  - intros _. exists doc. eexists. split; [reflexivity|].
    split; [reflexivity|].
    assert (Du : forall key,
               isArray (get (value_of_json doc) key) = true ->
               is_undefined (get (value_of_json doc) key) = false).
    { intros key H. now destruct (get (value_of_json doc) key). }
    simpl. rewrite (Du _ Ea), (Du _ Eb). simpl.
    rewrite (parse_written_member toISO doc "tasks" Ea).
    rewrite (parse_written_member toISO doc "developers" Eb).
    auto.
Qed.

(** [DELETE] never fails.  When the store can be reached it answers 200
    and empties the key, so that the next [GET] answers with the empty
    state; when it cannot, it answers 500 and changes nothing.  The
    client's [clearData] returns [true] in the first case and [false]
    in the second. *)
Theorem DELETE_empties_the_store :
  forall (toISOString : Z -> string) (Date_of_string : string -> Date)
         (kv : Route.KV),
    exists resp kv',
      Route.DELETE toISOString kv = (Ok resp, kv')
      /\ Route.status resp
         = (if Route.unreachable kv then 500 else 200)%Z
      /\ kv' = (if Route.unreachable kv then kv
                else Route.mkKV None false)
      /\ ApiStorage.clearData (Route.deliver resp)
         = Ok (negb (Route.unreachable kv))
      /\ (Route.unreachable kv = false ->
          Route.GET toISOString Date_of_string kv'
          = (Ok (Route.mkResponse 200 (Document empty_document)), kv')).
Proof.
  intros toISO D [st [|]]; eexists; eexists;
    (split; [reflexivity|]); simpl.
  - repeat split; discriminate.
  - repeat split; reflexivity.
Qed.

(** ** From the client to the store and back *)

Section SaveAndLoad.

Variable toISOString : Z -> string.
Variable Date_of_string : string -> Date.

Hypothesis ISO_not_empty :
  forall ms, time_value ms -> toISOString ms <> "".
Hypothesis ISO_round_trip :
  forall ms, time_value ms -> Date_of_string (toISOString ms) = ValidDate ms.

Lemma tasks_through_the_wire (ts : list Task.t) :
  Forall well_formed_task ts ->
  map (deserializeDates Date_of_string)
      (map value_of_json
           (map (json_of_value toISOString) (map value_of_task ts)))
  = map value_of_task ts.
Proof.
  intros Hts. apply items_through_the_wire.
  intros v Hv. apply in_map_iff in Hv. destruct Hv as [t [<- Ht]].
  apply (task_through_the_wire toISOString Date_of_string
           ISO_not_empty ISO_round_trip).
  exact (proj1 (Forall_forall _ _) Hts t Ht).
Qed.

Lemma developers_through_the_wire (ds : list Developer.t) :
  map (deserializeDates Date_of_string)
      (map value_of_json
           (map (json_of_value toISOString) (map value_of_developer ds)))
  = map value_of_developer ds.
Proof.
  apply items_through_the_wire.
  intros v Hv. apply in_map_iff in Hv. destruct Hv as [d [<- Hd]].
  apply developer_through_the_wire.
Qed.

Lemma written_parsed_items (vs : list value) :
  map (json_of_value toISOString)
      (map value_of_json (map (json_of_value toISOString) vs))
  = map (json_of_value toISOString) vs.
Proof.
  rewrite map_map. rewrite <- (map_id (map _ vs)) at 2.
  apply map_ext. intros j. apply write_parsed.
Qed.

(** A valid state that the client saves while the store can be reached
    is the state the client loads afterwards: [saveData] posts the
    state and returns [true], the route stores it, and [loadData] on
    the answer of the next [GET] returns the same tasks and developers,
    the dates included (under the platform's contract for dates). *)
Theorem saved_state_is_loaded_back :
  forall (s : AppState) (kv : Route.KV),
    valid_state s ->
    Route.unreachable kv = false ->
    exists posted kv' got,
      Route.POST toISOString (ApiStorage.save_request toISOString s) kv
      = (Ok posted, kv')
      /\ ApiStorage.saveData (Route.deliver posted) = Ok true
      /\ Route.GET toISOString Date_of_string kv' = (Ok got, kv')
      /\ ApiStorage.loadData Date_of_string (Route.deliver got)
         = Ok (value_of_state s).
Proof.
  intros [ts ds] [st un] Hs Hun. simpl in Hun. subst un.
  unfold valid_state in Hs. simpl in Hs.
  eexists. eexists. eexists.
  split; [reflexivity|]. split; [reflexivity|].
  unfold Route.GET, Route.tryE, Route.bindE, Route.kv_get, Route.lift,
    Route.ret, Route.json_response, JSON_stringify, or_empty_array.
  simpl.
  rewrite !written_parsed_items.
  rewrite (tasks_through_the_wire ts Hs), (developers_through_the_wire ds).
  simpl. split; [reflexivity|].
  unfold Route.deliver, ApiStorage.loadData. simpl.
  rewrite (tasks_through_the_wire ts Hs), (developers_through_the_wire ds).
  reflexivity.
Qed.

End SaveAndLoad.
(* ================================================================== *)
(** * Further properties of the localStorage gateway *)
(* ================================================================== *)

Lemma lookup_store (es : list (string * text)) (key : string) (v : text) :
  lookup (Storage.store es key v) key = Some v.
Proof.
  induction es as [|[k x] es IH]; simpl.
  - now rewrite String.eqb_refl.
  - destruct (String.eqb k key) eqn:E; simpl; rewrite E; [reflexivity|exact IH].
Qed.

Lemma lookup_store_other (es : list (string * text)) (key other : string)
      (v : text) :
  other <> key ->
  lookup (Storage.store es key v) other = lookup es other.
Proof.
  intros Hne. induction es as [|[k x] es IH]; simpl.
  - destruct (String.eqb key other) eqn:E; [|reflexivity].
    apply String.eqb_eq in E. congruence.
  - destruct (String.eqb k key) eqn:E; simpl.
    + apply String.eqb_eq in E. subst k.
      destruct (String.eqb key other) eqn:E'; [|reflexivity].
      apply String.eqb_eq in E'. congruence.
    + now rewrite IH.
Qed.

Lemma lookup_unstore (es : list (string * text)) (key : string) :
  lookup (Storage.unstore es key) key = None.
Proof.
  induction es as [|[k x] es IH]; simpl; [reflexivity|].
  destruct (String.eqb k key) eqn:E; simpl; [exact IH|].
  now rewrite E.
Qed.

Lemma lookup_unstore_other (es : list (string * text)) (key other : string) :
  other <> key ->
  lookup (Storage.unstore es key) other = lookup es other.
Proof.
  intros Hne. induction es as [|[k x] es IH]; simpl; [reflexivity|].
  destruct (String.eqb k key) eqn:E; simpl.
  - apply String.eqb_eq in E. subst k.
    destruct (String.eqb key other) eqn:E'; [|exact IH].
    apply String.eqb_eq in E'. congruence.
  - now rewrite IH.
Qed.

Lemma every_map {X} (check : value -> result bool) (f : X -> value)
      (p : X -> bool) (xs : list X) :
  (forall x, check (f x) = Ok (p x)) ->
  Storage.every check (map f xs) = Ok (forallb p xs).
Proof.
  intros H. induction xs as [|x xs IH]; simpl; [reflexivity|].
  rewrite H. simpl. destruct (p x); [exact IH | reflexivity].
Qed.

Lemma includes_status_text (st : TaskStatus) :
  Storage.includes_status (VString (status_text st)) = true.
Proof. now destruct st. Qed.

Lemma valid_task_typed (t : Task.t) :
  Storage.valid_task (value_of_task t) = Ok (named_task t).
Proof.
  destruct t as [id name description points status assignedTo createdAt
                 completedAt completionDetails].
  unfold Storage.valid_task, named_task, value_of_task. simpl.
  destruct (Js.truthy_string id); simpl; [|reflexivity].
  destruct (Js.truthy_string name); simpl; [|reflexivity].
  now destruct status.
Qed.

Lemma valid_developer_typed (d : Developer.t) :
  Storage.valid_developer (value_of_developer d) = Ok (named_developer d).
Proof.
  destruct d as [id name totalPoints completedTasks totalHours].
  unfold Storage.valid_developer, named_developer. simpl.
  destruct (Js.truthy_string id); simpl; [|reflexivity].
  now destruct (Js.truthy_string name).
Qed.

Lemma valid_task_stored (toISOString : Z -> string) (t : Task.t) :
  Storage.valid_task
    (value_of_json (json_of_value toISOString (value_of_task t)))
  = Ok (named_task t).
Proof.
  destruct t as [id name description points status assignedTo createdAt
                 completedAt completionDetails].
  unfold Storage.valid_task, named_task, value_of_task. simpl.
  destruct (Js.truthy_string id); simpl; [|reflexivity].
  destruct (Js.truthy_string name); simpl; [|reflexivity].
  now destruct status.
Qed.

Lemma valid_developer_stored (toISOString : Z -> string) (d : Developer.t) :
  Storage.valid_developer
    (value_of_json (json_of_value toISOString (value_of_developer d)))
  = Ok (named_developer d).
Proof. apply valid_developer_typed. Qed.

Lemma validateStorageData_typed (s : AppState) :
  Storage.validateStorageData
    (VObject (Storage.storageData (get (value_of_state s) "tasks")
                                  (get (value_of_state s) "developers")))
  = Ok (storable s).
Proof.
  unfold Storage.validateStorageData, storable. simpl.
  rewrite (every_map _ _ _ _ valid_task_typed). simpl.
  destruct (forallb named_task (tasks s)); simpl; [|reflexivity].
  apply (every_map _ _ _ _ valid_developer_typed).
Qed.

Lemma validateStorageData_stored (toISOString : Z -> string) (s : AppState) :
  Storage.validateStorageData
    (value_of_json
       (json_of_value toISOString
          (VObject (Storage.storageData (get (value_of_state s) "tasks")
                                        (get (value_of_state s) "developers")))))
  = Ok (storable s).
Proof.
  unfold Storage.validateStorageData, storable. simpl.
  rewrite !map_map.
  rewrite (every_map _ (fun t => value_of_json
                                   (json_of_value toISOString (value_of_task t)))
             _ _ (valid_task_stored toISOString)).
  simpl.
  destruct (forallb named_task (tasks s)); simpl; [|reflexivity].
  apply (every_map _ (fun d => value_of_json
                                 (json_of_value toISOString
                                    (value_of_developer d)))
           _ _ (valid_developer_stored toISOString)).
Qed.

Lemma length_of_array (v : value) :
  isArray v = true -> member v "length" = Ok (get v "length").
Proof. now destruct v. Qed.

(** The steps of [saveData] after the validation, on a storage that can
    be read and written: the document ends up under the key. *)
Lemma saveData_writes (toISOString : Z -> string)
      (spelled_null : text -> bool) (state : value)
      (ls : Storage.LocalStorage) :
  writable ls = true ->
  truthy state = true ->
  has_both_arrays state = true ->
  Storage.validateStorageData
    (VObject (Storage.storageData (get state "tasks")
                                  (get state "developers"))) = Ok true ->
  exists ls',
    Storage.saveData toISOString spelled_null state ls = (Ok true, ls')
    /\ writable ls' = true
    /\ lookup (Storage.entries ls') Storage.STORAGE_KEY
       = Some (JSON_stringify toISOString
                 (Storage.storageData (get state "tasks")
                                      (get state "developers"))).
Proof.
  intros Hw Ht Hb Hv. destruct ls as [es dn qe].
  unfold writable in Hw. simpl in Hw. apply andb_true_iff in Hw.
  destruct Hw as [Hd Hq]. apply negb_true_iff in Hd, Hq. subst dn qe.
  unfold has_both_arrays in Hb. apply andb_true_iff in Hb.
  destruct Hb as [Ha Hb].
  unfold Storage.saveData, Storage.tryE, Storage.bindE, Storage.lift,
    Storage.ret, Storage.getItem, Storage.setItem.
  rewrite Ht, Ha, Hb, Hv. simpl.
  rewrite (length_of_array _ Ha), (length_of_array _ Hb).
  destruct (lookup es Storage.STORAGE_KEY) as [current|]; simpl.
  - destruct (Storage.worth_a_backup spelled_null current); simpl;
      (eexists; split; [reflexivity|]; split; [reflexivity|]);
      apply lookup_store.
  - eexists. split; [reflexivity|]. split; [reflexivity|].
    apply lookup_store.
Qed.

(** [saveData] never throws.  It returns [true] exactly when the
    storage can be read and written, the state is truthy and holds an
    array under [tasks] and under [developers], and the validation
    accepts these arrays; the key then holds the document of the two
    arrays and the version. *)
Theorem saveData_returns_a_boolean :
  forall (toISOString : Z -> string) (spelled_null : text -> bool)
         (state : value) (ls : Storage.LocalStorage),
    exists saved ls',
      Storage.saveData toISOString spelled_null state ls = (Ok saved, ls')
      /\ (saved = true <->
          writable ls = true
          /\ truthy state = true
          /\ has_both_arrays state = true
          /\ Storage.validateStorageData
               (VObject (Storage.storageData (get state "tasks")
                                             (get state "developers")))
             = Ok true)
      /\ (saved = true ->
          lookup (Storage.entries ls') Storage.STORAGE_KEY
          = Some (JSON_stringify toISOString
                    (Storage.storageData (get state "tasks")
                                         (get state "developers")))).
Proof.
  intros toISO sn state [es dn qe].
  unfold Storage.saveData, Storage.tryE, Storage.bindE, Storage.lift,
    Storage.ret, Storage.getItem, Storage.setItem, writable, has_both_arrays.
  simpl Storage.denied. simpl Storage.quota_exceeded. simpl Storage.entries.
  destruct (truthy state) eqn:Ht; simpl negb; simpl orb; cbv iota beta.
  2:{ destruct dn; simpl;
        [|destruct (lookup es Storage.BACKUP_LAST) as [b|]; simpl;
          [destruct (Storage.empty_text b); simpl; [|destruct qe; simpl]|]];
        (eexists; eexists; split; [reflexivity|]);
        (split; [split; [discriminate | intros [_ [H _]]; discriminate H]
                | discriminate]). }
  destruct (isArray (get state "tasks")) eqn:Ha; simpl negb; simpl orb;
    cbv iota beta.
  2:{ destruct dn; simpl;
        [|destruct (lookup es Storage.BACKUP_LAST) as [b|]; simpl;
          [destruct (Storage.empty_text b); simpl; [|destruct qe; simpl]|]];
        (eexists; eexists; split; [reflexivity|]);
        (split; [split; [discriminate | intros [_ [_ [H _]]]; discriminate H]
                | discriminate]). }
  destruct (isArray (get state "developers")) eqn:Hb; simpl negb;
    cbv iota beta.
  2:{ destruct dn; simpl;
        [|destruct (lookup es Storage.BACKUP_LAST) as [b|]; simpl;
          [destruct (Storage.empty_text b); simpl; [|destruct qe; simpl]|]];
        (eexists; eexists; split; [reflexivity|]);
        (split; [split; [discriminate | intros [_ [_ [H _]]]; discriminate H]
                | discriminate]). }
  rewrite (length_of_array _ Ha), (length_of_array _ Hb).
  destruct (Storage.validateStorageData _) as [[|]|e]; simpl.
  2,3: destruct dn; simpl;
        [|destruct (lookup es Storage.BACKUP_LAST) as [b|]; simpl;
          [destruct (Storage.empty_text b); simpl; [|destruct qe; simpl]|]];
        (eexists; eexists; split; [reflexivity|]);
        (split; [split; [discriminate
                        | intros [_ [_ [_ H]]]; discriminate H]
                | discriminate]).
  destruct dn; simpl.
  { eexists. eexists. split; [reflexivity|].
    split; [split; [discriminate | intros [H _]; discriminate H]
           | discriminate]. }
  destruct qe; simpl.
  - destruct (lookup es Storage.STORAGE_KEY) as [current|]; simpl;
      [destruct (Storage.worth_a_backup sn current); simpl|];
      (destruct (lookup es Storage.BACKUP_LAST) as [b|]; simpl;
       [destruct (Storage.empty_text b); simpl|]);
      (eexists; eexists; split; [reflexivity|]);
      (split; [split; [discriminate | intros [H _]; discriminate H]
              | discriminate]).
  - destruct (lookup es Storage.STORAGE_KEY) as [current|]; simpl;
      [destruct (Storage.worth_a_backup sn current); simpl|];
      (eexists; eexists; split; [reflexivity|]);
      (split; [split; [auto | reflexivity]
              | intros _; apply lookup_store]).
Qed.

(** A state with a record without a name (or without an id) is not
    saved, and the attempt is not harmless: when the storage can be
    read and written and holds a last backup, [saveData] returns
    [false] and puts that backup under the key, in place of the
    document that was there. *)
Theorem refused_save_rolls_back :
  forall (toISOString : Z -> string) (spelled_null : text -> bool)
         (s : AppState) (ls : Storage.LocalStorage) (backup : text),
    storable s = false ->
    writable ls = true ->
    lookup (Storage.entries ls) Storage.BACKUP_LAST = Some backup ->
    Storage.empty_text backup = false ->
    Storage.saveData toISOString spelled_null (value_of_state s) ls
    = (Ok false,
       Storage.mkLocalStorage
         (Storage.store (Storage.entries ls) Storage.STORAGE_KEY backup)
         false false).
Proof.
  intros toISO sn s [es dn qe] backup Hs Hw Hl He.
  unfold writable in Hw. simpl in Hw. apply andb_true_iff in Hw.
  destruct Hw as [Hd Hq]. apply negb_true_iff in Hd, Hq. subst dn qe.
  simpl in Hl.
  unfold Storage.saveData, Storage.tryE, Storage.bindE, Storage.lift,
    Storage.ret, Storage.getItem, Storage.setItem.
  rewrite (validateStorageData_typed s), Hs. simpl.
  change (lookup es (Storage.STORAGE_KEY ++ "-backup-last")%string)
    with (lookup es Storage.BACKUP_LAST).
  now rewrite Hl, He.
Qed.

(** [clearData] never throws and returns [true] exactly when the
    storage can be accessed; [loadData] then returns the empty state. *)
Theorem clearData_then_loadData :
  forall (Date_of_string : string -> Date) (stamp : string)
         (ls : Storage.LocalStorage),
    exists ls',
      Storage.clearData ls = (Ok (negb (Storage.denied ls)), ls')
      /\ (Storage.denied ls = false ->
          lookup (Storage.entries ls') Storage.STORAGE_KEY = None
          /\ Storage.loadData Date_of_string stamp ls'
             = (Ok Storage.DEFAULT_STATE, ls')).
Proof.
  intros D stamp [es dn qe].
  unfold Storage.clearData, Storage.tryE, Storage.bindE, Storage.removeItem,
    Storage.ret.
  simpl Storage.denied. destruct dn; simpl.
  - eexists. split; [reflexivity | discriminate].
  - eexists. split; [reflexivity|]. intros _.
    pose proof (lookup_unstore es Storage.STORAGE_KEY) as Hl.
    split; [exact Hl|].
    unfold Storage.loadData, Storage.tryE, Storage.bindE, Storage.getItem.
    simpl Storage.denied. simpl Storage.entries. cbv iota.
    now rewrite Hl.
Qed.

(** [isStorageAvailable] never throws.  It returns [true] exactly when
    the storage can be read and written, and leaves every entry as it
    was, except one under the name of its test entry, which is gone
    afterwards. *)
Theorem isStorageAvailable_probes :
  forall ls : Storage.LocalStorage,
    exists ls',
      Storage.isStorageAvailable ls = (Ok (writable ls), ls')
      /\ (forall key, key <> Storage.STORAGE_TEST ->
            lookup (Storage.entries ls') key
            = lookup (Storage.entries ls) key)
      /\ (writable ls = true ->
          lookup (Storage.entries ls') Storage.STORAGE_TEST = None).
Proof.
  intros [es dn qe].
  unfold Storage.isStorageAvailable, Storage.tryE, Storage.bindE,
    Storage.setItem, Storage.removeItem, Storage.ret, writable.
  simpl Storage.denied. simpl Storage.quota_exceeded.
  destruct dn; simpl; [eexists; split; [reflexivity|];
                       split; [reflexivity | discriminate]|].
  destruct qe; simpl; [eexists; split; [reflexivity|];
                       split; [reflexivity | discriminate]|].
  eexists. split; [reflexivity|]. simpl. split.
  - intros key Hk.
    rewrite (lookup_unstore_other _ _ _ Hk).
    now apply lookup_store_other.
  - intros _. apply lookup_unstore.
Qed.


(** ** Saving and loading, exporting and importing *)

Section StoreAndLoad.

Variable toISOString : Z -> string.
Variable Date_of_string : string -> Date.

Hypothesis ISO_not_empty :
  forall ms, time_value ms -> toISOString ms <> "".
Hypothesis ISO_round_trip :
  forall ms, time_value ms -> Date_of_string (toISOString ms) = ValidDate ms.

(** What [loadData] and [importData] make of the parsed document of a
    valid state. *)
Lemma stored_state_revived (s : AppState) :
  valid_state s ->
  let revived :=
    deserializeDates Date_of_string
      (value_of_json
         (json_of_value toISOString
            (VObject (Storage.storageData
                        (get (value_of_state s) "tasks")
                        (get (value_of_state s) "developers"))))) in
  VObject [ ("tasks", or_empty_array (get revived "tasks"));
            ("developers", or_empty_array (get revived "developers")) ]
  = value_of_state s.
Proof.
  intros Hs. destruct s as [ts ds]. unfold valid_state in Hs. simpl in Hs.
  simpl. unfold or_empty_array. simpl.
  rewrite (tasks_through_the_wire toISOString Date_of_string
             ISO_not_empty ISO_round_trip ts Hs).
  now rewrite (developers_through_the_wire toISOString Date_of_string ds).
Qed.

(** A valid state whose records all have an id and a name, saved to a
    storage that can be read and written, is the state [loadData]
    returns afterwards, the dates included. *)
Theorem stored_state_is_loaded_back :
  forall (spelled_null : text -> bool) (stamp : string) (s : AppState)
         (ls : Storage.LocalStorage),
    valid_state s ->
    storable s = true ->
    writable ls = true ->
    exists ls',
      Storage.saveData toISOString spelled_null (value_of_state s) ls
      = (Ok true, ls')
      /\ Storage.loadData Date_of_string stamp ls'
         = (Ok (value_of_state s), ls').
Proof.
  intros sn stamp s ls Hs Hn Hw.
  destruct (saveData_writes toISOString sn (value_of_state s) ls Hw
              eq_refl eq_refl)
    as [ls' [Hsave [Hw' Hl]]].
  { rewrite validateStorageData_typed. now rewrite Hn. }
  exists ls'. split; [exact Hsave|].
  destruct ls' as [es dn qe]. unfold writable in Hw'. simpl in Hw'.
  apply andb_true_iff in Hw'. destruct Hw' as [Hd _].
  apply negb_true_iff in Hd. subst dn. cbn [Storage.entries] in Hl.
  unfold Storage.loadData, Storage.tryE at 1, Storage.bindE at 1,
    Storage.getItem at 1.
  simpl Storage.denied. simpl Storage.entries. cbv iota. rewrite Hl.
  unfold JSON_stringify. cbv iota.
  change (Storage.empty_text (Document _)) with false. cbv iota.
  unfold Storage.bindE, Storage.lift, Storage.ret, JSON_parse.
  assert (Hm : Storage.migrateData
                 (value_of_json
                    (json_of_value toISOString
                       (VObject (Storage.storageData
                                   (get (value_of_state s) "tasks")
                                   (get (value_of_state s) "developers")))))
               = Ok (value_of_json
                       (json_of_value toISOString
                          (VObject (Storage.storageData
                                      (get (value_of_state s) "tasks")
                                      (get (value_of_state s) "developers"))))))
    by reflexivity.
  rewrite Hm, validateStorageData_stored, Hn. simpl negb. cbv iota.
  now rewrite (stored_state_revived s Hs).
Qed.

(** [storage.ts] is stricter on the way in than on the way out:
    [exportData] writes every state, and [importData] returns the
    exported state when all its records have an id and a name, and
    refuses the text otherwise. *)
Theorem storage_import_needs_names :
  forall s : AppState,
    valid_state s ->
    exists jsonString,
      Storage.exportData toISOString s = Ok jsonString
      /\ Storage.importData Date_of_string jsonString
         = (if storable s then Ok (value_of_state s)
            else Throw "Failed to import data: Invalid JSON format").
Proof.
  intros s Hs. eexists. split; [reflexivity|].
  unfold Storage.importData, JSON_stringify, JSON_parse, bind.
  rewrite validateStorageData_stored.
  destruct (storable s); simpl; [|reflexivity].
  pose proof (stored_state_revived s Hs) as Hr. simpl in Hr.
  now rewrite Hr.
Qed.

End StoreAndLoad.
(* ================================================================== *)
(** * Properties of the board *)
(* ================================================================== *)

Section BoardProperties.

Context {casing : Js.CaseMapping}.

Lemma find_by_id_found (ts : list Task.t) (taskId : string) (t : Task.t) :
  find (fun t => String.eqb (Task.id t) taskId) ts = Some t ->
  In t ts /\ Task.id t = taskId.
Proof.
  intros H. apply find_some in H. destruct H as [Hin He].
  now apply String.eqb_eq in He.
Qed.

(** For the card of a task of the state, dropped on a column of the
    board, [validateDrop] decides by the columns alone: the drop is
    valid exactly when the card comes from another column.  The test
    for completed tasks looks the task up among the tasks of the target
    column, where a card from another column is never found, so a
    completed task is refused by [draggable] on its card only; and
    [handleDrop] hands every drop from another column on. *)
Theorem validateDrop_decides_by_column :
  forall (s : AppState) (col : Board.Column) (t : Task.t),
    distinct_task_ids s ->
    In t (tasks s) ->
    In col (Board.columns s) ->
    (forall d, Board.developer col = Some d -> Developer.id d <> "") ->
    Board.isValid (Board.validateDrop col (Board.dragData t))
    = negb (String.eqb (Board.sourceColumn (Board.dragData t))
                       (Board.targetColumn col))
    /\ Board.message (Board.validateDrop col (Board.dragData t))
       <> Some "Cannot move completed tasks"
    /\ Board.handleDrop col (Board.dragData t)
       = (if String.eqb (Board.sourceColumn (Board.dragData t))
                        (Board.targetColumn col)
          then None
          else Some (Task.id t, Board.targetColumn col)).
Proof.
  intros s col t Hnd Ht Hcol Hid.
  assert (Hfound :
            String.eqb (Board.sourceColumn (Board.dragData t))
                       (Board.targetColumn col) = false ->
            match find (fun x => String.eqb (Task.id x)
                                            (Board.taskId (Board.dragData t)))
                       (Board.column_tasks col) with
            | Some task => TaskStatus_eqb (Task.status task) completed
            | None => false
            end = false).
  { intros Hne.
    destruct (find _ (Board.column_tasks col)) as [t'|] eqn:Ef;
      [|reflexivity].
    apply find_by_id_found in Ef. destruct Ef as [Hin' Hsame].
    simpl in Hsame.
    destruct Hcol as [<-|Hcol].
    - simpl in Hin'. unfold getTasksByStatus in Hin'.
      apply filter_In in Hin'. destruct Hin' as [_ Hst].
      now destruct (Task.status t').
    - apply in_map_iff in Hcol. destruct Hcol as [d [<- Hd]].
      simpl in Hin'. unfold getTasksByDeveloper in Hin'.
      apply filter_In in Hin'. destruct Hin' as [Hin' Hass].
      assert (t' = t)
        by (apply (same_key_same_item Task.id (tasks s)); assumption).
      subst t'.
      apply assignedTo_is_true in Hass.
      specialize (Hid d eq_refl).
      unfold Board.dragData, Board.targetColumn, string_or in Hne.
      simpl in Hne. rewrite Hass in Hne.
      apply truthy_string_true in Hid. rewrite Hid in Hne.
      now rewrite String.eqb_refl in Hne. }
  unfold Board.handleDrop, Board.validateDrop.
  destruct (String.eqb (Board.sourceColumn (Board.dragData t))
                       (Board.targetColumn col)) eqn:Hne.
  - simpl. repeat split; discriminate.
  - rewrite (Hfound eq_refl).
    destruct (negb (Board.isBacklog col) && _ && _); simpl;
      rewrite ?Hne; repeat split; discriminate.
Qed.

(** ** The board's invariant *)

Lemma coherent_to_backlog (t : Task.t) : coherent_task (to_backlog t).
Proof.
  split; simpl; [tauto | discriminate].
Qed.

Lemma coherent_map (f : Task.t -> Task.t) (ts : list Task.t) :
  (forall t, In t ts -> coherent_task t) ->
  (forall t, coherent_task t -> coherent_task (f t)) ->
  forall t, In t (map f ts) -> coherent_task t.
Proof.
  intros Hts Hf t Ht. apply in_map_iff in Ht.
  destruct Ht as [t0 [<- Hin]]. auto.
Qed.

Lemma coherent_sweep (s : AppState) :
  coherent_board s -> coherent_board (validateAndCleanup s).
Proof.
  intros H. rewrite validateAndCleanup_map. unfold coherent_board. simpl.
  apply coherent_map; [exact H|].
  intros t Ht.
  destruct (orphaned _ t); [apply coherent_to_backlog | exact Ht].
Qed.

Lemma coherent_updateTask (taskId : string) (updates : PartialTask.t)
      (s : AppState) :
  coherent_board s ->
  (forall t, In t (tasks s) -> Task.id t = taskId ->
             coherent_task (spread_task t updates)) ->
  coherent_board (updateTask taskId updates s).
Proof.
  intros H Hp t Ht. simpl in Ht. apply in_map_iff in Ht.
  destruct Ht as [t0 [<- Hin]].
  destruct (String.eqb (Task.id t0) taskId) eqn:E; [|now apply H].
  apply String.eqb_eq in E. now apply Hp.
Qed.

(** Whatever is done on the board, and whenever the sweep runs, every
    task stays coherent, as long as no two tasks share an id: a task is
    in the backlog exactly when it has no assignee, and a completed
    task has a non-empty assignee, a completion time and completion
    details. *)
Theorem board_keeps_tasks_coherent :
  forall (a : BoardAction) (s : AppState),
    distinct_task_ids s ->
    coherent_board s -> coherent_board (board_step a s).
Proof.
  intros a s Hnd H. destruct a as [taskData id now | taskId target
                                  | taskId completionData now
                                  | editing name id | developerId | ]; simpl.
  - unfold Board.handleCreateTask. intros t Ht. simpl in Ht.
    apply in_app_iff in Ht. destruct Ht as [Ht|[<-|[]]]; [now apply H|].
    split; simpl; [tauto | discriminate].
  - unfold Board.handleTaskDrop.
    destruct (find _ (tasks s)) as [found|]; [|exact H].
    destruct (String.eqb target "backlog");
      (apply coherent_updateTask; [exact H|]); intros x _ _;
      (split; simpl; [|discriminate]).
    + tauto.
    + split; discriminate.
  - unfold Board.handleTaskCompletionSubmit.
    destruct (find _ (tasks s)) as [task|] eqn:Ef; [|exact H].
    destruct (assignedTo_truthy task) eqn:Ea; simpl; [|exact H].
    apply find_by_id_found in Ef. destruct Ef as [Hin Hid].
    apply coherent_updateTask; [exact H|].
    intros x Hx Hsame.
    assert (x = task)
      by (apply (same_key_same_item Task.id (tasks s));
          [exact Hnd | exact Hx | exact Hin | congruence]).
    subst x. split; simpl.
    + split; [discriminate|]. intros Hn.
      unfold assignedTo_truthy in Ea. rewrite Hn in Ea. discriminate.
    + intros _. split; [|split; discriminate].
      unfold assignedTo_truthy in *. simpl. exact Ea.
  - unfold DeveloperModal.handleSubmit.
    destruct (0 <? _)%nat; [exact H|].
    destruct editing; [exact H|].
    unfold addDeveloper. destruct (has_developer _ _); exact H.
  - unfold coherent_board. simpl. apply coherent_map; [exact H|].
    intros t Ht.
    destruct (assignedTo_is t developerId && _);
      [apply coherent_to_backlog | exact Ht].
  - now apply coherent_sweep.
Qed.

End BoardProperties.
(* ================================================================== *)
(** * Loading in the hook *)
(* ================================================================== *)

(** [loadDataWithRetry] never schedules a retry and never sets an
    error, whatever the request comes to: [loadData] has already turned
    every failure into the empty state, so the [catch] block is never
    entered.  The state becomes what [loadData] returned and the error
    is cleared; the loading flag is lowered when the closure's error is
    [null] or the retry count has reached the maximum, and is left as
    it was otherwise. *)
Theorem loadDataWithRetry_never_retries :
  forall (Date_of_string : string -> Date) (captured : option string)
         (retryCount : Z) (outcome : ApiStorage.fetch_outcome)
         (h : Loader.t),
    exists loaded,
      ApiStorage.loadData Date_of_string outcome = Ok loaded
      /\ Loader.loadDataWithRetry Date_of_string captured retryCount
                                  outcome h
         = (Loader.mk loaded None
                      (if (3 <=? retryCount)%Z || Loader.is_null captured
                       then false else Loader.isLoading h),
            None).
Proof.
  intros D captured retryCount outcome h.
  destruct (loadData_lengths D outcome) as [loaded [Hl Hlog]].
  exists loaded. split; [exact Hl|].
  unfold Loader.loadDataWithRetry, Loader.attempt. simpl negb. cbv iota.
  rewrite Hl, Hlog. unfold Loader.maxRetries.
  now destruct ((3 <=? retryCount)%Z || Loader.is_null captured).
Qed.

(* ================================================================== *)
(** * The leaderboard *)
(* ================================================================== *)

Lemma sort_insert_permutation {A} (before : A -> A -> bool) (x : A)
      (ranked : list A) :
  Permutation (x :: ranked) (sort_insert before x ranked).
Proof.
  induction ranked as [|y ranked IH]; simpl; [apply Permutation_refl|].
  destruct (before x y); [apply Permutation_refl|].
  eapply perm_trans; [apply perm_swap|]. now apply perm_skip.
Qed.

Lemma sort_permutation {A} (before : A -> A -> bool) (l : list A) :
  Permutation l (sort before l).
Proof.
  induction l as [|x l IH]; simpl; [apply perm_nil|].
  eapply perm_trans; [apply perm_skip; exact IH|].
  apply sort_insert_permutation.
Qed.

Lemma compare_le_0 (a b : Developer.t) :
  Js.number_le_0 (Leaderboard.compare a b) = true <-> more_points a b.
Proof.
  unfold Js.number_le_0, Leaderboard.compare, more_points.
  rewrite Qle_bool_iff. split; intros H.
  - apply (Qplus_le_l _ _ (- Developer.totalPoints a)%Q).
    rewrite Qplus_opp_r. exact H.
  - apply (Qplus_le_l _ _ (- Developer.totalPoints a)%Q) in H.
    now rewrite Qplus_opp_r in H.
Qed.

Lemma compare_gt_0 (a b : Developer.t) :
  Js.number_le_0 (Leaderboard.compare a b) = false ->
  (Developer.totalPoints a < Developer.totalPoints b)%Q.
Proof.
  intros H. apply Qnot_le_lt. intros Hle.
  apply compare_le_0 in Hle. congruence.
Qed.

Lemma ranked_insert (x : Developer.t) (ranked : list Developer.t) :
  StronglySorted more_points ranked ->
  StronglySorted more_points
    (sort_insert (fun a b => Js.number_le_0 (Leaderboard.compare a b))
                 x ranked).
Proof.
  induction 1 as [|y ranked Hs IH Hy]; simpl.
  - constructor; [constructor | constructor].
  - destruct (Js.number_le_0 (Leaderboard.compare x y)) eqn:E.
    + apply compare_le_0 in E.
      constructor; [now constructor|].
      constructor; [exact E|].
      apply Forall_forall. intros z Hz.
      unfold more_points in *.
      apply (Qle_trans _ (Developer.totalPoints y));
        [exact (proj1 (Forall_forall _ _) Hy z Hz) | exact E].
    + apply compare_gt_0 in E.
      constructor; [exact IH|].
      apply Forall_forall. intros z Hz.
      apply (Permutation_in _ (Permutation_sym
                                 (sort_insert_permutation _ x ranked))) in Hz.
      destruct Hz as [<-|Hz].
      * unfold more_points. now apply Qlt_le_weak.
      * exact (proj1 (Forall_forall _ _) Hy z Hz).
Qed.

Lemma same_points_insert (p : Js.number) (x : Developer.t)
      (ranked : list Developer.t) :
  filter (fun d => Qeq_bool (Developer.totalPoints d) p)
         (sort_insert (fun a b => Js.number_le_0 (Leaderboard.compare a b))
                      x ranked)
  = filter (fun d => Qeq_bool (Developer.totalPoints d) p) (x :: ranked).
Proof.
  induction ranked as [|y ranked IH]; [reflexivity|].
  simpl sort_insert.
  destruct (Js.number_le_0 (Leaderboard.compare x y)) eqn:E; [reflexivity|].
  apply compare_gt_0 in E.
  change (filter ?f (y :: ?l))
    with (if f y then y :: filter f l else filter f l).
  cbv beta. rewrite IH. simpl.
  destruct (Qeq_bool (Developer.totalPoints x) p) eqn:Ex;
    destruct (Qeq_bool (Developer.totalPoints y) p) eqn:Ey; try reflexivity.
  exfalso. apply Qeq_bool_iff in Ex, Ey.
  rewrite Ex, Ey in E. now apply Qlt_irrefl in E.
Qed.

(** The leaderboard lists every developer exactly once, by descending
    total points, and developers with the same points in the order the
    state holds them.  Its first row is the only one that can be
    highlighted, and no developer has more points than the one it
    shows. *)
Theorem leaderboard_ranks_by_points :
  forall developers : list Developer.t,
    Permutation developers (Leaderboard.sortedDevelopers developers)
    /\ StronglySorted more_points (Leaderboard.sortedDevelopers developers)
    /\ (forall p,
          filter (fun d => Qeq_bool (Developer.totalPoints d) p)
                 (Leaderboard.sortedDevelopers developers)
          = filter (fun d => Qeq_bool (Developer.totalPoints d) p)
                   developers)
    /\ (forall first rest,
          Leaderboard.sortedDevelopers developers = first :: rest ->
          forall d, In d developers -> more_points first d)
    /\ (forall index d,
          Leaderboard.isTopPerformer index d = true -> index = 0%nat).
Proof.
  intros developers.
  assert (Hperm : Permutation developers
                    (Leaderboard.sortedDevelopers developers))
    by apply sort_permutation.
  assert (Hsorted : StronglySorted more_points
                      (Leaderboard.sortedDevelopers developers)).
  { unfold Leaderboard.sortedDevelopers, sort.
    induction developers as [|x l IH]; simpl; [constructor|].
    apply ranked_insert. apply IH. apply sort_permutation. }
  split; [exact Hperm|]. split; [exact Hsorted|]. split; [|split].
  - intros p. unfold Leaderboard.sortedDevelopers, sort.
    clear Hperm Hsorted.
    induction developers as [|x l IH]; [reflexivity|].
    simpl fold_right. rewrite same_points_insert.
    simpl. now rewrite IH.
  - intros first rest E d Hd. rewrite E in Hperm, Hsorted.
    apply (Permutation_in _ Hperm) in Hd.
    inversion Hsorted as [|? ? _ Hall]; subst.
    destruct Hd as [<-|Hd].
    + unfold more_points. apply Qle_refl.
    + exact (proj1 (Forall_forall _ _) Hall d Hd).
  - intros index d H. unfold Leaderboard.isTopPerformer in H.
    apply andb_true_iff in H. destruct H as [H _].
    now apply Nat.eqb_eq in H.
Qed.

(* ================================================================== *)
(** * The developer dialog *)
(* ================================================================== *)

Section DialogProperties.

Context {casing : Js.CaseMapping}.

Lemma In_assign_index {A} (l : list A) (i : nat) (v y : A) :
  In y (Js.assign_index l i v) -> In y l \/ y = v.
Proof.
  revert i. induction l as [|x l IH]; intros i; simpl; [tauto|].
  destruct i as [|j]; simpl.
  - intros [<-|H]; auto.
  - intros [<-|H]; auto. destruct (IH j H); auto.
Qed.

Lemma push_not_empty {A} (l : list A) (x : A) : push l x <> [].
Proof. unfold push. now destruct l. Qed.

(** A form that [validateForm] accepts. *)
Lemma validateForm_accepts (devs : list Developer.t)
      (editing : option Developer.t) (name : string) :
  DeveloperModal.validateForm devs editing name = [] ->
  (2 <= Js.length (Js.trim name) <= 50)%nat
  /\ forall dev, In dev devs ->
       id_is_not dev (option_map Developer.id editing) = true ->
       Js.toLowerCase (Developer.name dev) <> Js.toLowerCase (Js.trim name).
Proof.
  unfold DeveloperModal.validateForm. intros H.
  destruct (find _ devs) as [hit|] eqn:Ef;
    [now apply push_not_empty in H|].
  split.
  - destruct (negb (Js.truthy_string (Js.trim name)));
      [now apply push_not_empty in H|].
    destruct (Js.length (Js.trim name) <? 2)%nat eqn:E2;
      [now apply push_not_empty in H|].
    destruct (50 <? Js.length (Js.trim name))%nat eqn:E50;
      [now apply push_not_empty in H|].
    apply Nat.ltb_ge in E2, E50. lia.
  - intros dev Hdev Hid Hname.
    pose proof (find_none _ _ Ef dev Hdev) as Hn. simpl in Hn.
    rewrite Hname, String.eqb_refl, Hid in Hn. discriminate.
Qed.

Lemma replaced_names_distinct (devs : list Developer.t)
      (developer : Developer.t) (i : nat) :
  names_distinct devs ->
  NoDup (map Developer.id devs) ->
  (forall dev, In dev devs ->
     Developer.id dev <> Developer.id developer ->
     Js.toLowerCase (Developer.name dev)
     <> Js.toLowerCase (Developer.name developer)) ->
  Js.findIndex (fun dev =>
                  String.eqb (Developer.id dev) (Developer.id developer))
               devs = Some i ->
  names_distinct (Js.assign_index devs i developer).
Proof.
  unfold names_distinct. revert i.
  induction devs as [|x devs IH]; intros i Hn Hi Hfresh; simpl;
    [discriminate|].
  simpl in Hn, Hi.
  inversion Hn as [|? ? Hxn Hrest]; subst.
  inversion Hi as [|? ? Hxi Hresti]; subst.
  destruct (String.eqb (Developer.id x) (Developer.id developer)) eqn:Ex.
  - intros [= <-]. simpl. constructor; [|exact Hrest].
    apply String.eqb_eq in Ex. intros Hin.
    apply in_map_iff in Hin. destruct Hin as [d [Hd Hdin]].
    apply (Hfresh d (or_intror Hdin)); [|exact Hd].
    intros E. apply Hxi. rewrite Ex, <- E. now apply in_map.
  - destruct (Js.findIndex _ devs) as [j|] eqn:Ej; simpl; [|discriminate].
    intros [= <-]. simpl. constructor.
    + intros Hin. apply in_map_iff in Hin. destruct Hin as [d [Hd Hdin]].
      apply In_assign_index in Hdin. destruct Hdin as [Hdin| ->].
      * apply Hxn. rewrite <- Hd.
        exact (in_map (fun dev => Js.toLowerCase (Developer.name dev))
                      devs d Hdin).
      * apply (Hfresh x (or_introl eq_refl)); [|now symmetry].
        intros E. rewrite E, String.eqb_refl in Ex. discriminate.
    + apply (IH j Hrest Hresti); [|reflexivity].
      intros dev Hdev. apply Hfresh. now right.
Qed.

(** The dialog keeps the names of the developers pairwise different,
    case ignored: when they are so and no two developers share an id,
    they are so after a form is submitted, be it refused, an addition
    or a renaming.  A name it accepts has, trimmed of the white space
    of the language, between 2 and 50 code units; a name of one code
    unit is refused also when it takes two bytes to write (an e with
    diaeresis). *)
Theorem dialog_keeps_names_distinct :
  forall (editing : option Developer.t) (name id : string) (s : AppState),
    names_distinct (developers s) ->
    distinct_developer_ids s ->
    names_distinct
      (developers (DeveloperModal.handleSubmit editing name id s))
    /\ (DeveloperModal.handleSubmit editing name id s <> s ->
        (2 <= Js.length (Js.trim name) <= 50)%nat)
    /\ DeveloperModal.validateForm [] None (Js.unit_bytes 235)
       = [mkValidationError
            "name" "Developer name must be at least 2 characters"].
Proof.
  intros editing name id s Hn Hi.
  rewrite <- and_assoc. split; [|reflexivity].
  unfold DeveloperModal.handleSubmit.
  destruct (DeveloperModal.validateForm (developers s) editing name)
    as [|err errs] eqn:Ev; simpl.
  2:{ split; [exact Hn | intros H; now elim H]. }
  destruct (validateForm_accepts _ _ _ Ev) as [Hlen Hfresh].
  split; [|intros _; exact Hlen].
  destruct editing as [e|]; simpl in Hfresh.
  - unfold updateDeveloper. simpl.
    destruct (Js.findIndex _ (developers s)) as [i|] eqn:Ef.
    + apply (replaced_names_distinct _ _ i Hn Hi); [|exact Ef].
      simpl. intros dev Hdev Hne. apply Hfresh; [exact Hdev|].
      apply negb_true_iff. apply String.eqb_neq. exact Hne.
    + unfold names_distinct. rewrite map_app. simpl.
      apply NoDup_snoc; [exact Hn|].
      intros Hin. apply in_map_iff in Hin. destruct Hin as [d [Hd Hdin]].
      apply (Hfresh d Hdin); [|exact Hd].
      apply negb_true_iff. apply String.eqb_neq. intros E.
      apply (proj1 (findIndex_None_find _ _)) in Ef. simpl in Ef.
      pose proof (find_none _ _ Ef d Hdin) as Hnone. simpl in Hnone.
      rewrite E, String.eqb_refl in Hnone. discriminate.
  - unfold addDeveloper. simpl Developer.id.
    destruct (has_developer (developers s) id); [exact Hn|].
    simpl. unfold names_distinct. rewrite map_app. simpl.
    apply NoDup_snoc; [exact Hn|].
    intros Hin. apply in_map_iff in Hin. destruct Hin as [d [Hd Hdin]].
    exact (Hfresh d Hdin eq_refl Hd).
Qed.

End DialogProperties.

(** ** The further properties at concrete inputs *)

Section FurtherWitnesses.

Local Existing Instance ascii_case_mapping.

Lemma state_with_history_coherent : coherent_board state_with_history.
Proof.
  intros t [<-|[<-|[]]]; (split; [split; discriminate|]); simpl.
  - intros _. repeat split; discriminate.
  - discriminate.
Qed.

Lemma state_with_history_task_ids : distinct_task_ids state_with_history.
Proof.
  unfold distinct_task_ids. simpl.
  repeat constructor; simpl; [intros [H|[]]; discriminate H | intros []].
Qed.

Lemma state_with_history_names : names_distinct (developers state_with_history).
Proof.
  unfold names_distinct. simpl. repeat constructor. intros [].
Qed.

Lemma updateTask_without_target_keeps_tasks_witness :
  updateTask "no-such-task" complete_it state_with_history
  = mkAppState (tasks state_with_history)
               (updateDeveloperStats (tasks state_with_history)
                                     (developers state_with_history)).
Proof.
  apply updateTask_without_target_keeps_tasks.
  right. simpl. intros [H|[H|[]]]; discriminate H.
Defined.

Lemma task_mutations_leave_no_orphan_witness :
  no_dangling_assignment
    (apply_mutation (AddTask task_for_newcomer) state_with_history)
  /\ validateAndCleanup
       (apply_mutation (AddTask task_for_newcomer) state_with_history)
     = apply_mutation (AddTask task_for_newcomer) state_with_history.
Proof.
  apply (task_mutations_leave_no_orphan (AddTask task_for_newcomer)
           state_with_history).
  exact I.
Defined.


Lemma provisioning_keeps_names_distinct_witness :
  (exists kept provisioned,
      updateDeveloperStats (tasks state_with_history ++ [task_for_newcomer])
                           (developers state_with_history)
      = kept ++ provisioned
      /\ map Developer.id kept
         = map Developer.id (developers state_with_history)
      /\ map Developer.name kept
         = map Developer.name (developers state_with_history))
  /\ fresh_names_from
       (List.length (developers state_with_history))
       (updateDeveloperStats (tasks state_with_history ++ [task_for_newcomer])
                             (developers state_with_history))
  /\ names_distinct
       (updateDeveloperStats (tasks state_with_history ++ [task_for_newcomer])
                             (developers state_with_history)).
Proof.
  destruct (provisioning_keeps_names_distinct
              (tasks state_with_history ++ [task_for_newcomer])
              (developers state_with_history) ascii_keeps_counters)
    as [Hkept [Hfresh Hnames]].
  split; [exact Hkept|]. split; [exact Hfresh|].
  apply Hnames. exact state_with_history_names.
Defined.

Lemma generated_name_is_available_witness :
  isDeveloperNameAvailable
    (generateDefaultDeveloperName
       "dev-9" (map Developer.name (developers state_with_history)))
    None state_with_history = true.
Proof.
  apply generated_name_is_available. exact ascii_keeps_counters.
Defined.

Lemma saved_state_is_loaded_back_witness :
  exists posted kv' got,
    Route.POST decimal_stamp
               (ApiStorage.save_request decimal_stamp state_with_history)
               empty_store
    = (Ok posted, kv')
    /\ ApiStorage.saveData (Route.deliver posted) = Ok true
    /\ Route.GET decimal_stamp Date_of_decimal_stamp kv' = (Ok got, kv')
    /\ ApiStorage.loadData Date_of_decimal_stamp (Route.deliver got)
       = Ok (value_of_state state_with_history).
Proof.
  apply (saved_state_is_loaded_back decimal_stamp Date_of_decimal_stamp).
  - exact decimal_stamp_not_empty.
  - exact decimal_stamp_round_trip.
  - exact state_with_history_valid.
  - reflexivity.
Defined.

Lemma refused_save_rolls_back_witness :
  Storage.saveData decimal_stamp (fun _ => false)
                   (value_of_state state_with_unnamed_task)
                   storage_with_backup
  = (Ok false,
     Storage.mkLocalStorage
       [ ("nocena-devs-data", Document empty_document);
         ("nocena-devs-data-backup-last", Document empty_document) ]
       false false).
Proof.
  apply (refused_save_rolls_back decimal_stamp (fun _ => false)
           state_with_unnamed_task storage_with_backup
           (Document empty_document)).
  - reflexivity.
  - reflexivity.
  - reflexivity.
  - reflexivity.
Defined.

Lemma stored_state_is_loaded_back_witness :
  exists ls',
    Storage.saveData decimal_stamp (fun _ => false)
                     (value_of_state state_with_history) empty_storage
    = (Ok true, ls')
    /\ Storage.loadData Date_of_decimal_stamp "2024-01-01T00-00-00-000Z" ls'
       = (Ok (value_of_state state_with_history), ls').
Proof.
  apply (stored_state_is_loaded_back decimal_stamp Date_of_decimal_stamp).
  - exact decimal_stamp_not_empty.
  - exact decimal_stamp_round_trip.
  - exact state_with_history_valid.
  - reflexivity.
  - reflexivity.
Defined.

Lemma storage_import_needs_names_witness :
  exists jsonString,
    Storage.exportData decimal_stamp state_with_history = Ok jsonString
    /\ Storage.importData Date_of_decimal_stamp jsonString
       = Ok (value_of_state state_with_history).
Proof.
  apply (storage_import_needs_names decimal_stamp Date_of_decimal_stamp).
  - exact decimal_stamp_not_empty.
  - exact decimal_stamp_round_trip.
  - exact state_with_history_valid.
Defined.

Lemma validateDrop_decides_by_column_witness :
  Board.isValid
    (Board.validateDrop
       (Board.developer_column second_developer state_with_two_developers)
       (Board.dragData done_task)) = true
  /\ Board.message
       (Board.validateDrop
          (Board.developer_column second_developer state_with_two_developers)
          (Board.dragData done_task))
     <> Some "Cannot move completed tasks"
  /\ Board.handleDrop
       (Board.developer_column second_developer state_with_two_developers)
       (Board.dragData done_task)
     = Some ("completed-task", "dev-2").
Proof.
  apply (validateDrop_decides_by_column state_with_two_developers
           (Board.developer_column second_developer state_with_two_developers)
           done_task).
  - exact state_with_history_task_ids.
  - left. reflexivity.
  - right. right. left. reflexivity.
  - intros d [= <-]. discriminate.
Defined.

Lemma board_keeps_tasks_coherent_witness :
  coherent_board
    (board_step (CompleteTask "assigned-task" two_hours (ValidDate 7))
                state_with_history).
Proof.
  apply board_keeps_tasks_coherent.
  - exact state_with_history_task_ids.
  - exact state_with_history_coherent.
Defined.

Lemma dialog_keeps_names_distinct_witness :
  names_distinct
    (developers
       (DeveloperModal.handleSubmit None padded_name "dev-9"
                                    state_with_history))
  /\ (2 <= Js.length (Js.trim padded_name) <= 50)%nat.
Proof.
  destruct (dialog_keeps_names_distinct None padded_name "dev-9"
              state_with_history) as [Hnames [Hlength _]].
  - exact state_with_history_names.
  - unfold distinct_developer_ids. simpl. repeat constructor. intros [].
  - split; [exact Hnames|]. apply Hlength. vm_compute. discriminate.
Defined.

End FurtherWitnesses.
